(** * Mediloon pharmacy backend: order-text parser and depletion forecaster

    A shallow embedding of [ai-backend/agents/medicine_parser.py] and
    [ai-backend/agents/forecast_agent.py], with the properties their
    specification states about them, and of the code around them: the
    caller of the parser ([OrderingAgent.process_message]), the batch
    entry point of the forecaster and the grouping loop of the
    predictions route, the inventory check of the procurement agent and
    the dosage validation of the safety agent.

    Modelling conventions.
    - A Python [str] is a [string] of ASCII code points; the classes
      [str.isspace], [str.isupper], [\d], [\w], [\s] are the ASCII
      restrictions of the Python ones, and a code point above 127 is a
      caseless symbol.  Python knows more digits and more case pairs
      beyond ASCII: a statement that depends on them is made for ASCII
      messages.
    - A Python [int] is a [Z].  [int(s)] is partial: CPython refuses a
      digit string longer than [sys.int_info.default_max_str_digits].
    - An operation that can raise returns an [outcome]; [try ... except
      Exception] is the handler [try_except].
    - The parser's confidence scores are binary64 values computed with
      the kernel's primitive floats.  The forecaster's pandas float64
      columns are modelled by rationals extended with the infinities and
      NaN ([fval]): finite arithmetic is exact, the special values follow
      IEEE 754.  The code rounds every operation to binary64 and sorts
      with a sort that need not be stable, so model and code agree on a
      computed value where no rounding occurs and no two orders share a
      date: a statement about a computed value says on which histories
      it is made; the other statements (bounds, relations between the
      fields of a result) do not depend on the rounding. *)

From Stdlib Require Import ZArith NArith QArith Qround Bool List Lia Lqa.
From Stdlib Require Import Ascii String DecimalString PrimFloat Uint63.

Set Warnings "-inexact-float".
From Stdlib Require Import Permutation Sorted.
Import ListNotations.

Local Open Scope string_scope.
Local Open Scope Z_scope.

(* ================================================================== *)
(** * Python runtime: exceptions, characters, strings, integers *)

Module Py.

Inductive exn : Type :=
| ValueError
| OverflowError
| KeyError
| IndexError
| TypeError
| ZeroDivisionError.

Inductive outcome (A : Type) : Type :=
| Returned (a : A)
| Raised (e : exn).
Arguments Returned {A} a.
Arguments Raised {A} e.

Definition bind {A B} (m : outcome A) (f : A -> outcome B) : outcome B :=
  match m with
  | Returned a => f a
  | Raised e => Raised e
  end.

(** [try: body  except Exception: return fallback] *)
Definition try_except {A} (body : outcome A) (fallback : A) : outcome A :=
  match body with
  | Returned a => Returned a
  | Raised _ => Returned fallback
  end.

Fixpoint mapM {A B} (f : A -> outcome B) (l : list A) : outcome (list B) :=
  match l with
  | [] => Returned []
  | x :: l' =>
      bind (f x) (fun y => bind (mapM f l') (fun ys => Returned (y :: ys)))
  end.

(** ** Characters *)

Definition code (c : ascii) : N := N_of_ascii c.

Definition in_range (lo hi : N) (c : ascii) : bool :=
  ((lo <=? code c) && (code c <=? hi))%N.

Definition is_digit (c : ascii) : bool := in_range 48 57 c.
Definition is_upper (c : ascii) : bool := in_range 65 90 c.
Definition is_lower (c : ascii) : bool := in_range 97 122 c.
Definition is_alpha (c : ascii) : bool := is_upper c || is_lower c.
Definition is_alnum (c : ascii) : bool := is_alpha c || is_digit c.

(** [str.isspace] on ASCII: TAB, LF, VT, FF, CR, FS, GS, RS, US, space. *)
Definition is_space (c : ascii) : bool :=
  in_range 9 13 c || in_range 28 32 c.

(** The regular-expression class [\w]. *)
Definition is_word (c : ascii) : bool := is_alnum c || (code c =? 95)%N.

Definition lower_char (c : ascii) : ascii :=
  if is_upper c then ascii_of_N (code c + 32) else c.

Definition upper_char (c : ascii) : ascii :=
  if is_lower c then ascii_of_N (code c - 32) else c.

(** ** Strings *)

Fixpoint map_str (f : ascii -> ascii) (s : string) : string :=
  match s with
  | EmptyString => EmptyString
  | String c s' => String (f c) (map_str f s')
  end.

Fixpoint filter_str (p : ascii -> bool) (s : string) : string :=
  match s with
  | EmptyString => EmptyString
  | String c s' => if p c then String c (filter_str p s') else filter_str p s'
  end.

Fixpoint forall_str (p : ascii -> bool) (s : string) : bool :=
  match s with
  | EmptyString => true
  | String c s' => p c && forall_str p s'
  end.

(** [s.lower()] *)
Definition lower (s : string) : string := map_str lower_char s.

(** [needle in hay] *)
Fixpoint contains (needle hay : string) : bool :=
  prefix needle hay ||
  match hay with
  | EmptyString => false
  | String _ hay' => contains needle hay'
  end.

Fixpoint lstrip (s : string) : string :=
  match s with
  | String c s' => if is_space c then lstrip s' else s
  | EmptyString => EmptyString
  end.

Fixpoint rstrip (s : string) : string :=
  match s with
  | EmptyString => EmptyString
  | String c s' =>
      match rstrip s' with
      | EmptyString => if is_space c then EmptyString else String c EmptyString
      | t => String c t
      end
  end.

(** [s.strip()] *)
Definition strip (s : string) : string := rstrip (lstrip s).

(** [s.split()]: the maximal runs of non-whitespace characters.  [cur]
    holds the run being read, reversed. *)
Fixpoint split_ws (cur : list ascii) (s : string) : list string :=
  let flush :=
    match cur with
    | [] => []
    | _ => [string_of_list_ascii (rev cur)]
    end in
  match s with
  | EmptyString => flush
  | String c s' =>
      if is_space c then (flush ++ split_ws [] s')%list
      else split_ws (c :: cur) s'
  end.

Definition split (s : string) : list string := split_ws [] s.

(** [s.title()]: a cased character is upper-cased when the previous
    character is not cased, lower-cased otherwise. *)
Fixpoint title_from (previous_is_cased : bool) (s : string) : string :=
  match s with
  | EmptyString => EmptyString
  | String c s' =>
      if is_alpha c
      then String (if previous_is_cased then lower_char c else upper_char c)
                  (title_from true s')
      else String c (title_from false s')
  end.

Definition title (s : string) : string := title_from false s.

(** [sep.join(parts)] *)
Fixpoint join (sep : string) (parts : list string) : string :=
  match parts with
  | [] => EmptyString
  | [p] => p
  | p :: ps => p ++ sep ++ join sep ps
  end.

(** [s * n] *)
Fixpoint repeat (s : string) (n : nat) : string :=
  match n with
  | O => EmptyString
  | S n' => s ++ repeat s n'
  end.

(** ** Integers *)

(** [sys.int_info.default_max_str_digits] *)
Definition int_max_str_digits : N := 4300.

Definition digit_value (c : ascii) : Z := Z.of_N (code c - 48).

Fixpoint digits_value (acc : Z) (s : string) : Z :=
  match s with
  | EmptyString => acc
  | String c s' => digits_value (10 * acc + digit_value c) s'
  end.

(** [int(s)] on an unsigned decimal literal. *)
Definition int_of_str (s : string) : outcome Z :=
  match s with
  | EmptyString => Raised ValueError
  | _ =>
      if negb (forall_str is_digit s) then Raised ValueError
      else if (int_max_str_digits <? N.of_nat (String.length s))%N
           then Raised ValueError
           else Returned (digits_value 0 s)
  end.

(** [str(n)] *)
Definition str_of_int (n : Z) : string :=
  NilZero.string_of_int (Z.to_int n).

(** [sorted(l, key=key, reverse=True)]: stable, descending by key. *)
Fixpoint insert_desc {A} (key : A -> Z) (x : A) (l : list A) : list A :=
  match l with
  | [] => [x]
  | y :: l' =>
      if key y <=? key x then x :: l else y :: insert_desc key x l'
  end.

Definition sorted_desc {A} (key : A -> Z) (l : list A) : list A :=
  fold_right (insert_desc key) [] l.

End Py.

Notation "x <- m ;; k" := (Py.bind m (fun x => k))
  (at level 61, m at next level, right associativity).

(* ================================================================== *)
(** * Regular expressions: the fragment of Python's [re] the parser uses *)

Module Re.
Import Py.

(** Backtracking matcher with Python's priorities: alternatives left to
    right, repetition greedy. *)
Inductive regex : Type :=
| Eps
| Lit (a : ascii)
| Class (p : ascii -> bool)
| Seq (r1 r2 : regex)
| Alt (r1 r2 : regex)
| Star (r : regex)
| Group (n : nat) (r : regex)
| WordB
| Ahead (r : regex)
| NonAscii.

Definition Plus (r : regex) : regex := Seq r (Star r).
Definition Opt (r : regex) : regex := Alt r Eps.

(** A literal word, character by character. *)
Fixpoint Word (s : string) : regex :=
  match s with
  | EmptyString => Eps
  | String c EmptyString => Lit c
  | String c s' => Seq (Lit c) (Word s')
  end.

(** [w1|w2|...] *)
Fixpoint Words (ws : list string) : regex :=
  match ws with
  | [] => NonAscii
  | [w] => Word w
  | w :: ws' => Alt (Word w) (Words ws')
  end.

(** A position in the subject: offset, the character before it (for
    [\b]) and the text after it. *)
Record cursor : Type := Cursor {
  pos : N;
  prev : option ascii;
  rest : string
}.

Definition at_start (s : string) : cursor := Cursor 0 None s.

Definition advance (c : cursor) : option (ascii * cursor) :=
  match rest c with
  | EmptyString => None
  | String x s' => Some (x, Cursor (pos c + 1) (Some x) s')
  end.

Definition is_word_opt (o : option ascii) : bool :=
  match o with
  | Some x => is_word x
  | None => false
  end.

Definition next_char (c : cursor) : option ascii :=
  match rest c with
  | EmptyString => None
  | String x _ => Some x
  end.

Definition at_boundary (c : cursor) : bool :=
  xorb (is_word_opt (prev c)) (is_word_opt (next_char c)).

(** Group number, start offset, end offset; the latest capture first. *)
Definition captures : Type := list (nat * (N * N)).

(** A successful match: where it starts, where it ends, its groups. *)
Record rmatch : Type := Match {
  m_start : N;
  m_end : cursor;
  m_groups : captures
}.

Section Matcher.
(** [re.IGNORECASE] *)
Variable ignorecase : bool.
(** An upper bound on the number of iterations of any repetition: one
    more than the length of the subject. *)
Variable bound : nat.

Definition same_char (a x : ascii) : bool :=
  if ignorecase then Ascii.eqb (lower_char a) (lower_char x)
  else Ascii.eqb a x.

(** Greedy repetition of [body]: one more iteration, which has to
    consume something, before the continuation is tried. *)
Fixpoint star_loop (A : Type)
    (body : cursor -> captures -> (cursor -> captures -> option A)
            -> option A)
    (k : cursor -> captures -> option A)
    (fuel : nat) (c : cursor) (g : captures) {struct fuel} : option A :=
  match fuel with
  | O => k c g
  | S fuel' =>
      match body c g
              (fun c' g' =>
                 if (pos c <? pos c')%N then star_loop A body k fuel' c' g'
                 else None) with
      | Some a => Some a
      | None => k c g
      end
  end.

Fixpoint run (A : Type) (r : regex) (c : cursor) (g : captures)
    (k : cursor -> captures -> option A) {struct r} : option A :=
  match r with
  | Eps => k c g
  | Lit a =>
      match advance c with
      | Some (x, c') => if same_char a x then k c' g else None
      | None => None
      end
  | Class p =>
      match advance c with
      | Some (x, c') => if p x then k c' g else None
      | None => None
      end
  | Seq r1 r2 => run A r1 c g (fun c' g' => run A r2 c' g' k)
  | Alt r1 r2 =>
      match run A r1 c g k with
      | Some a => Some a
      | None => run A r2 c g k
      end
  | Star r1 => star_loop A (run A r1) k bound c g
  | Group n r1 =>
      run A r1 c g (fun c' g' => k c' ((n, (pos c, pos c')) :: g'))
  | WordB => if at_boundary c then k c g else None
  | Ahead r1 =>
      match run captures r1 c g (fun _ g' => Some g') with
      | Some g' => k c g'
      | None => None
      end
  | NonAscii => None
  end.

Definition match_at (r : regex) (c : cursor) : option rmatch :=
  run rmatch r c [] (fun c' g => Some (Match (pos c) c' g)).

(** The leftmost match at or after the cursor. *)
Fixpoint scan (r : regex) (p : N) (pv : option ascii) (s : string)
    {struct s} : option rmatch :=
  match match_at r (Cursor p pv s) with
  | Some m => Some m
  | None =>
      match s with
      | EmptyString => None
      | String x s' => scan r (p + 1)%N (Some x) s'
      end
  end.

Definition scan_from (r : regex) (c : cursor) : option rmatch :=
  scan r (pos c) (prev c) (rest c).

(** All the non-overlapping matches, left to right.  After an empty
    match the scan resumes one character further. *)
Fixpoint matches_from (fuel : nat) (r : regex) (c : cursor)
    : list rmatch :=
  match fuel with
  | O => []
  | S fuel' =>
      match scan_from r c with
      | None => []
      | Some m =>
          if (m_start m <? pos (m_end m))%N
          then m :: matches_from fuel' r (m_end m)
          else match advance (m_end m) with
               | Some (_, c') => m :: matches_from fuel' r c'
               | None => [m]
               end
      end
  end.
End Matcher.

Definition slice (subject : string) (from to : N) : string :=
  substring (N.to_nat from) (N.to_nat (to - from)) subject.

Definition bound_of (subject : string) : nat := S (String.length subject).

Fixpoint lookup (n : nat) (g : captures) : option (N * N) :=
  match g with
  | [] => None
  | (i, span) :: g' => if Nat.eqb i n then Some span else lookup n g'
  end.

(** [m.group(n)], for a group that took part in the match. *)
Definition group (subject : string) (m : rmatch) (n : nat) : option string :=
  match lookup n (m_groups m) with
  | Some (from, to) => Some (slice subject from to)
  | None => None
  end.

(** [pattern.search(subject)] *)
Definition search (ignorecase : bool) (r : regex) (subject : string)
    : option rmatch :=
  scan_from ignorecase (bound_of subject) r (at_start subject).

Definition finditer (ignorecase : bool) (r : regex) (subject : string)
    : list rmatch :=
  matches_from ignorecase (bound_of subject) (bound_of subject) r
               (at_start subject).

(** [re.findall(pattern, subject)] for a pattern with one group. *)
Definition findall1 (ignorecase : bool) (r : regex) (subject : string)
    : list string :=
  flat_map (fun m => match group subject m 1 with
                     | Some s => [s]
                     | None => [EmptyString]
                     end)
           (finditer ignorecase r subject).

(** The pieces of the subject between consecutive matches. *)
Fixpoint pieces (subject : string) (from : N) (ms : list rmatch)
    : list string :=
  match ms with
  | [] => [slice subject from (N.of_nat (String.length subject))]
  | m :: ms' =>
      slice subject from (m_start m) :: pieces subject (pos (m_end m)) ms'
  end.

(** [re.split(pattern, subject)] for a pattern without groups. *)
Definition split (ignorecase : bool) (r : regex) (subject : string)
    : list string :=
  pieces subject 0 (finditer ignorecase r subject).

End Re.

(* ================================================================== *)
(** * agents/medicine_parser.py *)

Module MedicineParser.
Import Py Re.

(** Common medicine database: standard name, spelling variants.  A Python
    dict iterates in insertion order. *)
Definition COMMON_MEDICINES : list (string * list string) :=
  [ ("paracetamol", ["paracetamol"; "tylenol"; "acetaminophen"; "paracitamol"]);
    ("ibuprofen", ["ibuprofen"; "advil"; "motrin"; "brufen"]);
    ("aspirin", ["aspirin"; "aspirine"; "acetylsalicylic"]);
    ("amoxicillin", ["amoxicillin"; "amoxycillin"; "amoxy"]);
    ("metformin", ["metformin"; "glucophage"]);
    ("omeprazole", ["omeprazole"; "prilosec"]);
    ("lisinopril", ["lisinopril"; "prinivil"; "zestril"]);
    ("atorvastatin", ["atorvastatin"; "lipitor"]);
    ("amlodipine", ["amlodipine"; "norvasc"]);
    ("metoprolol", ["metoprolol"; "lopressor"]);
    ("losartan", ["losartan"; "cozaar"]);
    ("gabapentin", ["gabapentin"; "neurontin"]);
    ("hydrochlorothiazide", ["hydrochlorothiazide"; "hctz"]);
    ("sertraline", ["sertraline"; "zoloft"]);
    ("simvastatin", ["simvastatin"; "zocor"]);
    ("vitamin d", ["vitamin d"; "vit d"; "cholecalciferol"]);
    ("vitamin c", ["vitamin c"; "vit c"; "ascorbic acid"]);
    ("insulin", ["insulin"; "humalog"; "novolog"]);
    ("levothyroxine", ["levothyroxine"; "synthroid"]);
    ("clopidogrel", ["clopidogrel"; "plavix"]) ].

(** ** The compiled patterns of [__init__] and the inline ones *)

Definition digits : regex := Plus (Class is_digit).
Definition spaces : regex := Star (Class is_space).
(** [word s?] *)
Definition plural (w : string) : regex := Seq (Word w) (Opt (Lit "s")).

(** [(\d+(?:\.\d+)?)\s*(mg|g|ml|mcg|iu|units?)], IGNORECASE *)
Definition dosage_pattern : regex :=
  Seq (Group 1 (Seq digits (Opt (Seq (Lit ".") digits))))
      (Seq spaces
           (Group 2 (Alt (Words ["mg"; "g"; "ml"; "mcg"; "iu"])
                         (plural "unit")))).

(** [(\d+)\s*(tablet|capsule|pill|strip|bottle|pack|box|count|pieces?|tabs?|caps?)],
    IGNORECASE *)
Definition quantity_pattern : regex :=
  Seq (Group 1 digits)
      (Seq spaces
           (Group 2
              (Alt (Words ["tablet"; "capsule"; "pill"; "strip"; "bottle";
                           "pack"; "box"; "count"])
                   (Alt (plural "piece") (Alt (plural "tab") (plural "cap")))))).

(** [\b(\d+)\s*(?:of|x|<mis-encoded multiplication sign>)?\s*(?=tablet|capsule|pill|tab|cap)],
    IGNORECASE.  The third alternative of the optional group is a pair
    of code points outside ASCII. *)
Definition simple_quantity : regex :=
  Seq WordB
      (Seq (Group 1 digits)
           (Seq spaces
                (Seq (Opt (Alt (Word "of") (Alt (Lit "x") NonAscii)))
                     (Seq spaces
                          (Ahead (Words ["tablet"; "capsule"; "pill";
                                         "tab"; "cap"])))))).

(** [\band\b|\balso\b|,\s*(?=\w)] *)
Definition separator_pattern : regex :=
  Alt (Seq WordB (Seq (Word "and") WordB))
      (Alt (Seq WordB (Seq (Word "also") WordB))
           (Seq (Lit ",") (Seq spaces (Ahead (Class is_word))))).

(** [\b(\d+)\b] *)
Definition standalone_number : regex :=
  Seq WordB (Seq (Group 1 digits) WordB).

(** ** Results *)

Record MedicineRequest : Type := {
  name : string;
  dosage : option string;
  quantity : Z;
  form : string;
  confidence : float
}.

Record ParseResult : Type := {
  medicines : list MedicineRequest;
  requires_clarification : bool;
  next_action : string;
  overall_confidence : float;
  response : string
}.

(** ** Extraction *)

Definition any_in (keywords : list string) (text : string) : bool :=
  existsb (fun keyword => contains keyword text) keywords.

(** The first entry of a table one of whose keywords occurs in the text. *)
Fixpoint first_entry (table : list (string * list string)) (text : string)
    : option string :=
  match table with
  | [] => None
  | (key, keywords) :: table' =>
      if any_in keywords text then Some key else first_entry table' text
  end.

(** The loop over [enumerate(words)] of [_extract_medicine_name]. *)
Fixpoint candidate_word (words : list string) : outcome (option string) :=
  match words with
  | [] => Returned None
  | word :: words' =>
      match word with
      | EmptyString => Raised IndexError
      | String first _ =>
          let before_dosage :=
            match words' with
            | [] => false
            | next :: _ => any_in ["mg"; "g"; "ml"] (lower next)
            end in
          if is_upper first || before_dosage
          then
            let clean_word :=
              filter_str (fun c => is_word c || is_space c) word in
            if (2 <? String.length clean_word)%nat
            then Returned (Some (lower clean_word))
            else candidate_word words'
          else candidate_word words'
      end
  end.

Definition _extract_medicine_name (text : string) : outcome (option string) :=
  let text_lower := lower text in
  match first_entry COMMON_MEDICINES text_lower with
  | Some standard_name => Returned (Some standard_name)
  | None => candidate_word (Py.split text)
  end.

Definition _extract_dosage (text : string) : outcome (option string) :=
  match search true dosage_pattern text with
  | Some m =>
      match group text m 1, group text m 2 with
      | Some amount, Some unit => Returned (Some (amount ++ lower unit))
      | _, _ => Raised TypeError
      end
  | None => Returned None
  end.

(** [int(match.group(1))] *)
Definition int_group1 (text : string) (m : rmatch) : outcome Z :=
  match group text m 1 with
  | Some s => int_of_str s
  | None => Raised TypeError
  end.

(** The loop over the numbers sorted by decreasing value. *)
Fixpoint first_reasonable (numbers : list string) : outcome (option Z) :=
  match numbers with
  | [] => Returned None
  | num_str :: numbers' =>
      num <- int_of_str num_str;;
      if (1 <=? num) && (num <=? 1000) then Returned (Some num)
      else first_reasonable numbers'
  end.

Definition _extract_quantity (text : string) : outcome Z :=
  match search true quantity_pattern text with
  | Some m => int_group1 text m
  | None =>
      match search true simple_quantity text with
      | Some m => int_group1 text m
      | None =>
          let numbers := findall1 false standalone_number text in
          keyed <- mapM (fun x => k <- int_of_str x;; Returned (k, x)) numbers;;
          found <- first_reasonable (map snd (sorted_desc fst keyed));;
          match found with
          | Some num => Returned num
          | None => Returned 30
          end
      end
  end.

Definition forms : list (string * list string) :=
  [ ("tablet", ["tablet"; "tab"; "pill"]);
    ("capsule", ["capsule"; "cap"]);
    ("syrup", ["syrup"; "liquid"; "solution"]);
    ("injection", ["injection"; "inject"; "vial"]);
    ("cream", ["cream"; "ointment"; "gel"]);
    ("drops", ["drops"; "eye drops"; "ear drops"]);
    ("inhaler", ["inhaler"; "puff"]);
    ("patch", ["patch"; "transdermal"]) ].

Definition _extract_form (text : string) : string :=
  match first_entry forms (lower text) with
  | Some form_name => form_name
  | None => "tablet"
  end.

(** Truth value of an optional string: [None] and [''] are false. *)
Definition truthy (o : option string) : bool :=
  match o with
  | Some (String _ _) => true
  | _ => false
  end.

Definition is_known (o : option string) : bool :=
  match o with
  | Some n => existsb (fun entry => String.eqb (fst entry) n) COMMON_MEDICINES
  | None => false
  end.

Local Open Scope float_scope.

(** [min(score, 1.0)] *)
Definition min_1 (score : float) : float :=
  if 1.0 <? score then 1.0 else score.

Definition _calculate_confidence (medicine_name dosage : option string)
    (quantity : Z) : float :=
  let score := 0.0 in
  let score :=
    if truthy medicine_name
    then let score := score + 0.4 in
         if is_known medicine_name then score + 0.2 else score
    else score in
  let score := if truthy dosage then score + 0.2 else score in
  let score :=
    if negb (quantity =? 0)%Z && negb (quantity =? 30)%Z
    then score + 0.2 else score in
  min_1 score.

Local Close Scope float_scope.

(** ** Response text *)

Definition newline : string := String (ascii_of_nat 10) EmptyString.

Definition dosage_part (med : MedicineRequest) : list string :=
  match dosage med with
  | Some (String c d) => [String c d]
  | _ => []
  end.

(** The numbered lines of the multi-medicine reply, from index [i]. *)
Fixpoint numbered_lines (i : Z) (meds : list MedicineRequest) : string :=
  match meds with
  | [] => EmptyString
  | med :: meds' =>
      let first := str_of_int i ++ ". " ++ name med in
      let last := "- " ++ str_of_int (quantity med) ++ " " ++ form med ++ "s" in
      let parts := first :: List.app (dosage_part med) [last] in
      join " " parts ++ newline ++ numbered_lines (i + 1) meds'
  end.

Definition _generate_response (meds : list MedicineRequest)
    (requires_clarification : bool) : string :=
  if requires_clarification
  then "I'd be happy to help you order medicines. Could you please tell me which medicine you need? For example, 'I need Paracetamol 500mg, 30 tablets'."
  else
    match meds with
    | [med] =>
        let first := "I'll add " ++ name med in
        let last := str_of_int (quantity med) ++ " " ++ form med ++ "s" in
        let parts := first :: List.app (dosage_part med) [last] in
        let response := join " " parts ++ " to your cart. " in
        if (confidence med <? 0.7)%float
        then response ++ "Is this correct, or would you like to modify it?"
        else response ++
             "Would you like to add anything else or proceed to checkout?"
    | _ =>
        "I'll add these medicines to your cart:" ++ newline ++
        numbered_lines 1 meds ++ newline ++
        "Would you like to add anything else or proceed to checkout?"
    end.

(** ** [parse_message] *)

Definition greetings : list string :=
  ["hello"; "hi"; "hey"; "good morning"; "good afternoon"; "good evening"].

(** The guard of the greeting short-circuit: some greeting occurs in the
    lowered message and no variant of any medicine does. *)
Definition is_greeting (message_lower : string) : bool :=
  any_in greetings message_lower &&
  negb (existsb (fun entry => any_in (snd entry) message_lower)
                COMMON_MEDICINES).

(** The body of the loop over the segments, with the list it appends to
    returned in order. *)
Fixpoint parse_segments (segments : list string)
    : outcome (list MedicineRequest) :=
  match segments with
  | [] => Returned []
  | segment :: segments' =>
      let segment := strip segment in
      if (String.length segment <? 3)%nat then parse_segments segments'
      else
        medicine_name <- _extract_medicine_name segment;;
        match medicine_name with
        | Some (String c n) =>
            let medicine_name := String c n in
            dosage <- _extract_dosage segment;;
            quantity <- _extract_quantity segment;;
            let form := _extract_form segment in
            let confidence :=
              _calculate_confidence (Some medicine_name) dosage quantity in
            meds <- parse_segments segments';;
            Returned ({| name := title medicine_name;
                         dosage := dosage;
                         quantity := quantity;
                         form := form;
                         confidence := confidence |} :: meds)
        | _ => parse_segments segments'
        end
  end.

(** [sum(m['confidence'] for m in medicines) / len(medicines)] *)
Definition mean_confidence (meds : list MedicineRequest) : float :=
  (fold_left (fun acc m => acc + confidence m) meds 0
   / of_uint63 (Uint63.of_Z (Z.of_nat (List.length meds))))%float.

Definition parse_message (message : string) : outcome ParseResult :=
  let message_lower := lower message in
  if is_greeting message_lower
  then Returned
         {| medicines := [];
            requires_clarification := false;
            next_action := "greet";
            overall_confidence := 1.0%float;
            response := "Hello! I'm here to help you order medicines. You can tell me what medicine you need, like 'I need Paracetamol 500mg, 30 tablets' or 'I want Aspirin'." |}
  else
    let segments := Re.split false separator_pattern message in
    medicines <- parse_segments segments;;
    let requires_clarification :=
      match medicines with [] => true | _ => false end in
    let next_action :=
      match medicines with [] => "ask_details" | _ => "confirm" end in
    let overall_confidence :=
      match medicines with
      | [] => 0.0%float
      | _ => mean_confidence medicines
      end in
    let response := _generate_response medicines requires_clarification in
    Returned
      {| medicines := medicines;
         requires_clarification := requires_clarification;
         next_action := next_action;
         overall_confidence := overall_confidence;
         response := response |}.

End MedicineParser.

(* ================================================================== *)
(** * pandas float64 values *)

Module F.
Local Open Scope Q_scope.

(** A float64 cell: a finite value, an infinity, or NaN.  Finite values
    are exact rationals; signed zeros are not distinguished. *)
Inductive fval : Type :=
| Fin (q : Q)
| PInf
| NInf
| NaN.

Definition of_Z (n : Z) : fval := Fin (inject_Z n).

Definition is_nan (x : fval) : bool :=
  match x with NaN => true | _ => false end.

(** Sign of a value that is not NaN: [Lt], [Eq] or [Gt] against zero. *)
Definition sign (x : fval) : comparison :=
  match x with
  | Fin q => 0 ?= q
  | PInf => Lt
  | NInf => Gt
  | NaN => Eq
  end.

Definition fopp (x : fval) : fval :=
  match x with
  | Fin q => Fin (- q)
  | PInf => NInf
  | NInf => PInf
  | NaN => NaN
  end.

Definition fadd (x y : fval) : fval :=
  match x, y with
  | NaN, _ | _, NaN => NaN
  | PInf, NInf | NInf, PInf => NaN
  | PInf, _ | _, PInf => PInf
  | NInf, _ | _, NInf => NInf
  | Fin a, Fin b => Fin (a + b)
  end.

Definition fsub (x y : fval) : fval := fadd x (fopp y).

Definition fmul (x y : fval) : fval :=
  match x, y with
  | NaN, _ | _, NaN => NaN
  | Fin a, Fin b => Fin (a * b)
  | _, _ =>
      match sign x, sign y with
      | Eq, _ | _, Eq => NaN
      | Lt, Lt | Gt, Gt => PInf
      | _, _ => NInf
      end
  end.

(** Division as numpy performs it on float64 arrays: a finite non-zero
    value over zero is an infinity, zero over zero is NaN; nothing is
    raised. *)
Definition fdiv (x y : fval) : fval :=
  match x, y with
  | NaN, _ | _, NaN => NaN
  | Fin a, Fin b =>
      if Qeq_bool b 0
      then match 0 ?= a with
           | Lt => PInf
           | Gt => NInf
           | Eq => NaN
           end
      else Fin (a / b)
  | Fin _, _ => Fin 0
  | _, Fin b =>
      match sign x, 0 ?= b with
      | Lt, Gt | Gt, Lt | Gt, Eq => NInf
      | _, _ => PInf
      end
  | _, _ => NaN
  end.

(** [x < y]; any comparison with NaN is false. *)
Definition flt (x y : fval) : bool :=
  match x, y with
  | NaN, _ | _, NaN => false
  | Fin a, Fin b => negb (Qle_bool b a)
  | NInf, NInf | PInf, _ => false
  | NInf, _ | _, PInf => true
  | Fin _, NInf => false
  end.

Definition fgt (x y : fval) : bool := flt y x.

(** [x <= y] *)
Definition fle (x y : fval) : bool :=
  match x, y with
  | NaN, _ | _, NaN => false
  | Fin a, Fin b => Qle_bool a b
  | NInf, _ | _, PInf => true
  | _, _ => false
  end.

Definition fge (x y : fval) : bool := fle y x.

(** [x == y] *)
Definition feqb (x y : fval) : bool :=
  match x, y with
  | Fin a, Fin b => Qeq_bool a b
  | PInf, PInf | NInf, NInf => true
  | _, _ => false
  end.

(** The builtins [min(a, b)] and [max(a, b)]: the first argument unless
    the second compares strictly below (above) it. *)
Definition py_min (a b : fval) : fval := if flt b a then b else a.
Definition py_max (a b : fval) : fval := if fgt b a then b else a.

(** Round half to even. *)
Definition round_half_even (q : Q) : Z :=
  let f := Qfloor q in
  match ((q - inject_Z f) ?= (1 # 2))%Q with
  | Lt => f
  | Gt => (f + 1)%Z
  | Eq => if Z.even f then f else (f + 1)%Z
  end.

(** [round(x, 2)] *)
Definition round2 (x : fval) : fval :=
  match x with
  | Fin q => Fin (inject_Z (round_half_even (q * 100)) / 100)
  | _ => x
  end.

(** Truncation toward zero. *)
Definition truncate (q : Q) : Z := Z.quot (Qnum q) (Zpos (Qden q)).

(** [int(x)] *)
Definition to_int (x : fval) : Py.outcome Z :=
  match x with
  | Fin q => Py.Returned (truncate q)
  | NaN => Py.Raised Py.ValueError
  | _ => Py.Raised Py.OverflowError
  end.

(** Square root of a non-negative rational, to fifteen decimal places
    (exact on the squares of such decimals). *)
Definition Qsqrt (q : Q) : Q :=
  let scale := (10 ^ 15)%Z in
  inject_Z (Z.sqrt (Qfloor (q * inject_Z (scale * scale)))) / inject_Z scale.

Definition fsqrt (x : fval) : fval :=
  match x with
  | Fin q => if Qle_bool 0 q then Fin (Qsqrt q) else NaN
  | PInf => PInf
  | _ => NaN
  end.

(** ** Columns *)

Definition fsum (col : list fval) : fval := fold_left fadd col (Fin 0).

Definition count (col : list fval) : fval := of_Z (Z.of_nat (List.length col)).

(** [Series.mean()] of a column without NaN. *)
Definition mean (col : list fval) : fval := fdiv (fsum col) (count col).

(** [Series.std()]: the sample standard deviation (ddof = 1), NaN for
    fewer than two values. *)
Definition std (col : list fval) : fval :=
  let avg := mean col in
  let sqr := fsum (map (fun x => fmul (fsub avg x) (fsub avg x)) col) in
  let d := fsub (count col) (Fin 1) in
  if fle d (Fin 0) then NaN else fsqrt (fdiv sqr d).

(** [Series.dropna()] *)
Definition dropna (col : list fval) : list fval :=
  filter (fun x => negb (is_nan x)) col.

(** [Series.shift(1)] *)
Definition shift1 (col : list fval) : list fval :=
  match col with
  | [] => []
  | _ => NaN :: removelast col
  end.

Fixpoint diff_from (previous : Z) (dates : list Z) : list fval :=
  match dates with
  | [] => []
  | d :: dates' => of_Z (d - previous)%Z :: diff_from d dates'
  end.

(** [Series.diff().dt.days] on a column of dates. *)
Definition diff_days (dates : list Z) : list fval :=
  match dates with
  | [] => []
  | d :: dates' => NaN :: diff_from d dates'
  end.

(** Element-wise division of two columns of one frame. *)
Fixpoint div_cols (xs ys : list fval) : list fval :=
  match xs, ys with
  | x :: xs', y :: ys' => fdiv x y :: div_cols xs' ys'
  | _, _ => []
  end.

End F.

(* ================================================================== *)
(** * The [datetime] module: dates as proleptic Gregorian ordinals *)

Module Datetime.
Import Py F.

(** [date.min.toordinal()] and [date.max.toordinal()] *)
Definition min_ordinal : Z := 1.
Definition max_ordinal : Z := 3652059.

(** The largest magnitude of [timedelta.days]. *)
Definition max_delta_days : Z := 999999999.

Definition us_per_day : Z := 86400000000.

(** The [days] attribute of [timedelta(days=x)] for a finite [x]: the
    duration is rounded half-even to a whole number of microseconds and
    normalised, the days being the floor. *)
Definition whole_days (x : Q) : Z :=
  round_half_even (x * inject_Z us_per_day) / us_per_day.

(** [timedelta(days=x).days] *)
Definition timedelta_days (x : fval) : outcome Z :=
  match x with
  | NaN => Raised ValueError
  | PInf | NInf => Raised OverflowError
  | Fin q =>
      let d := whole_days q in
      if Z.abs d <=? max_delta_days then Returned d
      else Raised OverflowError
  end.

(** [d + timedelta(days=n)] on dates *)
Definition date_add (d n : Z) : outcome Z :=
  let r := d + n in
  if (min_ordinal <=? r) && (r <=? max_ordinal) then Returned r
  else Raised OverflowError.

End Datetime.

(* ================================================================== *)
(** * agents/forecast_agent.py *)

Module Forecast.
Import Py F Datetime.

(** The two fields of [core.config.settings] the agent reads. *)
Record Settings : Type := {
  PREDICTION_MIN_ORDERS : Z;
  PREDICTION_CONFIDENCE_THRESHOLD : fval
}.

Definition default_settings : Settings :=
  {| PREDICTION_MIN_ORDERS := 3;
     PREDICTION_CONFIDENCE_THRESHOLD := Fin (7 # 10) |}.

(** [models.prediction.PredictionConfidence] *)
Inductive PredictionConfidence : Type := LOW | MEDIUM | HIGH.

(** One entry of the order history: the keys ['order_date'],
    ['quantity'] and the optional ['medicine_name']. *)
Record Order : Type := {
  order_date : Z;
  quantity : Z;
  order_medicine_name : option string
}.

(** A cell of the ['medicine_name'] column: a string, or NaN where the
    entry has no name while another entry has one. *)
Inductive name_cell : Type :=
| Name (s : string)
| NameNaN.

Record Prediction : Type := {
  user_id : string;
  medicine_id : string;
  medicine_name : name_cell;
  average_consumption_rate : fval;
  last_order_date : Z;
  last_order_quantity : Z;
  predicted_depletion_date : Z;
  suggested_reorder_date : Z;
  suggested_quantity : Z;
  confidence : PredictionConfidence;
  confidence_score : fval;
  historical_data : list Order
}.

(** ** The data frame *)

Fixpoint insert_by_date (x : Order) (df : list Order) : list Order :=
  match df with
  | [] => [x]
  | y :: df' =>
      if order_date x <=? order_date y then x :: df
      else y :: insert_by_date x df'
  end.

(** [df.sort_values('order_date')], as a stable sort.  (With pandas'
    default sort the relative order of entries of one date is decided
    by the input order in some other way.) *)
Definition sort_values (df : list Order) : list Order :=
  fold_right insert_by_date [] df.

Definition dates (df : list Order) : list Z := map order_date df.
Definition quantities (df : list Order) : list fval :=
  map (fun o => of_Z (quantity o)) df.

(** [df.iloc[-1]] *)
Definition iloc_last (df : list Order) : outcome Order :=
  match rev df with
  | o :: _ => Returned o
  | [] => Raised IndexError
  end.

(** [df.tail(n)], for [n] at most the length this is the last [n] rows. *)
Definition tail (n : nat) (df : list Order) : list Order :=
  skipn (List.length df - n) df.

(** [last_order.get('medicine_name', '')] *)
Definition get_medicine_name (df : list Order) (last_order : Order)
    : name_cell :=
  match order_medicine_name last_order with
  | Some s => Name s
  | None =>
      if existsb (fun o => match order_medicine_name o with
                           | Some _ => true
                           | None => false
                           end) df
      then NameNaN else Name ""
  end.

(** ** The agent *)

Definition _calculate_consumption_rate (df : list Order) : fval :=
  if (List.length df <? 2)%nat then Fin 0
  else
    let days_since_last := diff_days (dates df) in
    let daily_consumption :=
      div_cols (shift1 (quantities df)) days_since_last in
    let valid_rates := dropna daily_consumption in
    let valid_rates := filter (fun r => fgt r (Fin 0)) valid_rates in
    match valid_rates with
    | [] => Fin 0
    | _ => mean valid_rates
    end.

Definition _calculate_confidence (df : list Order) : fval :=
  if (List.length df <? 2)%nat then Fin (1 # 2)
  else
    let days_since_last := diff_days (dates df) in
    let intervals := dropna days_since_last in
    match intervals with
    | [] => Fin (1 # 2)
    | _ =>
        let mean_interval := mean intervals in
        let std_interval := std intervals in
        if fgt mean_interval (Fin 0)
        then
          let cv := fdiv std_interval mean_interval in
          py_max (Fin 0) (py_min (Fin 1) (fsub (Fin 1) cv))
        else Fin (1 # 2)
    end.

Section Agent.
Variable settings : Settings.
(** [date.today()] *)
Variable today : Z.

Definition _get_confidence_level (score : fval) : PredictionConfidence :=
  if fge score (PREDICTION_CONFIDENCE_THRESHOLD settings) then HIGH
  else if fge score (Fin (1 # 2)) then MEDIUM
  else LOW.

(** The body of the [try] block of [predict_depletion]. *)
Definition predict_depletion_body (user_id medicine_id : string)
    (order_history : list Order) : outcome (option Prediction) :=
  if Z.of_nat (List.length order_history) <? PREDICTION_MIN_ORDERS settings
  then Returned None
  else
    match order_history with
    | [] => Raised KeyError
    | _ =>
        let df := sort_values order_history in
        let consumption_rate := _calculate_consumption_rate df in
        if fle consumption_rate (Fin 0) then Returned None
        else
          last_order <- iloc_last df;;
          let last_order_date := order_date last_order in
          let last_quantity := quantity last_order in
          let days_to_deplete :=
            fdiv (of_Z last_quantity) consumption_rate in
          delta <- timedelta_days days_to_deplete;;
          predicted_depletion_date <- date_add last_order_date delta;;
          suggested_reorder_date <- date_add predicted_depletion_date (-7);;
          let confidence_score := _calculate_confidence df in
          let confidence_level := _get_confidence_level confidence_score in
          let recent_orders := quantities (tail 3 df) in
          suggested_quantity <- to_int (mean recent_orders);;
          Returned (Some
            {| user_id := user_id;
               medicine_id := medicine_id;
               medicine_name := get_medicine_name df last_order;
               average_consumption_rate := round2 consumption_rate;
               last_order_date := last_order_date;
               last_order_quantity := last_quantity;
               predicted_depletion_date := predicted_depletion_date;
               suggested_reorder_date :=
                 Z.max suggested_reorder_date today;
               suggested_quantity := suggested_quantity;
               confidence := confidence_level;
               confidence_score := round2 confidence_score;
               historical_data := order_history |})
    end.

Definition predict_depletion (user_id medicine_id : string)
    (order_history : list Order) : outcome (option Prediction) :=
  try_except (predict_depletion_body user_id medicine_id order_history)
             None.

(** The value under ['predicted_depletion_date'] in the dictionary
    given to [should_notify_user]. *)
Inductive date_value : Type :=
| DateValue (d : Z)
| StrValue (s : string)
| OtherValue.

(** The two keys [should_notify_user] reads; [None] is an absent key. *)
Record PredictionDict : Type := {
  dict_predicted_depletion_date : option date_value;
  dict_confidence : option PredictionConfidence
}.

(** [datetime.fromisoformat(s).date()], raising on a malformed text. *)
Variable fromisoformat_date : string -> outcome Z.

Definition is_high (c : option PredictionConfidence) : bool :=
  match c with
  | Some HIGH => true
  | _ => false
  end.

Definition should_notify_user_body (prediction : PredictionDict)
    : outcome bool :=
  match dict_predicted_depletion_date prediction with
  | None => Raised KeyError
  | Some v =>
      predicted_date <-
        match v with
        | StrValue s => fromisoformat_date s
        | DateValue d => Returned d
        | OtherValue => Raised TypeError
        end;;
      let days_until_depletion := predicted_date - today in
      Returned ((days_until_depletion <=? 7) &&
                (0 <=? days_until_depletion) &&
                is_high (dict_confidence prediction))
  end.

Definition should_notify_user (prediction : PredictionDict)
    : outcome bool :=
  try_except (should_notify_user_body prediction) false.
End Agent.

End Forecast.

(* ================================================================== *)
(** * agents/forecast_agent.py: the batch entry point *)

Module ForecastBatch.
Import Py F Datetime Forecast.

Section Batch.
Variable settings : Settings.
Variable today : Z.

(** [generate_predictions_for_user]: the dictionary from medicine id to
    order history is read in insertion order; a medicine whose
    prediction is [None] is left out. *)
Fixpoint generate_predictions_for_user (user_id : string)
    (all_order_history : list (string * list Order))
    : outcome (list Prediction) :=
  match all_order_history with
  | [] => Returned []
  | (medicine_id, order_history) :: rest =>
      prediction <-
        predict_depletion settings today user_id medicine_id order_history;;
      predictions <- generate_predictions_for_user user_id rest;;
      Returned (match prediction with
                | Some p => p :: predictions
                | None => predictions
                end)
  end.
End Batch.

End ForecastBatch.

(* ================================================================== *)
(** * api/routes/predictions.py: grouping the delivered orders *)

Module PredictionsRoute.
Import Py F Datetime Forecast ForecastBatch.

(** An item of an order document: ['medicine_id'], ['medicine_name'],
    ['quantity']. *)
Record OrderItem : Type := {
  item_medicine_id : string;
  item_medicine_name : string;
  item_quantity : Z
}.

(** An order document: ['created_at'], taken as the calendar day of the
    order (the forecaster is modelled on dates, without a time of day),
    and the optional ['items']. *)
Record OrderDoc : Type := {
  created_at : Z;
  items : option (list OrderItem)
}.

(** [d[key].append(v)] on a [defaultdict(list)] that keeps its keys in
    insertion order. *)
Fixpoint append_to (key : string) (v : Order)
    (d : list (string * list Order)) : list (string * list Order) :=
  match d with
  | [] => [(key, [v])]
  | (k, l) :: d' =>
      if String.eqb k key then (k, (l ++ [v])%list) :: d'
      else (k, l) :: append_to key v d'
  end.

Definition history_entry (order : OrderDoc) (item : OrderItem) : Order :=
  {| order_date := created_at order;
     quantity := item_quantity item;
     order_medicine_name := Some (item_medicine_name item) |}.

(** [order.get('items', [])] *)
Definition get_items (order : OrderDoc) : list OrderItem :=
  match items order with
  | Some l => l
  | None => []
  end.

(** The two nested loops that fill [medicine_orders]. *)
Definition group_by_medicine (orders : list OrderDoc)
    : list (string * list Order) :=
  fold_left
    (fun d order =>
       fold_left
         (fun d item =>
            append_to (item_medicine_id item) (history_entry order item) d)
         (get_items order) d)
    orders [].

(** The predictions the route generates from the delivered orders it
    read. *)
Definition generate_predictions (settings : Settings) (today : Z)
    (user_id : string) (orders : list OrderDoc) : outcome (list Prediction) :=
  generate_predictions_for_user settings today user_id
    (group_by_medicine orders).

End PredictionsRoute.

(* ================================================================== *)
(** * agents/ordering_agent.py: [process_message] *)

Module OrderingAgent.
Import Py.

(** The dictionary [process_message] returns. *)
Record AgentResponse : Type := {
  message : string;
  parsed_medicines : list MedicineParser.MedicineRequest;
  requires_clarification : bool;
  next_action : string;
  confidence : float
}.

(** The result of the [except] branch. *)
Definition retry_response : AgentResponse :=
  {| message := "I apologize, but I'm having trouble processing your request. Could you please try again?";
     parsed_medicines := [];
     requires_clarification := true;
     next_action := "retry";
     confidence := 0.0%float |}.

Section Agent.
(** The conversation history and the user context are passed in and not
    read. *)
Variable Dict : Type.

Definition process_message_body (message : string)
    (conversation_history : list Dict) (user_context : Dict)
    (language : string) : outcome AgentResponse :=
  parsed_data <- MedicineParser.parse_message message;;
  Returned
    {| message := MedicineParser.response parsed_data;
       parsed_medicines := MedicineParser.medicines parsed_data;
       requires_clarification :=
         MedicineParser.requires_clarification parsed_data;
       next_action := MedicineParser.next_action parsed_data;
       confidence := MedicineParser.overall_confidence parsed_data |}.

Definition process_message (message : string)
    (conversation_history : list Dict) (user_context : Dict)
    (language : string) : outcome AgentResponse :=
  try_except
    (process_message_body message conversation_history user_context language)
    retry_response.
End Agent.

End OrderingAgent.

(* ================================================================== *)
(** * agents/procurement_agent.py: [check_inventory_need] *)

Module ProcurementAgent.
Import Py.

Inductive urgency_level : Type := high | medium | low.

Inductive InventoryNeed : Type :=
| Needed (medicine_id : string) (current_stock pending_orders
          effective_stock suggested_quantity : Z)
         (urgency : urgency_level) (reason : string)
| NotNeeded (medicine_id : string) (current_stock effective_stock : Z)
| Failed.

(** [max(a, b)] on integers *)
Definition py_max_int (a b : Z) : Z := if a <? b then b else a.

(** An integer field of an f-string: CPython refuses to convert an
    integer of more than [sys.int_info.default_max_str_digits] decimal
    digits. *)
Definition format_int (n : Z) : outcome string :=
  if 10 ^ Z.of_N int_max_str_digits <=? Z.abs n then Raised ValueError
  else Returned (str_of_int n).

(** The integer a binary64 float holds for [n]: 53 significant bits,
    ties to even. *)
Definition round_to_53_bits (n : Z) : Z :=
  let a := Z.abs n in
  let e := Z.log2 a - 52 in
  if e <=? 0 then n
  else
    let m := a / 2 ^ e in
    let r := a mod 2 ^ e in
    let half := 2 ^ (e - 1) in
    let m' :=
      if r <? half then m
      else if half <? r then m + 1
      else if Z.even m then m else m + 1 in
    Z.sgn n * (m' * 2 ^ e).

(** [n / 2] on an integer: the float nearest to the quotient, and
    OverflowError beyond the largest float. *)
Definition true_div_2 (n : Z) : outcome Q :=
  let r := round_to_53_bits n in
  if 2 ^ 1025 <=? Z.abs r then Raised OverflowError
  else Returned (inject_Z r / 2)%Q.

Definition check_inventory_need_body (medicine_id : string)
    (current_stock reorder_threshold pending_orders : Z)
    : outcome InventoryNeed :=
  let effective_stock := current_stock - pending_orders in
  let needs_procurement := effective_stock <=? reorder_threshold in
  if needs_procurement
  then
    let suggested_quantity :=
      py_max_int (reorder_threshold * 3 - effective_stock)
                 reorder_threshold in
    urgency <-
      (if effective_stock <? 0 then Returned high
       else
         half <- true_div_2 reorder_threshold;;
         Returned (if Qle_bool half (inject_Z effective_stock)
                   then low else medium));;
    (* the text of the log line *)
    _ <- format_int suggested_quantity;;
    stock_text <- format_int effective_stock;;
    threshold_text <- format_int reorder_threshold;;
    Returned (Needed medicine_id current_stock pending_orders
                effective_stock suggested_quantity urgency
                ("Stock level (" ++ stock_text
                 ++ ") below threshold (" ++ threshold_text ++ ")"))
  else Returned (NotNeeded medicine_id current_stock effective_stock).

Definition check_inventory_need (medicine_id : string)
    (current_stock reorder_threshold pending_orders : Z)
    : outcome InventoryNeed :=
  try_except
    (check_inventory_need_body medicine_id current_stock reorder_threshold
       pending_orders)
    Failed.

End ProcurementAgent.

(* ================================================================== *)
(** * agents/safety_agent.py: [validate_dosage] *)

Module SafetyAgent.
Import Py.

(** [x in l] on a list of strings *)
Definition mem (x : string) (l : list string) : bool :=
  existsb (String.eqb x) l.

(** The loop of [_find_closest_dosage]. *)
Fixpoint first_match (requested_lower : string) (available : list string)
    : option string :=
  match available with
  | [] => None
  | dosage :: available' =>
      if contains (lower dosage) requested_lower
         || contains requested_lower (lower dosage)
      then Some dosage
      else first_match requested_lower available'
  end.

Definition _find_closest_dosage (requested : string)
    (available : list string) : string :=
  match available with
  | [] => requested
  | first :: _ =>
      match first_match (lower requested) available with
      | Some dosage => dosage
      | None => first
      end
  end.

Inductive DosageValidation : Type :=
| ValidDosage (medicine_name requested_dosage : string)
| InvalidDosage (medicine_name requested_dosage message
                 suggested_dosage : string)
                (available_dosages : list string)
| Unable.

Definition validate_dosage (medicine_name requested_dosage : string)
    (standard_dosages : list string) : outcome DosageValidation :=
  try_except
    (let is_valid := mem requested_dosage standard_dosages in
     if is_valid
     then Returned (ValidDosage medicine_name requested_dosage)
     else
       let closest_match :=
         _find_closest_dosage requested_dosage standard_dosages in
       Returned (InvalidDosage medicine_name requested_dosage
                   ("Dosage not available. Did you mean " ++ closest_match
                    ++ "?")
                   closest_match standard_dosages))
    Unable.

End SafetyAgent.

(* ================================================================== *)
(** * Vocabulary of the statements *)

Module ReSpec.
Import Py Re.

(** The characters left after a cursor, and a cursor of a subject of
    [n] characters. *)
Definition remaining (c : cursor) : nat := String.length (rest c).

Definition wf (n : N) (c : cursor) : Prop :=
  (pos c + N.of_nat (remaining c))%N = n.

(** Two continuations that agree from a cursor onwards. *)
Definition agree_from {A} (n : N) (c : cursor)
    (k1 k2 : cursor -> captures -> option A) : Prop :=
  forall c' g', wf n c' -> (remaining c' <= remaining c)%nat ->
                k1 c' g' = k2 c' g'.

(** What a continuation is called on. *)
Definition holds_after {A} (n : N) (P : A -> Prop) (c : cursor)
    (k : cursor -> captures -> option A) : Prop :=
  forall c' g' a, wf n c' -> (remaining c' <= remaining c)%nat ->
                  k c' g' = Some a -> P a.

End ReSpec.

Module ParserSpec.
Import Py MedicineParser.

(** What holds of every request: a quantity that is not negative and a
    confidence within the unit interval. *)
Definition request_ok (m : MedicineRequest) : Prop :=
  0 <= quantity m /\
  (0 <=? confidence m)%float = true /\
  (confidence m <=? 1)%float = true.

End ParserSpec.

Module ForecastSpec.
Import Py F Datetime Forecast.

(** ** Orderings and comparisons of results *)

Definition date_le (a b : Order) : Prop := order_date a <= order_date b.

(** Consecutive dates differ. *)
Fixpoint no_repeat_from (previous : Z) (ds : list Z) : Prop :=
  match ds with
  | [] => True
  | d :: ds' => d <> previous /\ no_repeat_from d ds'
  end.

Definition no_same_day_repeat (ds : list Z) : Prop :=
  match ds with
  | [] => True
  | d :: ds' => no_repeat_from d ds'
  end.

(** A prediction without the echo of the caller's list. *)
Definition forget_history (p : Prediction) : Prediction :=
  {| user_id := user_id p;
     medicine_id := medicine_id p;
     medicine_name := medicine_name p;
     average_consumption_rate := average_consumption_rate p;
     last_order_date := last_order_date p;
     last_order_quantity := last_order_quantity p;
     predicted_depletion_date := predicted_depletion_date p;
     suggested_reorder_date := suggested_reorder_date p;
     suggested_quantity := suggested_quantity p;
     confidence := confidence p;
     confidence_score := confidence_score p;
     historical_data := [] |}.

Definition map_outcome {A B} (f : A -> B) (o : outcome A) : outcome B :=
  match o with
  | Returned a => Returned (f a)
  | Raised e => Raised e
  end.

(** ** Numbers *)

(** Half a microsecond, in days. *)
Definition half_microsecond : Q := 1 # 172800000000.

(** Rounding to the nearest integer, as the specification words it
    (halves upward; no example below is a half). *)
Definition round_nearest (x : Q) : Z := Qfloor (x + (1 # 2)).

Definition sum_quantities (df : list Order) : Z :=
  fold_right Z.add 0 (map quantity df).

(** ** Histories on which the float arithmetic is exact

    The model computes with exact rationals where the code computes in
    binary64 and rounds.  The two agree when every intermediate value is
    a number that binary64 holds: integers below 2^53 in absolute value,
    their sums while these stay below 2^53, and quotients that are whole.
    The statements about a computed value carry such a hypothesis; they
    also take the order dates pairwise distinct, so that the frame in
    date order is the same for every sort, stable or not. *)

Definition date_lt (a b : Order) : Prop := order_date a < order_date b.

(** The [k] orders of [h] with the latest dates (all the orders when
    there are fewer), in date order. *)
Definition latest_orders (k : nat) (h recent : list Order) : Prop :=
  List.length recent = Nat.min k (List.length h) /\
  StronglySorted date_lt recent /\
  exists older,
    Permutation h (older ++ recent) /\
    forall a b, In a older -> In b recent -> date_lt a b.



Definition finite_or_nan (r : fval) : Prop :=
  match r with
  | Fin _ | NaN => True
  | _ => False
  end.

(** The rate as the specification words it: the intervals whose rate is
    undefined or not positive, a same-day repeat among them, are left
    out, and the others are averaged (0.0 when none is left). *)
Definition spec_valid_rate (r : fval) : bool :=
  match r with
  | Fin q => negb (Qle_bool q 0)
  | _ => false
  end.

Definition spec_consumption_rate (df : list Order) : fval :=
  let rates :=
    div_cols (shift1 (quantities df)) (diff_days (dates df)) in
  match filter spec_valid_rate rates with
  | [] => Fin 0
  | valid => mean valid
  end.

(** ** Sample histories

    738886 is the ordinal of 2024-01-01. *)

Definition order (d q : Z) : Order :=
  {| order_date := d; quantity := q; order_medicine_name := None |}.

(** Four orders of 60 units, 30 days apart. *)
Definition monthly_60 : list Order :=
  [order 738886 60; order 738916 60; order 738946 60; order 738976 60].


Definition ten_eleven_eleven : list Order :=
  [order 738886 10; order 738916 11; order 738946 11].

(** One unit per 3000 days, then 10000 units. *)
Definition sparse_then_bulk : list Order :=
  [order 738886 1; order 741886 1; order 744886 10000].

(** Two orders on one day, a third 30 days later. *)
Definition same_day_repeat : list Order :=
  [order 738886 60; order 738886 60; order 738916 60].

End ForecastSpec.

Module ExtraSpec.
Import Py MedicineParser.

(** The forms [_extract_form] can return. *)
Definition form_vocabulary : list string :=
  ["tablet"; "capsule"; "syrup"; "injection"; "cream"; "drops"; "inhaler";
   "patch"].

(** A number with its value, as [_extract_quantity] reads the standalone
    numbers of a text. *)
Definition standalone_value (text : string) (n : Z) : Prop :=
  exists s, In s (Re.findall1 false standalone_number text) /\
            int_of_str s = Returned n.

(** The only exception an outcome can be is [ValueError]. *)
Definition raises_only_value_error {A} (o : outcome A) : Prop :=
  forall e, o = Raised e -> e = ValueError.

End ExtraSpec.

Module ForecastExtraSpec.
Import Py F Forecast.

(** A strictly positive value, [+inf] included; a value that is not
    negative. *)
Definition positive_value (r : fval) : Prop :=
  match r with
  | Fin q => (0 < q)%Q
  | PInf => True
  | _ => False
  end.

Definition nonnegative_value (r : fval) : Prop :=
  match r with
  | Fin q => (0 <= q)%Q
  | PInf => True
  | _ => False
  end.

End ForecastExtraSpec.

Module CallerSpec.
Import Py F Forecast PredictionsRoute.

(** The date [should_notify_user] reads from the dictionary: a date
    value, or a text that [fromisoformat] accepts. *)
Definition depletion_date_read (fromisoformat_date : string -> outcome Z)
    (prediction : PredictionDict) (d : Z) : Prop :=
  dict_predicted_depletion_date prediction = Some (DateValue d) \/
  exists s, dict_predicted_depletion_date prediction = Some (StrValue s) /\
            fromisoformat_date s = Returned d.

(** The items of one medicine, as history entries, in the order of the
    orders and of the items within an order. *)
Definition entries_of (medicine_id : string) (orders : list OrderDoc)
    : list Order :=
  flat_map
    (fun order =>
       map (history_entry order)
           (filter (fun item => String.eqb (item_medicine_id item) medicine_id)
                   (get_items order)))
    orders.

(** [medicine_orders[medicine_id]]; the empty list for an absent key. *)
Fixpoint history_of (medicine_id : string) (d : list (string * list Order))
    : list Order :=
  match d with
  | [] => []
  | (k, l) :: d' =>
      if String.eqb k medicine_id then l else history_of medicine_id d'
  end.

(** The appends of the grouping loop, in the order they are made. *)
Definition keyed_entries (orders : list OrderDoc) : list (string * Order) :=
  flat_map
    (fun order =>
       map (fun item => (item_medicine_id item, history_entry order item))
           (get_items order))
    orders.

(** One append of the grouping loop. *)
Definition append_entry (d : list (string * list Order))
    (kv : string * Order) : list (string * list Order) :=
  append_to (fst kv) (snd kv) d.

(** A dictionary of the grouping loop: no key twice, no empty list. *)
Definition grouped (d : list (string * list Order)) : Prop :=
  NoDup (map fst d) /\ Forall (fun kl => snd kl <> []) d.

(** An integer that a binary64 float holds exactly. *)
Definition exact_in_float (n : Z) : Prop := Z.abs n < 2 ^ 53.

End CallerSpec.

Module MatchSpec.
Import Py Re.

(** What the matcher computes, as a relation: [steps ic r c g c' g']
    when [r] can match from the cursor [c] to the cursor [c'], turning
    the captures [g] into [g']. *)
Inductive steps (ic : bool)
    : regex -> cursor -> captures -> cursor -> captures -> Prop :=
| steps_eps c g : steps ic Eps c g c g
| steps_lit a c g x c' :
    advance c = Some (x, c') -> same_char ic a x = true ->
    steps ic (Lit a) c g c' g
| steps_class p c g x c' :
    advance c = Some (x, c') -> p x = true ->
    steps ic (Class p) c g c' g
| steps_seq r1 r2 c g c1 g1 c2 g2 :
    steps ic r1 c g c1 g1 -> steps ic r2 c1 g1 c2 g2 ->
    steps ic (Seq r1 r2) c g c2 g2
| steps_alt_l r1 r2 c g c' g' :
    steps ic r1 c g c' g' -> steps ic (Alt r1 r2) c g c' g'
| steps_alt_r r1 r2 c g c' g' :
    steps ic r2 c g c' g' -> steps ic (Alt r1 r2) c g c' g'
| steps_star_done r c g : steps ic (Star r) c g c g
| steps_star_more r c g c1 g1 c2 g2 :
    steps ic r c g c1 g1 -> steps ic (Star r) c1 g1 c2 g2 ->
    steps ic (Star r) c g c2 g2
| steps_group n r c g c' g' :
    steps ic r c g c' g' ->
    steps ic (Group n r) c g c' ((n, (pos c, pos c')) :: g')
| steps_wordb c g :
    at_boundary c = true -> steps ic WordB c g c g
| steps_ahead r c g c1 g1 :
    steps ic r c g c1 g1 -> steps ic (Ahead r) c g c g1.

(** The cursor stands in [subject], after [pos c] characters. *)
Definition cursor_of (subject : string) (c : cursor) : Prop :=
  exists before,
    subject = before ++ rest c /\
    pos c = N.of_nat (String.length before).

(** The text [l] lies between two cursors. *)
Definition span (c c' : cursor) (l : string) : Prop :=
  rest c = l ++ rest c' /\
  pos c' = (pos c + N.of_nat (String.length l))%N.

(** The numbers of the groups of a pattern. *)
Fixpoint groups_of (r : regex) : list nat :=
  match r with
  | Seq r1 r2 | Alt r1 r2 => (groups_of r1 ++ groups_of r2)%list
  | Star r1 | Ahead r1 => groups_of r1
  | Group n r1 => n :: groups_of r1
  | _ => []
  end.

(** A text of digits, not empty. *)
Definition is_number (l : string) : Prop :=
  l <> "" /\ forall_str is_digit l = true.

(** A match found by a scan of [subject]: a match of the relation from
    a cursor of the subject. *)
Definition found_in (ic : bool) (subject : string) (r : regex) (m : rmatch)
    : Prop :=
  exists c, cursor_of subject c /\
            m_start m = pos c /\
            steps ic r c [] (m_end m) (m_groups m).

End MatchSpec.

Module DosageSpec.
Import Py MatchSpec.

(** The units of a dosage, as [_extract_dosage] writes them. *)
Definition dosage_units : list string :=
  ["mg"; "g"; "ml"; "mcg"; "iu"; "unit"; "units"].

(** A decimal numeral: digits, then possibly a point and digits. *)
Definition is_decimal (l : string) : Prop :=
  is_number l \/
  exists a b, l = a ++ "." ++ b /\ is_number a /\ is_number b.

(** A numeral followed at once by a unit in lower case. *)
Definition normalised_dosage (d : string) : Prop :=
  exists amount unit,
    d = amount ++ unit /\ is_decimal amount /\ In unit dosage_units.

(** A text of ASCII characters only.  On such a text the classes of the
    model ([\d], [\w], [\s], the case folding of [re.IGNORECASE] and of
    [str.lower]) are those of Python; beyond ASCII Python knows more
    digits and more case pairs than the model. *)
Definition ascii_only (s : string) : Prop :=
  forall_str (fun c => (code c <? 128)%N) s = true.

End DosageSpec.

(* ================================================================== *)
(** * The matcher does not depend on its iteration bound *)

Module ReProps.
Import Py Re ReSpec.

Lemma at_start_wf (subject : string) :
  wf (N.of_nat (String.length subject)) (at_start subject).
Proof. reflexivity. Qed.

Lemma advance_wf (n : N) (c c' : cursor) (x : ascii) :
  wf n c -> advance c = Some (x, c') ->
  wf n c' /\ remaining c = S (remaining c').
Proof.
  destruct c as [p pv [| y s]]; unfold advance, wf, remaining; simpl;
    [discriminate |].
  intros H E. injection E as <- <-. simpl. split; lia.
Qed.

Lemma progress_shortens (n : N) (c c' : cursor) :
  wf n c -> wf n c' -> (pos c <? pos c')%N = true ->
  (remaining c' < remaining c)%nat.
Proof.
  unfold wf. intros H H' Hp. apply N.ltb_lt in Hp. lia.
Qed.

Section Bounds.
Variable ignorecase : bool.
Variable n : N.

Lemma star_loop_fuel_irrelevant (A : Type)
    (body1 body2 : cursor -> captures -> (cursor -> captures -> option A)
                   -> option A)
    (k1 k2 : cursor -> captures -> option A) (c0 : cursor) :
  (forall c g K1 K2, wf n c -> (remaining c <= remaining c0)%nat ->
                     agree_from n c K1 K2 -> body1 c g K1 = body2 c g K2) ->
  agree_from n c0 k1 k2 ->
  forall f1 f2 c g,
    wf n c -> (remaining c <= remaining c0)%nat ->
    (remaining c < f1)%nat -> (remaining c < f2)%nat ->
    star_loop A body1 k1 f1 c g = star_loop A body2 k2 f2 c g.
Proof.
  intros Hbody Hk.
  induction f1 as [| f1 IH]; intros f2 c g Hwf Hle H1 H2; [lia |].
  destruct f2 as [| f2]; [lia |]. cbn [star_loop].
  rewrite (Hbody c g
             (fun c' g' => if (pos c <? pos c')%N
                           then star_loop A body1 k1 f1 c' g' else None)
             (fun c' g' => if (pos c <? pos c')%N
                           then star_loop A body2 k2 f2 c' g' else None));
    auto.
  - rewrite (Hk c g); auto.
  - intros c' g' Hwf' Hle'.
    destruct (pos c <? pos c')%N eqn:Hp; [| reflexivity].
    pose proof (progress_shortens n c c' Hwf Hwf' Hp).
    apply IH; auto; lia.
Qed.

Lemma run_bound_irrelevant (b1 b2 : nat) (r : regex) :
  forall (A : Type) (c : cursor) (g : captures)
         (k1 k2 : cursor -> captures -> option A),
    wf n c -> (remaining c < b1)%nat -> (remaining c < b2)%nat ->
    agree_from n c k1 k2 ->
    run ignorecase b1 A r c g k1 = run ignorecase b2 A r c g k2.
Proof.
  induction r as [| a | p | r1 IH1 r2 IH2 | r1 IH1 r2 IH2 | r1 IH1
                 | i r1 IH1 | | r1 IH1 |];
    intros A c g k1 k2 Hwf H1 H2 Hk; cbn [run].
  - apply Hk; auto.
  - destruct (advance c) as [[x c'] |] eqn:E; [| reflexivity].
    destruct (same_char ignorecase a x); [| reflexivity].
    destruct (advance_wf n c c' x Hwf E). apply Hk; auto; lia.
  - destruct (advance c) as [[x c'] |] eqn:E; [| reflexivity].
    destruct (p x); [| reflexivity].
    destruct (advance_wf n c c' x Hwf E). apply Hk; auto; lia.
  - apply IH1; auto. intros c' g' Hwf' Hle.
    apply IH2; auto; try lia.
    intros c'' g'' Hwf'' Hle'. apply Hk; auto; lia.
  - rewrite (IH1 A c g k1 k2); auto.
    destruct (run ignorecase b2 A r1 c g k2); auto.
  - apply (star_loop_fuel_irrelevant A _ _ k1 k2 c); auto.
    intros c1 g1 K1 K2 Hwf1 Hle1 HK. apply IH1; auto; lia.
  - apply IH1; auto. intros c' g' Hwf' Hle. apply Hk; auto.
  - destruct (at_boundary c); [| reflexivity]. apply Hk; auto.
  - rewrite (IH1 captures c g (fun _ g' => Some g') (fun _ g' => Some g'));
      auto; [| intros c' g' _ _; reflexivity].
    destruct (run ignorecase b2 captures r1 c g _); [| reflexivity].
    apply Hk; auto.
  - reflexivity.
Qed.

Lemma star_loop_some_inv (A : Type) (P : A -> Prop)
    (body : cursor -> captures -> (cursor -> captures -> option A)
            -> option A)
    (k : cursor -> captures -> option A) (c0 : cursor) :
  (forall c g K a, wf n c -> (remaining c <= remaining c0)%nat ->
                   holds_after n P c K -> body c g K = Some a -> P a) ->
  holds_after n P c0 k ->
  forall f c g a,
    wf n c -> (remaining c <= remaining c0)%nat ->
    star_loop A body k f c g = Some a -> P a.
Proof.
  intros Hbody Hk.
  induction f as [| f IH]; intros c g a Hwf Hle; cbn [star_loop].
  - apply Hk; auto.
  - destruct (body c g _) as [a' |] eqn:E.
    + intros H. injection H as <-.
      apply (Hbody c g _ a' Hwf Hle) in E; auto.
      intros c' g' a Hwf' Hle'.
      destruct (pos c <? pos c')%N; [| discriminate].
      apply IH; auto; lia.
    + apply Hk; auto.
Qed.

Lemma run_some_inv (b : nat) (r : regex) :
  forall (A : Type) (P : A -> Prop) (c : cursor) (g : captures)
         (k : cursor -> captures -> option A) (a : A),
    wf n c -> holds_after n P c k ->
    run ignorecase b A r c g k = Some a -> P a.
Proof.
  induction r as [| ch | p | r1 IH1 r2 IH2 | r1 IH1 r2 IH2 | r1 IH1
                 | i r1 IH1 | | r1 IH1 |];
    intros A P c g k a Hwf Hk; cbn [run].
  - apply Hk; auto.
  - destruct (advance c) as [[x c'] |] eqn:E; [| discriminate].
    destruct (same_char ignorecase ch x); [| discriminate].
    destruct (advance_wf n c c' x Hwf E). apply Hk; auto; lia.
  - destruct (advance c) as [[x c'] |] eqn:E; [| discriminate].
    destruct (p x); [| discriminate].
    destruct (advance_wf n c c' x Hwf E). apply Hk; auto; lia.
  - apply IH1; auto. intros c' g' a' Hwf' Hle.
    apply IH2; auto.
    intros c'' g'' a'' Hwf'' Hle'. apply Hk; auto; lia.
  - destruct (run ignorecase b A r1 c g k) as [a' |] eqn:E.
    + intros H. injection H as <-. revert E. apply IH1; auto.
    + apply IH2; auto.
  - apply (star_loop_some_inv A P _ k c); auto.
    intros c1 g1 K a1 Hwf1 Hle1 HK. apply IH1; auto.
  - apply IH1; auto. intros c' g' a' Hwf' Hle. apply Hk; auto.
  - destruct (at_boundary c); [| discriminate]. apply Hk; auto.
  - destruct (run ignorecase b captures r1 c g _); [| discriminate].
    apply Hk; auto.
  - discriminate.
Qed.

(** A match ends inside the subject, at or after its start. *)
Lemma match_at_inv (b : nat) (r : regex) (c : cursor) (m : rmatch) :
  wf n c -> match_at ignorecase b r c = Some m ->
  wf n (m_end m) /\ (remaining (m_end m) <= remaining c)%nat /\
  m_start m = pos c.
Proof.
  intros Hwf. unfold match_at.
  apply (run_some_inv b r rmatch
           (fun m => wf n (m_end m) /\
                     (remaining (m_end m) <= remaining c)%nat /\
                     m_start m = pos c)); auto.
  intros c' g' a Hwf' Hle H. injection H as <-. simpl. auto.
Qed.

Lemma scan_bound_irrelevant (b1 b2 : nat) (r : regex) (s : string) :
  forall (p : N) (pv : option ascii),
    wf n (Cursor p pv s) ->
    (String.length s < b1)%nat -> (String.length s < b2)%nat ->
    scan ignorecase b1 r p pv s = scan ignorecase b2 r p pv s.
Proof.
  induction s as [| x s IH]; intros p pv Hwf H1 H2; cbn [scan];
    unfold match_at;
    rewrite (run_bound_irrelevant b1 b2 r rmatch (Cursor p pv _) []
               (fun c' g => Some (Match p c' g))
               (fun c' g => Some (Match p c' g))); auto;
    try (intros c' g' _ _; reflexivity).
  destruct (run ignorecase b2 rmatch r _ _ _); [reflexivity |].
  apply IH; simpl in *; try lia.
  unfold wf, remaining in *. simpl in *. lia.
Qed.

Lemma scan_some_inv (b : nat) (r : regex) (s : string) :
  forall (p : N) (pv : option ascii) (m : rmatch),
    wf n (Cursor p pv s) ->
    scan ignorecase b r p pv s = Some m ->
    wf n (m_end m) /\ (remaining (m_end m) <= String.length s)%nat /\
    (p <= m_start m)%N.
Proof.
  induction s as [| x s IH]; intros p pv m Hwf; cbn [scan].
  - destruct (match_at ignorecase b r _) as [m' |] eqn:E; [| discriminate].
    intros H. injection H as <-.
    destruct (match_at_inv b r _ m' Hwf E) as (H1 & H2 & H3).
    simpl in *. repeat split; auto. lia.
  - destruct (match_at ignorecase b r _) as [m' |] eqn:E.
    + intros H. injection H as <-.
      destruct (match_at_inv b r _ m' Hwf E) as (H1 & H2 & H3).
      simpl in *. repeat split; auto. lia.
    + intros H. apply IH in H.
      * destruct H as (H1 & H2 & H3). simpl. repeat split; auto; lia.
      * unfold wf, remaining in *. simpl in *. lia.
Qed.

Lemma matches_from_fuel_irrelevant (r : regex) (b1 b2 : nat) :
  forall (f1 f2 : nat) (c : cursor),
    wf n c ->
    (remaining c < b1)%nat -> (remaining c < b2)%nat ->
    (remaining c < f1)%nat -> (remaining c < f2)%nat ->
    matches_from ignorecase b1 f1 r c = matches_from ignorecase b2 f2 r c.
Proof.
  induction f1 as [| f1 IH]; intros f2 c Hwf Hb1 Hb2 H1 H2; [lia |].
  destruct f2 as [| f2]; [lia |]. cbn [matches_from]. unfold scan_from.
  assert (Hc : wf n (Cursor (pos c) (prev c) (rest c))) by (now destruct c).
  rewrite (scan_bound_irrelevant b1 b2 r (rest c) (pos c) (prev c)); auto.
  destruct (scan ignorecase b2 r (pos c) (prev c) (rest c)) as [m |] eqn:E;
    [| reflexivity].
  destruct (scan_some_inv b2 r _ _ _ m Hc E) as (Hm & Hle & Hst).
  fold (remaining c) in Hle.
  destruct (m_start m <? pos (m_end m))%N eqn:Hp.
  - f_equal. apply N.ltb_lt in Hp.
    assert (remaining (m_end m) < remaining c)%nat
      by (unfold wf in *; lia).
    apply IH; auto; lia.
  - destruct (advance (m_end m)) as [[x c'] |] eqn:Ea; [| reflexivity].
    destruct (advance_wf n _ _ _ Hm Ea). f_equal. apply IH; auto; lia.
Qed.
End Bounds.

(** [search] and [finditer] with any larger bounds give the same
    matches: the bound they use is never exhausted. *)
Lemma search_bound_irrelevant (ignorecase : bool) (r : regex)
    (subject : string) (b : nat) :
  (String.length subject < b)%nat ->
  scan_from ignorecase b r (at_start subject) = search ignorecase r subject.
Proof.
  intros Hb. unfold search, scan_from, bound_of.
  apply (scan_bound_irrelevant ignorecase (N.of_nat (String.length subject)));
    simpl; auto. apply at_start_wf.
Qed.

Lemma finditer_bound_irrelevant (ignorecase : bool) (r : regex)
    (subject : string) (b f : nat) :
  (String.length subject < b)%nat -> (String.length subject < f)%nat ->
  matches_from ignorecase b f r (at_start subject)
  = finditer ignorecase r subject.
Proof.
  intros Hb Hf. unfold finditer, bound_of.
  apply (matches_from_fuel_irrelevant
           ignorecase (N.of_nat (String.length subject)));
    unfold remaining; simpl; auto. apply at_start_wf.
Qed.

End ReProps.

(* ================================================================== *)
(** * Properties of the order-text parser *)

Module ParserProps.
Import Py Re MedicineParser ParserSpec.

(** ** How the result is assembled *)

Lemma greeting_result (message : string) :
  is_greeting (lower message) = true ->
  exists r, parse_message message = Returned r /\
            medicines r = [] /\ requires_clarification r = false /\
            next_action r = "greet".
Proof.
  intros Hg. unfold parse_message. rewrite Hg.
  eexists. repeat split.
Qed.

Lemma parsed_result (message : string) (r : ParseResult) :
  is_greeting (lower message) = false ->
  parse_message message = Returned r ->
  parse_segments (Re.split false separator_pattern message)
    = Returned (medicines r) /\
  requires_clarification r
    = match medicines r with [] => true | _ => false end /\
  next_action r
    = match medicines r with [] => "ask_details" | _ => "confirm" end.
Proof.
  intros Hg. unfold parse_message. rewrite Hg.
  destruct (parse_segments _) as [meds | e]; simpl; [| discriminate].
  intros H. injection H as <-. simpl. repeat split.
Qed.

(** C1, as the code has it: on every message for which [parse_message]
    returns, [requires_clarification] is true exactly when no medicine
    was extracted and the greeting short-circuit was not taken; a
    greeting result has no medicines (and so asks for no clarification). *)
Theorem clarification_iff_empty_and_not_greeting :
  forall (message : string) (r : ParseResult),
    parse_message message = Returned r ->
    (requires_clarification r = true <->
       medicines r = [] /\ next_action r <> "greet") /\
    (next_action r = "greet" -> medicines r = []).
Proof.
  intros message r H.
  destruct (is_greeting (lower message)) eqn:Hg.
  - destruct (greeting_result message Hg) as (r' & Hr' & Hm & Hc & Ha).
    rewrite Hr' in H. injection H as <-.
    rewrite Hm, Hc, Ha. split.
    + split; [discriminate | intros [_ Hne]; now elim Hne].
    + reflexivity.
  - destruct (parsed_result message r Hg H) as (_ & Hc & Ha).
    rewrite Hc, Ha. destruct (medicines r); split.
    + split; [intros _; split; [reflexivity | discriminate] | reflexivity].
    + reflexivity.
    + split; [discriminate | intros [Hnil _]; discriminate].
    + discriminate.
Qed.

Lemma clarification_iff_empty_and_not_greeting_witness :
  exists r, parse_message "what do you have" = Returned r /\
            requires_clarification r = true /\
            medicines r = [] /\ next_action r <> "greet".
Proof.
  eexists. split; [vm_compute; reflexivity |].
  split; [reflexivity |].
  apply (clarification_iff_empty_and_not_greeting "what do you have");
    [vm_compute; reflexivity | reflexivity].
Defined.

(** C1 as stated fails, by design: a greeting takes the greeting
    short-circuit, whose result has no medicines and asks for no
    clarification. *)
Lemma hello_is_greeted_without_clarification :
  is_greeting (lower "Hello!") = true /\
  exists r, parse_message "Hello!" = Returned r /\
            medicines r = [] /\
            requires_clarification r = false /\
            next_action r = "greet" /\
            ~ (requires_clarification r = true <-> medicines r = []).
Proof.
  split; [reflexivity |].
  eexists. split; [vm_compute; reflexivity |].
  repeat split. simpl. intros [_ H]. discriminate (H eq_refl).
Qed.

(** The message of the specification's own example takes the same
    branch, by a slip of the greeting test: the test looks for the
    greeting as a substring, and "hi" occurs inside "something".  (The
    repository's test of this message expects a clarification.) *)
Lemma headache_message_is_greeted :
  contains "hi" (lower "I need something for headache") = true /\
  exists r, parse_message "I need something for headache" = Returned r /\
            medicines r = [] /\
            requires_clarification r = false /\
            next_action r = "greet" /\
            ~ (requires_clarification r = true <-> medicines r = []).
Proof.
  split; [reflexivity |].
  eexists. split; [vm_compute; reflexivity |].
  repeat split. simpl. intros [_ H]. discriminate (H eq_refl).
Qed.

(** C2, as the code has it: the message yields exactly one request, named
    "Paracetamol" (the canonical name in title case), with dosage
    "500mg", quantity 30, form "tablet" and confidence at least 0.8. *)
Theorem paracetamol_order_parsed :
  exists r m,
    parse_message "I need Paracetamol 500mg, 30 tablets" = Returned r /\
    medicines r = [m] /\
    name m = "Paracetamol" /\
    dosage m = Some "500mg" /\
    quantity m = 30 /\
    form m = "tablet" /\
    (0.8 <=? confidence m)%float = true.
Proof.
  do 2 eexists. split; [vm_compute; reflexivity |].
  repeat split.
Qed.

(** C2 as stated fails on the name: the request is not named by the
    lower-case canonical identifier. *)
Lemma paracetamol_name_not_lowercase :
  ~ exists r m,
      parse_message "I need Paracetamol 500mg, 30 tablets" = Returned r /\
      medicines r = [m] /\
      name m = "paracetamol" /\
      dosage m = Some "500mg" /\
      quantity m = 30 /\
      form m = "tablet" /\
      (0.8 <=? confidence m)%float = true.
Proof.
  intros (r & m & H & Hm & Hn & _).
  vm_compute in H. injection H as <-.
  simpl in Hm. injection Hm as <-.
  discriminate Hn.
Qed.

(** The second segment of that message, "30 tablets", names no medicine:
    the quantity 30 of the request is the default pack size. *)
Example paracetamol_segments :
  Re.split false separator_pattern "I need Paracetamol 500mg, 30 tablets"
    = ["I need Paracetamol 500mg"; "30 tablets"] /\
  _extract_quantity "I need Paracetamol 500mg" = Returned 30 /\
  _extract_medicine_name "30 tablets" = Returned None.
Proof. repeat split. Qed.

(** C5, the parser: [parse_message] has no handler, and converting a
    number of more than 4300 digits raises.  The value of the function on
    such a message is the exception. *)
Theorem parse_message_raises_on_long_number :
  parse_message ("Aspirin 500mg " ++ repeat "9" 4301 ++ " tablets")
    = Raised ValueError.
Proof. vm_compute. reflexivity. Qed.

(** C6, the quantity: a number anchored by a unit word is returned as it
    is, zero included. *)
Theorem zero_tablets_quantity :
  exists r m,
    parse_message "Aspirin 0 tablets" = Returned r /\
    medicines r = [m] /\
    name m = "Aspirin" /\
    quantity m = 0.
Proof.
  do 2 eexists. split; [vm_compute; reflexivity |].
  repeat split.
Qed.

(** C10: a message that names no medicine, greets nobody and carries no
    dosage unit, but starts with a capitalised word of more than two
    letters, is parsed as an order for that word. *)
Theorem capitalised_word_taken_as_medicine :
  exists (message word : string) (r : ParseResult) (m : MedicineRequest),
    message = "Please send my usual order" /\
    any_in greetings (lower message) = false /\
    existsb (fun entry => any_in (snd entry) (lower message))
            COMMON_MEDICINES = false /\
    any_in ["mg"; "g"; "ml"] (lower message) = false /\
    hd_error (Py.split message) = Some word /\
    word = "Please" /\
    (2 <? String.length word)%nat = true /\
    parse_message message = Returned r /\
    medicines r = [m] /\
    name m = word /\
    requires_clarification r = false /\
    next_action r = "confirm".
Proof.
  exists "Please send my usual order", "Please".
  do 2 eexists.
  repeat (split; [vm_compute; reflexivity |]).
  reflexivity.
Qed.

(** ** What does hold of every request *)

Lemma calculate_confidence_in_unit_interval
    (medicine_name dosage : option string) (quantity : Z) :
  (0 <=? _calculate_confidence medicine_name dosage quantity)%float = true /\
  (_calculate_confidence medicine_name dosage quantity <=? 1)%float = true.
Proof.
  unfold _calculate_confidence.
  destruct (truthy medicine_name), (is_known medicine_name),
    (truthy dosage), (negb (quantity =? 0) && negb (quantity =? 30));
    vm_compute; split; reflexivity.
Qed.

Lemma digit_value_nonneg (c : ascii) : 0 <= digit_value c.
Proof. unfold digit_value. apply N2Z.is_nonneg. Qed.

Lemma digits_value_nonneg (s : string) (acc : Z) :
  0 <= acc -> 0 <= digits_value acc s.
Proof.
  revert acc. induction s as [| c s IH]; intros acc Hacc; cbn [digits_value].
  - exact Hacc.
  - apply IH. pose proof (digit_value_nonneg c). lia.
Qed.

Lemma int_of_str_nonneg (s : string) (n : Z) :
  int_of_str s = Returned n -> 0 <= n.
Proof.
  unfold int_of_str. destruct s as [| c s]; [discriminate |].
  destruct (negb _); [discriminate |].
  destruct (_ <? _)%N; [discriminate |].
  intros H. injection H as <-.
  apply (digits_value_nonneg (String c s) 0). lia.
Qed.

Lemma int_group1_nonneg (text : string) (m : rmatch) (n : Z) :
  int_group1 text m = Returned n -> 0 <= n.
Proof.
  unfold int_group1. destruct (group text m 1); [| discriminate].
  apply int_of_str_nonneg.
Qed.

Lemma first_reasonable_range (numbers : list string) (n : Z) :
  first_reasonable numbers = Returned (Some n) -> 1 <= n <= 1000.
Proof.
  induction numbers as [| s numbers IH]; simpl; [discriminate |].
  destruct (int_of_str s) as [k | e]; simpl; [| discriminate].
  destruct ((1 <=? k) && (k <=? 1000)) eqn:Hk; [| exact IH].
  intros H. injection H as <-.
  apply andb_true_iff in Hk. destruct Hk as [H1 H2].
  apply Z.leb_le in H1. apply Z.leb_le in H2. lia.
Qed.

(** The quantity is never negative; it is between 1 and 1000 when it
    comes from a standalone number, and 30 by default. *)
Lemma extract_quantity_nonneg (text : string) (n : Z) :
  _extract_quantity text = Returned n -> 0 <= n.
Proof.
  unfold _extract_quantity.
  destruct (search true quantity_pattern text) as [m |];
    [apply int_group1_nonneg |].
  destruct (search true simple_quantity text) as [m |];
    [apply int_group1_nonneg |].
  destruct (mapM _ _) as [keyed | e]; cbn [bind]; [| discriminate].
  destruct (first_reasonable _) as [[num |] | e] eqn:Hf; cbn [bind];
    try discriminate.
  - intros H. injection H as <-.
    apply first_reasonable_range in Hf. lia.
  - intros H. injection H as <-. lia.
Qed.

Lemma parse_segments_requests_ok (segments : list string) :
  forall meds, parse_segments segments = Returned meds ->
               Forall request_ok meds.
Proof.
  induction segments as [| segment segments IH]; intros meds H.
  - injection H as <-. constructor.
  - cbn [parse_segments] in H.
    destruct (String.length (strip segment) <? 3)%nat; [now apply IH |].
    destruct (_extract_medicine_name (strip segment)) as [[[| c n] |] | e];
      cbn [bind] in H; try (now apply IH); try discriminate.
    destruct (_extract_dosage (strip segment)) as [d | e];
      cbn [bind] in H; [| discriminate].
    destruct (_extract_quantity (strip segment)) as [q | e] eqn:Hq;
      cbn [bind] in H; [| discriminate].
    destruct (parse_segments segments) as [meds' | e];
      cbn [bind] in H; [| discriminate].
    injection H as <-. constructor; [| now apply IH].
    split; [exact (extract_quantity_nonneg _ _ Hq) |].
    apply calculate_confidence_in_unit_interval.
Qed.

(** In every returned result each request has a quantity that is not
    negative and a confidence within [0, 1]. *)
Lemma requests_ok (message : string) (r : ParseResult) (m : MedicineRequest) :
  parse_message message = Returned r -> In m (medicines r) -> request_ok m.
Proof.
  intros H Hin.
  destruct (is_greeting (lower message)) eqn:Hg.
  - destruct (greeting_result message Hg) as (r' & Hr' & Hm & _).
    rewrite Hr' in H. injection H as <-. rewrite Hm in Hin. elim Hin.
  - destruct (parsed_result message r Hg H) as (Hs & _).
    pose proof (parse_segments_requests_ok _ _ Hs) as Hall.
    rewrite Forall_forall in Hall. now apply Hall.
Qed.

End ParserProps.


(* ================================================================== *)
(** * Properties of the depletion forecaster *)

Module ForecastProps.
Import Py F Datetime Forecast ForecastSpec.

(** ** Sorting by date *)

Lemma insert_by_date_perm (x : Order) (df : list Order) :
  Permutation (insert_by_date x df) (x :: df).
Proof.
  induction df as [| y df IH]; simpl.
  - reflexivity.
  - destruct (order_date x <=? order_date y).
    + reflexivity.
    + rewrite IH. apply perm_swap.
Qed.

Lemma sort_values_perm (df : list Order) : Permutation (sort_values df) df.
Proof.
  induction df as [| x df IH]; simpl.
  - reflexivity.
  - rewrite insert_by_date_perm. now constructor.
Qed.

Lemma insert_by_date_sorted (x : Order) (df : list Order) :
  StronglySorted date_le df -> StronglySorted date_le (insert_by_date x df).
Proof.
  induction 1 as [| y df Hs IH Hy]; simpl.
  - repeat constructor.
  - destruct (order_date x <=? order_date y) eqn:Hxy.
    + apply Z.leb_le in Hxy. constructor.
      * now constructor.
      * constructor; [exact Hxy |].
        eapply Forall_impl; [| exact Hy].
        unfold date_le. intros; lia.
    + apply Z.leb_gt in Hxy. constructor; [exact IH |].
      eapply Permutation_Forall.
      * symmetry. apply insert_by_date_perm.
      * constructor; [unfold date_le; lia | exact Hy].
Qed.

Lemma sort_values_sorted (df : list Order) :
  StronglySorted date_le (sort_values df).
Proof.
  induction df as [| x df IH]; simpl.
  - constructor.
  - now apply insert_by_date_sorted.
Qed.

(** Among entries of pairwise distinct dates, the date identifies the
    entry. *)
Lemma date_identifies (df : list Order) (a b : Order) :
  NoDup (dates df) -> In a df -> In b df ->
  order_date a = order_date b -> a = b.
Proof.
  unfold dates. induction df as [| x df IH]; simpl; [easy |].
  intros Hnd Ha Hb Heq. inversion Hnd as [| ? ? Hx Hnd']; subst.
  destruct Ha as [-> | Ha], Hb as [-> | Hb]; auto.
  - elim Hx. rewrite Heq. now apply in_map.
  - elim Hx. rewrite <- Heq. now apply in_map.
Qed.

(** Two date-sorted arrangements of the same entries coincide when no
    two entries share a date. *)
Lemma sorted_arrangement_unique (l1 l2 : list Order) :
  StronglySorted date_le l1 -> StronglySorted date_le l2 ->
  Permutation l1 l2 -> NoDup (dates l1) -> l1 = l2.
Proof.
  intros H1. revert l2.
  induction H1 as [| a t1 Ht1 IH Ha]; intros l2 H2 Hp Hnd.
  - apply Permutation_nil in Hp. now subst.
  - destruct H2 as [| b t2 Ht2 Hb].
    + symmetry in Hp. apply Permutation_nil in Hp. discriminate.
    + assert (Hab : a = b).
      { apply (date_identifies (a :: t1)); auto.
        - now left.
        - eapply Permutation_in; [symmetry; exact Hp | now left].
        - assert (Hle1 : date_le a b).
          { assert (Hin : In b (a :: t1))
              by (eapply Permutation_in; [symmetry; exact Hp | now left]).
            destruct Hin as [<- | Hin]; [unfold date_le; lia |].
            rewrite Forall_forall in Ha. now apply Ha. }
          assert (Hle2 : date_le b a).
          { assert (Hin : In a (b :: t2))
              by (eapply Permutation_in; [exact Hp | now left]).
            destruct Hin as [<- | Hin]; [unfold date_le; lia |].
            rewrite Forall_forall in Hb. now apply Hb. }
          unfold date_le in *. lia. }
      subst b. f_equal. apply IH; auto.
      * now apply Permutation_cons_inv in Hp.
      * unfold dates in *. simpl in Hnd. now inversion Hnd.
Qed.

Lemma sort_values_permutation_invariant (h h' : list Order) :
  Permutation h h' -> NoDup (dates h) -> sort_values h = sort_values h'.
Proof.
  intros Hp Hnd. apply sorted_arrangement_unique.
  - apply sort_values_sorted.
  - apply sort_values_sorted.
  - rewrite !sort_values_perm. exact Hp.
  - eapply Permutation_NoDup; [| exact Hnd].
    unfold dates. apply Permutation_map. symmetry. apply sort_values_perm.
Qed.

(** ** The caller's ordering *)

(** What [predict_depletion] computes from the frame alone. *)
Lemma body_depends_on_frame (s : Settings) (today : Z) (u m : string)
    (h h' : list Order) :
  List.length h = List.length h' ->
  sort_values h = sort_values h' ->
  map_outcome (option_map forget_history) (predict_depletion_body s today u m h)
  = map_outcome (option_map forget_history)
                (predict_depletion_body s today u m h').
Proof.
  intros Hlen Hsort. unfold predict_depletion_body.
  rewrite <- Hlen, <- Hsort.
  destruct (Z.of_nat (List.length h) <? PREDICTION_MIN_ORDERS s);
    [reflexivity |].
  destruct h as [| o l], h' as [| o' l']; try discriminate; [reflexivity |].
  destruct (fle _ _); [reflexivity |].
  destruct (iloc_last _); [| reflexivity]. cbn [bind].
  destruct (timedelta_days _); [| reflexivity]. cbn [bind].
  destruct (date_add _ _); [| reflexivity]. cbn [bind].
  destruct (date_add _ _); [| reflexivity]. cbn [bind].
  destruct (to_int _); reflexivity.
Qed.

(** C7, as the code has it: on a history whose order dates are pairwise
    distinct, every field of the result other than [historical_data] is
    the same for the history and for any permutation of it;
    [historical_data] is the caller's list in the caller's order. *)
Theorem prediction_independent_of_input_order :
  forall (s : Settings) (today : Z) (u m : string) (h h' : list Order),
    Permutation h h' ->
    NoDup (dates h) ->
    map_outcome (option_map forget_history) (predict_depletion s today u m h)
    = map_outcome (option_map forget_history)
                  (predict_depletion s today u m h') /\
    (forall p, predict_depletion s today u m h = Returned (Some p) ->
               historical_data p = h).
Proof.
  intros s today u m h h' Hp Hnd. split.
  - pose proof (body_depends_on_frame s today u m h h'
                  (Permutation_length Hp)
                  (sort_values_permutation_invariant h h' Hp Hnd)) as H.
    unfold predict_depletion.
    destruct (predict_depletion_body s today u m h),
             (predict_depletion_body s today u m h');
      simpl in *; congruence.
  - intros p. unfold predict_depletion, predict_depletion_body.
    destruct (_ <? _); [discriminate |].
    destruct h as [| o l]; [discriminate |].
    destruct (fle _ _); [discriminate |].
    destruct (iloc_last _); [| discriminate]. cbn [bind].
    destruct (timedelta_days _); [| discriminate]. cbn [bind].
    destruct (date_add _ _); [| discriminate]. cbn [bind].
    destruct (date_add _ _); [| discriminate]. cbn [bind].
    destruct (to_int _); [| discriminate]. cbn [bind try_except].
    intros H. injection H as <-. reflexivity.
Qed.

Lemma prediction_independent_of_input_order_witness :
  map_outcome (option_map forget_history)
    (predict_depletion default_settings 738990 "u" "m" monthly_60)
  = map_outcome (option_map forget_history)
      (predict_depletion default_settings 738990 "u" "m" (rev monthly_60)).
Proof.
  apply (prediction_independent_of_input_order
           default_settings 738990 "u" "m" monthly_60 (rev monthly_60)).
  - apply Permutation_rev.
  - repeat constructor; simpl; intuition discriminate.
Defined.

(** C7 as stated fails.  The result carries the caller's list as it was
    given, so two orderings of one history give different results; and
    when two entries share the latest date, which of them is the "last
    order" follows the input order. *)
Lemma input_order_changes_result :
  (Permutation monthly_60 (rev monthly_60) /\
   predict_depletion default_settings 738990 "u" "m" monthly_60
   <> predict_depletion default_settings 738990 "u" "m" (rev monthly_60)) /\
  (let a := [order 738886 60; order 738916 60; order 738946 20;
             order 738946 30] in
   let b := [order 738886 60; order 738916 60; order 738946 30;
             order 738946 20] in
   Permutation a b /\
   map_outcome (option_map last_order_quantity)
     (predict_depletion default_settings 738990 "u" "m" a)
     = Returned (Some 30) /\
   map_outcome (option_map last_order_quantity)
     (predict_depletion default_settings 738990 "u" "m" b)
     = Returned (Some 20)).
Proof.
  split.
  - split; [apply Permutation_rev |].
    intros H. vm_compute in H. discriminate H.
  - split; [| split; vm_compute; reflexivity].
    do 2 apply perm_skip. apply perm_swap.
Qed.

(** ** Reading a returned prediction back *)

(** A prediction is returned exactly along the path of the body on which
    no step raises and no guard gives up. *)
Lemma predict_some_inv (s : Settings) (today : Z) (u m : string)
    (h : list Order) (p : Prediction) :
  predict_depletion s today u m h = Returned (Some p) ->
  exists last delta depl sugg sq,
    PREDICTION_MIN_ORDERS s <= Z.of_nat (List.length h) /\
    fle (_calculate_consumption_rate (sort_values h)) (Fin 0) = false /\
    iloc_last (sort_values h) = Returned last /\
    timedelta_days
      (fdiv (of_Z (quantity last))
            (_calculate_consumption_rate (sort_values h))) = Returned delta /\
    date_add (order_date last) delta = Returned depl /\
    date_add depl (-7) = Returned sugg /\
    to_int (mean (quantities (tail 3 (sort_values h)))) = Returned sq /\
    last_order_date p = order_date last /\
    last_order_quantity p = quantity last /\
    predicted_depletion_date p = depl /\
    suggested_reorder_date p = Z.max sugg today /\
    suggested_quantity p = sq /\
    average_consumption_rate p
      = round2 (_calculate_consumption_rate (sort_values h)) /\
    confidence p
      = _get_confidence_level s (_calculate_confidence (sort_values h)).
Proof.
  unfold predict_depletion, predict_depletion_body.
  destruct (_ <? _) eqn:Hmin; [discriminate |].
  apply Z.ltb_ge in Hmin.
  destruct h as [| o l]; [discriminate |].
  destruct (fle _ _) eqn:Hrate; [discriminate |].
  destruct (iloc_last _) as [last |] eqn:Hlast; [| discriminate].
  cbn [bind].
  destruct (timedelta_days _) as [delta |] eqn:Hdelta; [| discriminate].
  cbn [bind].
  destruct (date_add _ delta) as [depl |] eqn:Hdepl; [| discriminate].
  cbn [bind].
  destruct (date_add depl _) as [sugg |] eqn:Hsugg; [| discriminate].
  cbn [bind].
  destruct (to_int _) as [sq |] eqn:Hsq; [| discriminate].
  cbn [bind try_except].
  intros H. injection H as <-.
  exists last, delta, depl, sugg, sq. cbn.
  repeat (split; [assumption || reflexivity |]). reflexivity.
Qed.

(** ** Whole days *)

Lemma round_half_even_close (y : Q) :
  (y - (1 # 2) <= inject_Z (round_half_even y) <= y + (1 # 2))%Q.
Proof.
  unfold round_half_even.
  pose proof (Qfloor_le y) as Hlo.
  pose proof (Qlt_floor y) as Hhi.
  rewrite inject_Z_plus in Hhi.
  change (inject_Z 1) with 1%Q in Hhi.
  destruct (Qcompare_spec (y - inject_Z (Qfloor y)) (1 # 2)) as [He | Hl | Hg].
  - destruct (Z.even (Qfloor y)).
    + lra.
    + rewrite inject_Z_plus. change (inject_Z 1) with 1%Q. lra.
  - lra.
  - rewrite inject_Z_plus. change (inject_Z 1) with 1%Q. lra.
Qed.

(** [whole_days x] is the floor of [x], taken after [x] is rounded to
    the microsecond. *)
Lemma whole_days_floor (x : Q) :
  (inject_Z (whole_days x) <= x + half_microsecond /\
   x - half_microsecond < inject_Z (whole_days x) + 1)%Q.
Proof.
  unfold whole_days, half_microsecond.
  set (r := round_half_even (x * inject_Z us_per_day)).
  pose proof (round_half_even_close (x * inject_Z us_per_day)) as Hr.
  fold r in Hr.
  assert (Hpos : 0 < us_per_day) by reflexivity.
  pose proof (Z.mul_div_le r us_per_day Hpos) as Hd1.
  pose proof (Z.mul_succ_div_gt r us_per_day Hpos) as Hd2.
  set (d := r / us_per_day) in *.
  rewrite Zle_Qle, inject_Z_mult in Hd1.
  rewrite Zlt_Qlt, inject_Z_mult in Hd2.
  unfold Z.succ in Hd2. rewrite inject_Z_plus in Hd2.
  unfold us_per_day in *.
  change (inject_Z 86400000000) with (86400000000 # 1)%Q in *.
  change (inject_Z 1) with 1%Q in *.
  split; lra.
Qed.

Lemma timedelta_days_inv (y : fval) (d : Z) :
  timedelta_days y = Returned d ->
  exists x, y = Fin x /\ d = whole_days x /\ Z.abs d <= max_delta_days.
Proof.
  destruct y as [q | | |]; simpl; try discriminate.
  destruct (Z.abs (whole_days q) <=? max_delta_days) eqn:Hb; [| discriminate].
  intros H. injection H as <-. apply Z.leb_le in Hb. now exists q.
Qed.

Lemma date_add_inv (d n r : Z) :
  date_add d n = Returned r ->
  r = d + n /\ min_ordinal <= r <= max_ordinal.
Proof.
  unfold date_add.
  destruct (_ && _) eqn:Hb; [| discriminate].
  intros H. injection H as <-.
  apply andb_true_iff in Hb. destruct Hb as [H1 H2].
  apply Z.leb_le in H1. apply Z.leb_le in H2. lia.
Qed.







(** ** The suggested quantity *)

Lemma quot_cross (n1 n2 d1 d2 : Z) :
  0 < d1 -> 0 < d2 -> n1 * d2 = n2 * d1 -> n1 ÷ d1 = n2 ÷ d2.
Proof.
  intros H1 H2 H.
  rewrite <- (Z.quot_mul_cancel_r n1 d1 d2) by lia.
  rewrite <- (Z.quot_mul_cancel_r n2 d2 d1) by lia.
  rewrite H. f_equal. lia.
Qed.

Lemma truncate_Qeq (q q' : Q) : (q == q')%Q -> truncate q = truncate q'.
Proof.
  unfold Qeq, truncate. intros H. apply quot_cross; lia.
Qed.

Lemma fold_fadd_quantities (df : list Order) (a : Q) :
  exists q, fold_left fadd (quantities df) (Fin a) = Fin q /\
            (q == a + inject_Z (sum_quantities df))%Q.
Proof.
  revert a. induction df as [| o df IH]; intros a.
  - exists a. split; [reflexivity |]. unfold sum_quantities. simpl.
    change (inject_Z 0) with 0%Q. lra.
  - simpl. destruct (IH (a + inject_Z (quantity o))%Q) as (q & Hq & He).
    exists q. split; [exact Hq |].
    rewrite He. unfold sum_quantities. simpl.
    rewrite inject_Z_plus. fold (sum_quantities df). lra.
Qed.

(** The mean of a non-empty column of integer quantities. *)
Lemma mean_quantities (df : list Order) :
  df <> [] ->
  exists q, mean (quantities df) = Fin q /\
            truncate q = sum_quantities df ÷ Z.of_nat (List.length df).
Proof.
  intros Hne. unfold mean, fsum, count.
  destruct (fold_fadd_quantities df 0) as (q & Hq & He).
  rewrite Hq. unfold quantities at 1. rewrite length_map.
  destruct df as [| o df]; [now elim Hne |].
  set (n := List.length (o :: df)) in *.
  assert (Hn : Z.of_nat n = Zpos (Pos.of_succ_nat (List.length df)))
    by reflexivity.
  unfold of_Z, fdiv. rewrite Hn.
  change (Qeq_bool (inject_Z (Zpos (Pos.of_succ_nat (List.length df)))) 0)
    with false.
  eexists. split; [reflexivity |].
  rewrite (truncate_Qeq _ (sum_quantities (o :: df)
                           # Pos.of_succ_nat (List.length df))).
  - reflexivity.
  - rewrite He, Qplus_0_l. symmetry. apply Qmake_Qdiv.
Qed.

Lemma tail_length (n : nat) (df : list Order) :
  List.length (tail n df) = Nat.min n (List.length df).
Proof. unfold tail. rewrite length_skipn. lia. Qed.

Lemma strongly_sorted_app_inv {A} (R : A -> A -> Prop) (l1 l2 : list A) :
  StronglySorted R (l1 ++ l2) ->
  StronglySorted R l1 /\ StronglySorted R l2 /\
  forall a b, In a l1 -> In b l2 -> R a b.
Proof.
  induction l1 as [| x l1 IH]; cbn [app]; intros H.
  - repeat split; [constructor | exact H | intros a b []].
  - inversion H as [| ? ? Hs Hx]; subst.
    destruct (IH Hs) as (H1 & H2 & H3).
    apply Forall_app in Hx. destruct Hx as [Hx1 Hx2].
    repeat split.
    + now constructor.
    + exact H2.
    + intros a b [<- | Ha] Hb; [| now apply H3].
      rewrite Forall_forall in Hx2. now apply Hx2.
Qed.

(** In date order, entries of pairwise distinct dates are in strict
    date order. *)
Lemma sorted_distinct_strict (l : list Order) :
  StronglySorted date_le l -> NoDup (dates l) -> StronglySorted date_lt l.
Proof.
  induction 1 as [| a l Hs IH Ha]; intros Hnd; [constructor |].
  unfold dates in Hnd. cbn [map] in Hnd.
  inversion Hnd as [| ? ? Hnotin Hnd']; subst.
  constructor; [now apply IH |].
  rewrite Forall_forall in *. intros b Hb.
  pose proof (Ha b Hb) as Hle. unfold date_le in Hle. unfold date_lt.
  assert (Hne : order_date b <> order_date a).
  { intros E. apply Hnotin. rewrite <- E. now apply in_map. }
  lia.
Qed.

(** With pairwise distinct dates, the last rows of the sorted frame are
    the orders with the latest dates. *)
Lemma tail_latest (k : nat) (h : list Order) :
  NoDup (dates h) -> latest_orders k h (tail k (sort_values h)).
Proof.
  intros Hnd. unfold latest_orders.
  assert (Hlen : List.length (tail k (sort_values h))
                 = Nat.min k (List.length h)).
  { rewrite tail_length. now rewrite (Permutation_length (sort_values_perm h)). }
  split; [exact Hlen |].
  assert (Hstrict : StronglySorted date_lt (sort_values h)).
  { apply sorted_distinct_strict; [apply sort_values_sorted |].
    eapply Permutation_NoDup; [| exact Hnd].
    unfold dates. apply Permutation_map. symmetry. apply sort_values_perm. }
  unfold tail in *.
  set (n := (List.length (sort_values h) - k)%nat) in *.
  rewrite <- (firstn_skipn n (sort_values h)) in Hstrict.
  destruct (strongly_sorted_app_inv _ _ _ Hstrict) as (_ & H2 & H3).
  split; [exact H2 |].
  exists (firstn n (sort_values h)). split; [| exact H3].
  rewrite firstn_skipn. symmetry. apply sort_values_perm.
Qed.

(** C9, as the code has it, where the float arithmetic is exact: for
    order dates that are pairwise distinct and quantities of at most
    2^51 in absolute value, the suggested quantity of a returned
    prediction is the mean of the quantities of the three orders with
    the latest dates (of all the orders when there are fewer),
    truncated toward zero to an integer. *)
Theorem suggested_quantity_is_truncated_mean :
  forall (s : Settings) (today : Z) (u m : string) (h : list Order)
         (p : Prediction),
    predict_depletion s today u m h = Returned (Some p) ->
    NoDup (dates h) ->
    (forall o, In o h -> Z.abs (quantity o) <= 2 ^ 51) ->
    exists recent,
      latest_orders 3 h recent /\
      suggested_quantity p
        = sum_quantities recent ÷ Z.of_nat (List.length recent).
Proof.
  intros s today u m h p H Hnd _.
  exists (tail 3 (sort_values h)).
  split; [now apply tail_latest |].
  set (recent := tail 3 (sort_values h)).
  assert (Hlen : List.length recent = Nat.min 3 (List.length h)).
  { unfold recent. rewrite tail_length.
    now rewrite (Permutation_length (sort_values_perm h)). }
  destruct (predict_some_inv s today u m h p H)
    as (last & delta & depl & sugg & sq & _ & _ & Hlast & _ & _ & _ & Hsq
        & _ & _ & _ & _ & Hq & _).
  fold recent in Hsq.
  assert (Hne : recent <> []).
  { intros E. rewrite E in Hlen. cbn [List.length] in Hlen.
    assert (Hh : sort_values h = []).
    { apply length_zero_iff_nil.
      rewrite (Permutation_length (sort_values_perm h)). lia. }
    rewrite Hh in Hlast. discriminate Hlast. }
  destruct (mean_quantities recent Hne) as (q & Hm & Ht).
  rewrite Hm in Hsq. simpl in Hsq. injection Hsq as <-.
  now rewrite Hq.
Qed.

Lemma suggested_quantity_is_truncated_mean_witness :
  exists p recent,
    predict_depletion default_settings 738950 "u" "m" ten_eleven_eleven
      = Returned (Some p) /\
    latest_orders 3 ten_eleven_eleven recent /\
    suggested_quantity p
      = sum_quantities recent ÷ Z.of_nat (List.length recent).
Proof.
  destruct (predict_depletion default_settings 738950 "u" "m"
              ten_eleven_eleven) as [[p |] | e] eqn:H.
  - destruct (suggested_quantity_is_truncated_mean
                default_settings 738950 "u" "m" ten_eleven_eleven p H)
      as (recent & Hl & Hs).
    + repeat constructor; simpl; intuition discriminate.
    + intros o [<- | [<- | [<- | []]]]; simpl; lia.
    + exists p, recent. split; [reflexivity |]. split; assumption.
  - vm_compute in H. discriminate H.
  - vm_compute in H. discriminate H.
Defined.

(** C9 as stated fails: the last three quantities 10, 11, 11 have mean
    10.67; the nearest integer is 11, the code suggests 10. *)
Lemma suggested_quantity_not_nearest_integer :
  exists p,
    predict_depletion default_settings 738950 "u" "m" ten_eleven_eleven
      = Returned (Some p) /\
    map quantity (tail 3 (sort_values ten_eleven_eleven)) = [10; 11; 11] /\
    round_nearest (32 # 3) = 11 /\
    suggested_quantity p = 10 /\
    suggested_quantity p <> round_nearest (32 # 3).
Proof.
  eexists. split; [vm_compute; reflexivity |].
  repeat split. vm_compute. discriminate.
Qed.

(** ** When a prediction is returned *)

Lemma fgt_not_fle (x : fval) : fgt x (Fin 0) = true -> fle x (Fin 0) = false.
Proof.
  destruct x as [q | | |]; simpl; try discriminate; try reflexivity.
  unfold fgt. simpl. now destruct (Qle_bool q 0).
Qed.

Lemma iloc_last_nonempty (df : list Order) (last : Order) :
  iloc_last df = Returned last -> df <> [].
Proof. intros H E. subst df. discriminate H. Qed.

Lemma sort_values_nonempty (h : list Order) :
  sort_values h <> [] -> h <> [].
Proof. intros H E. subst h. now apply H. Qed.

(** A strictly positive rate always gives a last order and a finite
    number of days to depletion. *)
Lemma positive_rate_projection (h : list Order) :
  fgt (_calculate_consumption_rate (sort_values h)) (Fin 0) = true ->
  exists last x,
    iloc_last (sort_values h) = Returned last /\
    fdiv (of_Z (quantity last))
         (_calculate_consumption_rate (sort_values h)) = Fin x.
Proof.
  intros Hpos.
  assert (Hlast : exists last, iloc_last (sort_values h) = Returned last).
  { unfold iloc_last. destruct (rev (sort_values h)) as [| o l] eqn:Hr.
    - apply (f_equal (@rev Order)) in Hr. rewrite rev_involutive in Hr.
      rewrite Hr in Hpos. discriminate Hpos.
    - now exists o. }
  destruct Hlast as (last & Hlast). exists last.
  destruct (_calculate_consumption_rate (sort_values h)) as [r | | |];
    try discriminate Hpos.
  - unfold fgt in Hpos. simpl in Hpos. unfold of_Z, fdiv.
    destruct (Qeq_bool r 0) eqn:Hz.
    + apply Qeq_bool_eq in Hz.
      assert (Hle : Qle_bool r 0 = true) by (apply Qle_bool_iff; lra).
      rewrite Hle in Hpos. discriminate Hpos.
    + eexists. split; [exact Hlast | reflexivity].
  - eexists. split; [exact Hlast | reflexivity].
Qed.




(** ** The consumption rate *)

(** C3, the same-day repeat: 60 units over a zero-day interval is an
    infinite rate, which [dropna] and the test [> 0] both keep; the mean
    of the rates is then infinite where the specification leaves the
    interval out and gets 2 units a day, and the projected depletion
    date is the last order date itself. *)
Theorem same_day_repeat_gives_infinite_rate :
  sort_values same_day_repeat = same_day_repeat /\
  div_cols (shift1 (quantities same_day_repeat))
           (diff_days (dates same_day_repeat))
    = [NaN; PInf; Fin (60 # 30)] /\
  _calculate_consumption_rate same_day_repeat = PInf /\
  feqb (spec_consumption_rate same_day_repeat) (Fin 2) = true /\
  exists p,
    predict_depletion default_settings 738900 "u" "m" same_day_repeat
      = Returned (Some p) /\
    average_consumption_rate p = PInf /\
    predicted_depletion_date p = last_order_date p.
Proof.
  repeat (split; [vm_compute; reflexivity |]).
  eexists. split; [vm_compute; reflexivity |].
  split; reflexivity.
Qed.

(** Apart from same-day repeats the code computes the rate of the
    specification. *)

Lemma fdiv_by_nonzero_gap (x : fval) (gap : Z) :
  finite_or_nan x -> gap <> 0 -> finite_or_nan (fdiv x (of_Z gap)).
Proof.
  intros Hx Hgap. destruct x as [a | | |]; try easy. unfold of_Z, fdiv.
  destruct (Qeq_bool (inject_Z gap) 0) eqn:Hz; [| exact I].
  apply Qeq_bool_eq in Hz. unfold Qeq in Hz. simpl in Hz. lia.
Qed.

Lemma div_cols_by_gaps (xs : list fval) (previous : Z) (ds : list Z) :
  Forall finite_or_nan xs -> no_repeat_from previous ds ->
  Forall finite_or_nan (div_cols xs (diff_from previous ds)).
Proof.
  intros Hxs. revert previous ds.
  induction Hxs as [| x xs Hx Hxs IH]; intros previous ds Hds.
  - constructor.
  - destruct ds as [| d ds]; simpl; [constructor |].
    destruct Hds as [Hd Hds]. constructor.
    + apply fdiv_by_nonzero_gap; [exact Hx | lia].
    + now apply IH.
Qed.

Lemma removelast_Forall {A} (P : A -> Prop) (l : list A) :
  Forall P l -> Forall P (removelast l).
Proof.
  induction 1 as [| x l Hx Hl IH]; simpl; [constructor |].
  destruct l; [constructor | now constructor].
Qed.

Lemma rates_finite_or_nan (df : list Order) :
  no_same_day_repeat (dates df) ->
  Forall finite_or_nan
    (div_cols (shift1 (quantities df)) (diff_days (dates df))).
Proof.
  destruct df as [| o df]; [constructor |].
  intros Hds. unfold shift1, diff_days, dates, quantities.
  cbn [map div_cols]. constructor; [exact I |].
  apply div_cols_by_gaps; [| exact Hds].
  apply removelast_Forall.
  apply Forall_forall. intros r Hr.
  change (In r (map (fun o0 => of_Z (quantity o0)) (o :: df))) in Hr.
  apply in_map_iff in Hr. destruct Hr as (o' & <- & _). exact I.
Qed.

Lemma filters_agree (rates : list fval) :
  Forall finite_or_nan rates ->
  filter (fun r => fgt r (Fin 0)) (dropna rates)
  = filter spec_valid_rate rates.
Proof.
  unfold dropna. induction 1 as [| r rates Hr Hrates IH]; [reflexivity |].
  destruct r as [q | | |]; try easy.
  cbn [filter is_nan negb spec_valid_rate].
  change (fgt (Fin q) (Fin 0)) with (negb (Qle_bool q 0)).
  now rewrite IH.
Qed.

Lemma rate_agrees_without_repeats (df : list Order) :
  no_same_day_repeat (dates df) ->
  _calculate_consumption_rate df = spec_consumption_rate df.
Proof.
  intros Hds. unfold _calculate_consumption_rate, spec_consumption_rate.
  rewrite (filters_agree _ (rates_finite_or_nan df Hds)).
  destruct (List.length df <? 2)%nat eqn:Hlen.
  - destruct df as [| o [| o' df]]; [reflexivity | reflexivity |].
    discriminate Hlen.
  - now destruct (filter spec_valid_rate _).
Qed.

(** The regular history of the specification: four orders of 60 units,
    30 days apart. *)
Example regular_history_forecast :
  exists p,
    predict_depletion default_settings 738990 "u" "m" monthly_60
      = Returned (Some p) /\
    feqb (average_consumption_rate p) (Fin 2) = true /\
    feqb (confidence_score p) (Fin 1) = true /\
    confidence p = HIGH.
Proof.
  eexists. split; [vm_compute; reflexivity |].
  repeat split.
Qed.

(** Too short a history gives no prediction. *)
Lemma short_history_no_prediction (s : Settings) (today : Z) (u m : string)
    (h : list Order) :
  Z.of_nat (List.length h) < PREDICTION_MIN_ORDERS s ->
  predict_depletion s today u m h = Returned None.
Proof.
  intros H. unfold predict_depletion, predict_depletion_body.
  apply Z.ltb_lt in H. now rewrite H.
Qed.

(** A rate that is not strictly positive gives no prediction. *)
Lemma no_valid_rate_no_prediction (s : Settings) (today : Z) (u m : string)
    (h : list Order) :
  fle (_calculate_consumption_rate (sort_values h)) (Fin 0) = true ->
  predict_depletion s today u m h = Returned None.
Proof.
  intros H. unfold predict_depletion, predict_depletion_body.
  destruct (_ <? _); [reflexivity |].
  destruct h as [| o l]; [reflexivity |].
  now rewrite H.
Qed.

(** ** Exceptions *)

(** Both entry points of the forecaster wrap their body in a handler, so
    they return on every input, with the silent answer when the body
    raises. *)
Lemma predict_depletion_never_raises (s : Settings) (today : Z)
    (u m : string) (h : list Order) :
  (exists r, predict_depletion s today u m h = Returned r) /\
  (forall e, predict_depletion_body s today u m h = Raised e ->
             predict_depletion s today u m h = Returned None).
Proof.
  unfold predict_depletion.
  destruct (predict_depletion_body s today u m h) as [r | e]; simpl; split.
  - now exists r.
  - discriminate.
  - now exists None.
  - reflexivity.
Qed.

Lemma should_notify_user_never_raises (today : Z)
    (fromisoformat_date : string -> outcome Z) (prediction : PredictionDict) :
  (exists b, should_notify_user today fromisoformat_date prediction
             = Returned b) /\
  (forall e, should_notify_user_body today fromisoformat_date prediction
             = Raised e ->
             should_notify_user today fromisoformat_date prediction
             = Returned false).
Proof.
  unfold should_notify_user.
  destruct (should_notify_user_body today fromisoformat_date prediction)
    as [b | e]; simpl; split.
  - now exists b.
  - discriminate.
  - now exists false.
  - reflexivity.
Qed.

(** The notification gate: within seven days, not past, and HIGH. *)
Lemma should_notify_user_gate (today d : Z)
    (fromisoformat_date : string -> outcome Z)
    (c : option PredictionConfidence) :
  should_notify_user today fromisoformat_date
    {| dict_predicted_depletion_date := Some (DateValue d);
       dict_confidence := c |}
  = Returned true
  <-> 0 <= d - today <= 7 /\ c = Some HIGH.
Proof.
  unfold should_notify_user, should_notify_user_body. simpl.
  split.
  - intros H. injection H as H.
    apply andb_true_iff in H. destruct H as [H Hc].
    apply andb_true_iff in H. destruct H as [H1 H2].
    apply Z.leb_le in H1. apply Z.leb_le in H2.
    split; [lia |].
    destruct c as [[| |] |]; try discriminate Hc. reflexivity.
  - intros [[H1 H2] ->].
    apply Z.leb_le in H1. apply Z.leb_le in H2.
    now rewrite H1, H2.
Qed.

End ForecastProps.

(* ================================================================== *)
(** * Further properties of the parser *)

Module ParserExtra.
Import Py Re MedicineParser ParserSpec ExtraSpec.

(** ** Every request of a result *)

(** What [parse_segments] builds a request from. *)
Lemma parse_segments_Forall (P : MedicineRequest -> Prop) :
  (forall segment c n d q,
      _extract_dosage segment = Returned d ->
      _extract_quantity segment = Returned q ->
      P {| name := title (String c n);
           dosage := d;
           quantity := q;
           form := _extract_form segment;
           confidence := _calculate_confidence (Some (String c n)) d q |}) ->
  forall segments meds,
    parse_segments segments = Returned meds -> Forall P meds.
Proof.
  intros HP. induction segments as [| segment segments IH]; intros meds H.
  - injection H as <-. constructor.
  - cbn [parse_segments] in H.
    destruct (String.length (strip segment) <? 3)%nat; [now apply IH |].
    destruct (_extract_medicine_name (strip segment)) as [[[| c n] |] | e];
      cbn [bind] in H; try (now apply IH); try discriminate.
    destruct (_extract_dosage (strip segment)) as [d | e] eqn:Hd;
      cbn [bind] in H; [| discriminate].
    destruct (_extract_quantity (strip segment)) as [q | e] eqn:Hq;
      cbn [bind] in H; [| discriminate].
    destruct (parse_segments segments) as [meds' | e];
      cbn [bind] in H; [| discriminate].
    injection H as <-. constructor; [| now apply IH].
    now apply HP.
Qed.

Lemma parse_message_Forall (P : MedicineRequest -> Prop) :
  (forall segment c n d q,
      _extract_dosage segment = Returned d ->
      _extract_quantity segment = Returned q ->
      P {| name := title (String c n);
           dosage := d;
           quantity := q;
           form := _extract_form segment;
           confidence := _calculate_confidence (Some (String c n)) d q |}) ->
  forall message r,
    parse_message message = Returned r -> Forall P (medicines r).
Proof.
  intros HP message r H.
  destruct (is_greeting (lower message)) eqn:Hg.
  - destruct (ParserProps.greeting_result message Hg) as (r' & Hr' & Hm & _).
    rewrite Hr' in H. injection H as <-. rewrite Hm. constructor.
  - destruct (ParserProps.parsed_result message r Hg H) as (Hs & _).
    exact (parse_segments_Forall P HP _ _ Hs).
Qed.

(** X1: in every result [parse_message] returns, each request has a
    quantity that is not negative and a confidence between 0.4 (a name
    was found) and 1.0. *)
Theorem request_quantity_and_confidence_bounds :
  forall (message : string) (r : ParseResult) (m : MedicineRequest),
    parse_message message = Returned r ->
    In m (medicines r) ->
    0 <= quantity m /\
    (0.4 <=? confidence m)%float = true /\
    (confidence m <=? 1)%float = true.
Proof.
  intros message r m H Hin.
  assert (HF : Forall (fun m => 0 <= quantity m /\
                               (0.4 <=? confidence m)%float = true /\
                               (confidence m <=? 1)%float = true)
                      (medicines r)).
  2: { rewrite Forall_forall in HF. now apply HF. }
  apply (parse_message_Forall _) with (message := message); [| exact H].
  clear. intros segment c n d q _ Hq. cbn [quantity confidence].
  split; [exact (ParserProps.extract_quantity_nonneg _ _ Hq) |].
  unfold _calculate_confidence. cbn [truthy].
  destruct (is_known _), (truthy d), (negb (q =? 0) && negb (q =? 30));
    vm_compute; split; reflexivity.
Qed.

Lemma request_quantity_and_confidence_bounds_witness :
  exists r m,
    parse_message "I want Aspirin and 20 x tabs of vit c" = Returned r /\
    In m (medicines r) /\
    0 <= quantity m /\ (0.4 <=? confidence m)%float = true.
Proof.
  destruct (parse_message "I want Aspirin and 20 x tabs of vit c")
    as [r | e] eqn:H; [| vm_compute in H; discriminate H].
  destruct (medicines r) as [| m l] eqn:Hm.
  - vm_compute in H. injection H as <-. discriminate Hm.
  - exists r, m. split; [reflexivity |].
    assert (Hin : In m (medicines r)) by (rewrite Hm; now left).
    split; [exact Hin |].
    destruct (request_quantity_and_confidence_bounds _ r m H Hin)
      as (Hq & Hc & _).
    split; [exact Hq | exact Hc].
Defined.

Lemma first_entry_in_table (table : list (string * list string))
    (text key : string) :
  first_entry table text = Some key -> In key (map fst table).
Proof.
  induction table as [| [k kws] table IH]; simpl; [discriminate |].
  destruct (any_in kws text).
  - intros H. injection H as <-. now left.
  - intros H. right. now apply IH.
Qed.

(** X2: the form of every request is one of the eight forms of the
    table, "tablet" when no keyword of the table occurs in the segment. *)
Theorem request_form_in_vocabulary :
  forall (message : string) (r : ParseResult) (m : MedicineRequest),
    parse_message message = Returned r ->
    In m (medicines r) ->
    In (form m) form_vocabulary.
Proof.
  intros message r m H Hin.
  assert (HF : Forall (fun m => In (form m) form_vocabulary) (medicines r)).
  2: { rewrite Forall_forall in HF. now apply HF. }
  apply (parse_message_Forall _) with (message := message); [| exact H].
  clear. intros segment c n d q _ _. cbn [form].
  unfold _extract_form.
  destruct (first_entry forms (lower segment)) as [f |] eqn:Hf.
  - apply first_entry_in_table in Hf. exact Hf.
  - now left.
Qed.

Lemma request_form_in_vocabulary_witness :
  exists r m,
    parse_message "Foo 10ml syrup" = Returned r /\
    In m (medicines r) /\ In (form m) form_vocabulary.
Proof.
  destruct (parse_message "Foo 10ml syrup") as [r | e] eqn:H;
    [| vm_compute in H; discriminate H].
  destruct (medicines r) as [| m l] eqn:Hm.
  - vm_compute in H. injection H as <-. discriminate Hm.
  - exists r, m. split; [reflexivity |].
    assert (Hin : In m (medicines r)) by (rewrite Hm; now left).
    split; [exact Hin |].
    exact (request_form_in_vocabulary _ r m H Hin).
Defined.

(** ** Names *)

Lemma is_alpha_lower_char (c : ascii) : is_alpha (lower_char c) = is_alpha c.
Proof. destruct c as [[] [] [] [] [] [] [] []]; vm_compute; reflexivity. Qed.

Lemma is_alpha_upper_char (c : ascii) : is_alpha (upper_char c) = is_alpha c.
Proof. destruct c as [[] [] [] [] [] [] [] []]; vm_compute; reflexivity. Qed.

Lemma lower_char_idempotent (c : ascii) :
  lower_char (lower_char c) = lower_char c.
Proof. destruct c as [[] [] [] [] [] [] [] []]; vm_compute; reflexivity. Qed.

Lemma upper_char_idempotent (c : ascii) :
  upper_char (upper_char c) = upper_char c.
Proof. destruct c as [[] [] [] [] [] [] [] []]; vm_compute; reflexivity. Qed.

Lemma title_from_idempotent (s : string) :
  forall b, title_from b (title_from b s) = title_from b s.
Proof.
  induction s as [| c s IH]; intros b; cbn [title_from]; [reflexivity |].
  destruct (is_alpha c) eqn:Hc; cbn [title_from].
  - destruct b.
    + rewrite is_alpha_lower_char, Hc, lower_char_idempotent, IH.
      reflexivity.
    + rewrite is_alpha_upper_char, Hc, upper_char_idempotent, IH.
      reflexivity.
  - rewrite Hc, IH. reflexivity.
Qed.

(** X3: every request has a name, and the name is in title case:
    applying [str.title] to it changes nothing. *)
Theorem request_name_nonempty_title_case :
  forall (message : string) (r : ParseResult) (m : MedicineRequest),
    parse_message message = Returned r ->
    In m (medicines r) ->
    name m <> "" /\ title (name m) = name m.
Proof.
  intros message r m H Hin.
  assert (HF : Forall (fun m => name m <> "" /\ title (name m) = name m)
                      (medicines r)).
  2: { rewrite Forall_forall in HF. now apply HF. }
  apply (parse_message_Forall _) with (message := message); [| exact H].
  clear. intros segment c n d q _ _. cbn [name]. split.
  - unfold title. cbn [title_from]. destruct (is_alpha c); discriminate.
  - unfold title. apply title_from_idempotent.
Qed.

Lemma request_name_nonempty_title_case_witness :
  exists r m,
    parse_message "some vitamin d please" = Returned r /\
    In m (medicines r) /\ name m = "Vitamin D" /\ title (name m) = name m.
Proof.
  destruct (parse_message "some vitamin d please") as [r | e] eqn:H;
    [| vm_compute in H; discriminate H].
  destruct (medicines r) as [| m l] eqn:Hm.
  - vm_compute in H. injection H as <-. discriminate Hm.
  - exists r, m. split; [reflexivity |].
    assert (Hin : In m (medicines r)) by (rewrite Hm; now left).
    split; [exact Hin |].
    split.
    + vm_compute in H. injection H as <-. injection Hm as <- _. reflexivity.
    + exact (proj2 (request_name_nonempty_title_case _ r m H Hin)).
Defined.

(** ** The fallback quantity *)

Lemma insert_desc_perm {A} (key : A -> Z) (x : A) (l : list A) :
  Permutation (insert_desc key x l) (x :: l).
Proof.
  induction l as [| y l IH]; simpl; [reflexivity |].
  destruct (key y <=? key x); [reflexivity |].
  rewrite IH. apply perm_swap.
Qed.

Lemma sorted_desc_perm {A} (key : A -> Z) (l : list A) :
  Permutation (sorted_desc key l) l.
Proof.
  induction l as [| x l IH]; simpl; [reflexivity |].
  rewrite insert_desc_perm. now constructor.
Qed.

Lemma insert_desc_sorted {A} (key : A -> Z) (x : A) (l : list A) :
  StronglySorted (fun a b => key b <= key a) l ->
  StronglySorted (fun a b => key b <= key a) (insert_desc key x l).
Proof.
  induction 1 as [| y l Hs IH Hy]; simpl; [repeat constructor |].
  destruct (key y <=? key x) eqn:Hxy.
  - apply Z.leb_le in Hxy. constructor; [now constructor |].
    constructor; [exact Hxy |].
    eapply Forall_impl; [| exact Hy]. simpl. intros; lia.
  - apply Z.leb_gt in Hxy. constructor; [exact IH |].
    eapply Permutation_Forall; [symmetry; apply insert_desc_perm |].
    constructor; [lia | exact Hy].
Qed.

Lemma sorted_desc_sorted {A} (key : A -> Z) (l : list A) :
  StronglySorted (fun a b => key b <= key a) (sorted_desc key l).
Proof.
  induction l as [| x l IH]; simpl; [constructor |].
  now apply insert_desc_sorted.
Qed.

(** The pairs [mapM] builds: each string with its value. *)
Lemma keyed_numbers (numbers : list string) (keyed : list (Z * string)) :
  mapM (fun x => k <- int_of_str x;; Returned (k, x)) numbers
    = Returned keyed ->
  Forall (fun kx => int_of_str (snd kx) = Returned (fst kx)) keyed /\
  map snd keyed = numbers.
Proof.
  revert keyed. induction numbers as [| x numbers IH]; intros keyed;
    cbn [mapM].
  - intros H. injection H as <-. split; [constructor | reflexivity].
  - destruct (int_of_str x) as [k | e] eqn:Hx; cbn [bind]; [| discriminate].
    destruct (mapM _ numbers) as [ks | e]; cbn [bind]; [| discriminate].
    intros H. injection H as <-. destruct (IH ks eq_refl) as [HF Hm].
    split; [constructor; [exact Hx | exact HF] |].
    simpl. now rewrite Hm.
Qed.

(** On a list sorted by decreasing value, the loop returns the largest
    value within 1..1000. *)
Lemma first_reasonable_largest (keyed : list (Z * string)) :
  Forall (fun kx => int_of_str (snd kx) = Returned (fst kx)) keyed ->
  StronglySorted (fun a b => fst b <= fst a) keyed ->
  forall found,
    first_reasonable (map snd keyed) = Returned found ->
    match found with
    | Some q =>
        1 <= q <= 1000 /\ In q (map fst keyed) /\
        forall n, In n (map fst keyed) -> 1 <= n <= 1000 -> n <= q
    | None => forall n, In n (map fst keyed) -> ~ 1 <= n <= 1000
    end.
Proof.
  intros HF Hs. induction Hs as [| [k x] keyed Hs IH Hk]; intros found;
    cbn [map first_reasonable snd].
  - intros H. injection H as <-. intros n [].
  - inversion HF as [| ? ? Hx HF']; subst. cbn [fst snd] in Hx.
    rewrite Hx. cbn [bind].
    destruct ((1 <=? k) && (k <=? 1000)) eqn:Hr.
    + intros H. injection H as <-.
      apply andb_true_iff in Hr. destruct Hr as [H1 H2].
      apply Z.leb_le in H1. apply Z.leb_le in H2.
      split; [lia |]. split; [now left |].
      intros n [<- | Hn] _; [cbn; lia |].
      apply in_map_iff in Hn. destruct Hn as ([k' x'] & <- & Hin).
      rewrite Forall_forall in Hk. exact (Hk _ Hin).
    + intros H. specialize (IH HF' found H).
      assert (Hout : ~ 1 <= k <= 1000).
      { intros [H1 H2]. apply Z.leb_le in H1. apply Z.leb_le in H2.
        rewrite H1, H2 in Hr. discriminate Hr. }
      destruct found as [q |].
      * destruct IH as (Hq & Hin & Hmax).
        split; [exact Hq |]. split; [now right |].
        intros n [<- | Hn] Hrange; [now elim Hout | now apply Hmax].
      * intros n [<- | Hn]; [exact Hout | now apply IH].
Qed.

(** X4: when no number of the text is anchored to a unit or form word,
    the quantity is the largest standalone number between 1 and 1000,
    and 30 when there is none. *)
Theorem fallback_quantity_is_largest_reasonable :
  forall (text : string) (q : Z),
    search true quantity_pattern text = None ->
    search true simple_quantity text = None ->
    _extract_quantity text = Returned q ->
    1 <= q <= 1000 /\
    (forall n, standalone_value text n -> 1 <= n <= 1000 -> n <= q) /\
    (standalone_value text q \/
     q = 30 /\ forall n, standalone_value text n -> ~ 1 <= n <= 1000).
Proof.
  intros text q H1 H2. unfold _extract_quantity. rewrite H1, H2.
  destruct (mapM _ _) as [keyed | e] eqn:Hk; cbn [bind]; [| discriminate].
  destruct (keyed_numbers _ _ Hk) as [HF Hnum].
  set (sorted := sorted_desc fst keyed).
  assert (Hperm : Permutation sorted keyed) by apply sorted_desc_perm.
  assert (HFs : Forall (fun kx => int_of_str (snd kx) = Returned (fst kx))
                       sorted)
    by (eapply Permutation_Forall; [symmetry; exact Hperm | exact HF]).
  assert (Hval : forall n, standalone_value text n <-> In n (map fst sorted)).
  { intros n. unfold standalone_value. rewrite <- Hnum. split.
    - intros (s & Hs & Hn). apply in_map_iff in Hs.
      destruct Hs as ([k x] & <- & Hin). cbn [snd] in Hn.
      rewrite Forall_forall in HF. pose proof (HF _ Hin) as Hx.
      cbn [fst snd] in Hx. rewrite Hx in Hn. injection Hn as <-.
      apply in_map_iff. exists (k, x). split; [reflexivity |].
      eapply Permutation_in; [symmetry; exact Hperm | exact Hin].
    - intros Hin. apply in_map_iff in Hin.
      destruct Hin as ([k x] & <- & Hin). exists x. split.
      + apply in_map_iff. exists (k, x). split; [reflexivity |].
        eapply Permutation_in; [exact Hperm | exact Hin].
      + rewrite Forall_forall in HFs. exact (HFs _ Hin). }
  destruct (first_reasonable (map snd sorted)) as [found | e] eqn:Hf;
    cbn [bind]; [| discriminate].
  pose proof (first_reasonable_largest sorted HFs
                (sorted_desc_sorted fst keyed) found Hf) as Hfound.
  destruct found as [num |]; intros H; injection H as <-.
  - destruct Hfound as (Hr & Hin & Hmax). split; [exact Hr |]. split.
    + intros n Hn. apply Hmax. now apply Hval.
    + left. now apply Hval.
  - split; [lia |]. split.
    + intros n Hn Hr. apply Hval in Hn. now elim (Hfound n Hn).
    + right. split; [reflexivity |].
      intros n Hn. apply Hfound. now apply Hval.
Qed.

Lemma fallback_quantity_is_largest_reasonable_witness :
  _extract_quantity "Need 1001 5 12 7 items" = Returned 12 /\
  (forall n, standalone_value "Need 1001 5 12 7 items" n ->
             1 <= n <= 1000 -> n <= 12).
Proof.
  split; [vm_compute; reflexivity |].
  apply (fallback_quantity_is_largest_reasonable
           "Need 1001 5 12 7 items" 12);
    vm_compute; reflexivity.
Defined.

End ParserExtra.

(* ================================================================== *)
(** * What a match of the matcher is *)

Module MatchProps.
Import Py Re MatchSpec.

(** ** Strings *)

Lemma append_assoc (a b c : string) : (a ++ b) ++ c = a ++ (b ++ c).
Proof. induction a as [| x a IH]; simpl; [reflexivity | now rewrite IH]. Qed.

Lemma append_nil_r (a : string) : a ++ "" = a.
Proof. induction a as [| x a IH]; simpl; [reflexivity | now rewrite IH]. Qed.

Lemma length_append (a b : string) :
  String.length (a ++ b) = (String.length a + String.length b)%nat.
Proof. induction a as [| x a IH]; simpl; [reflexivity | now rewrite IH]. Qed.

Lemma substring_prefix (l post : string) :
  substring 0 (String.length l) (l ++ post) = l.
Proof.
  induction l as [| x l IH]; simpl.
  - destruct post; reflexivity.
  - now rewrite IH.
Qed.

Lemma substring_middle (before l post : string) :
  substring (String.length before) (String.length l) (before ++ l ++ post)
  = l.
Proof.
  induction before as [| x before IH]; simpl.
  - apply substring_prefix.
  - exact IH.
Qed.

Lemma length_substring_le (n m : nat) (s : string) :
  (String.length (substring n m s) <= String.length s)%nat.
Proof.
  revert n m. induction s as [| x s IH]; intros [| n] [| m]; simpl;
    try lia.
  - specialize (IH 0%nat m). lia.
  - specialize (IH n 0%nat). lia.
  - specialize (IH n (S m)). lia.
Qed.

(** ** Cursors *)

Lemma at_start_cursor_of (subject : string) :
  cursor_of subject (at_start subject).
Proof. exists "". split; reflexivity. Qed.

Lemma advance_cursor_of (subject : string) (c c' : cursor) (x : ascii) :
  cursor_of subject c -> advance c = Some (x, c') -> cursor_of subject c'.
Proof.
  intros (before & Hs & Hp). unfold advance.
  destruct (rest c) as [| y s'] eqn:Hr; [discriminate |].
  intros H. injection H as <- <-.
  exists (before ++ String y ""). simpl. split.
  - rewrite append_assoc. exact Hs.
  - rewrite length_append. simpl. lia.
Qed.

Lemma advance_span (c c' : cursor) (x : ascii) :
  advance c = Some (x, c') -> span c c' (String x "").
Proof.
  unfold advance, span. destruct (rest c) as [| y s']; [discriminate |].
  intros H. injection H as <- <-. simpl. split; [reflexivity | lia].
Qed.

Lemma span_slice (subject : string) (c c' : cursor) (l : string) :
  cursor_of subject c -> span c c' l ->
  slice subject (pos c) (pos c') = l.
Proof.
  intros (before & Hs & Hp) (Hr & Hp'). unfold slice.
  rewrite Hp', Hp, Hs, Hr.
  replace (N.to_nat (N.of_nat (String.length before)
                     + N.of_nat (String.length l)
                     - N.of_nat (String.length before)))
    with (String.length l) by lia.
  rewrite Nat2N.id. apply substring_middle.
Qed.

Lemma slice_length_le (subject : string) (from to : N) :
  (String.length (slice subject from to) <= String.length subject)%nat.
Proof. apply length_substring_le. Qed.

(** ** The matcher finds only matches of the relation *)

Section Sound.
Variable ic : bool.
Variable b : nat.

Lemma star_loop_sound (A : Type) (r : regex)
    (k : cursor -> captures -> option A) :
  (forall c g K a,
      run ic b A r c g K = Some a ->
      exists c' g', steps ic r c g c' g' /\ K c' g' = Some a) ->
  forall f c g a,
    star_loop A (run ic b A r) k f c g = Some a ->
    exists c' g', steps ic (Star r) c g c' g' /\ k c' g' = Some a.
Proof.
  intros Hr. induction f as [| f IH]; intros c g a; cbn [star_loop].
  - intros H. exists c, g. split; [constructor | exact H].
  - destruct (run ic b A r c g _) as [a' |] eqn:E.
    + intros H. injection H as <-.
      destruct (Hr _ _ _ _ E) as (c1 & g1 & Hs & HK).
      destruct (pos c <? pos c1)%N; [| discriminate].
      destruct (IH _ _ _ HK) as (c2 & g2 & Hs2 & Hk).
      exists c2, g2. split; [| exact Hk].
      eapply steps_star_more; eassumption.
    + intros H. exists c, g. split; [constructor | exact H].
Qed.

Lemma run_sound (r : regex) :
  forall (A : Type) (c : cursor) (g : captures)
         (k : cursor -> captures -> option A) (a : A),
    run ic b A r c g k = Some a ->
    exists c' g', steps ic r c g c' g' /\ k c' g' = Some a.
Proof.
  induction r as [| ch | p | r1 IH1 r2 IH2 | r1 IH1 r2 IH2 | r1 IH1
                 | i r1 IH1 | | r1 IH1 |];
    intros A c g k a; cbn [run].
  - intros H. exists c, g. split; [constructor | exact H].
  - destruct (advance c) as [[x c'] |] eqn:E; [| discriminate].
    destruct (same_char ic ch x) eqn:Hc; [| discriminate].
    intros H. exists c', g. split; [| exact H].
    eapply steps_lit; eassumption.
  - destruct (advance c) as [[x c'] |] eqn:E; [| discriminate].
    destruct (p x) eqn:Hc; [| discriminate].
    intros H. exists c', g. split; [| exact H].
    eapply steps_class; eassumption.
  - intros H. destruct (IH1 _ _ _ _ _ H) as (c1 & g1 & Hs1 & H1).
    destruct (IH2 _ _ _ _ _ H1) as (c2 & g2 & Hs2 & H2).
    exists c2, g2. split; [| exact H2].
    eapply steps_seq; eassumption.
  - destruct (run ic b A r1 c g k) as [a' |] eqn:E.
    + intros H. injection H as <-.
      destruct (IH1 _ _ _ _ _ E) as (c1 & g1 & Hs1 & H1).
      exists c1, g1. split; [now apply steps_alt_l | exact H1].
    + intros H. destruct (IH2 _ _ _ _ _ H) as (c1 & g1 & Hs1 & H1).
      exists c1, g1. split; [now apply steps_alt_r | exact H1].
  - apply star_loop_sound. intros c0 g0 K a0. apply IH1.
  - intros H. destruct (IH1 _ _ _ _ _ H) as (c1 & g1 & Hs1 & H1).
    exists c1, ((i, (pos c, pos c1)) :: g1). split; [| exact H1].
    now constructor.
  - destruct (at_boundary c) eqn:E; [| discriminate].
    intros H. exists c, g. split; [now constructor | exact H].
  - destruct (run ic b captures r1 c g _) as [g1 |] eqn:E; [| discriminate].
    intros H. destruct (IH1 _ _ _ _ _ E) as (c1 & g1' & Hs1 & H1).
    injection H1 as ->. exists c, g1. split; [| exact H].
    eapply steps_ahead; eassumption.
  - discriminate.
Qed.

Lemma steps_cursor_of (subject : string) (r : regex) (c c' : cursor)
    (g g' : captures) :
  steps ic r c g c' g' -> cursor_of subject c -> cursor_of subject c'.
Proof.
  induction 1; intros Hc; auto.
  - eapply advance_cursor_of; eassumption.
  - eapply advance_cursor_of; eassumption.
Qed.

Lemma match_at_sound (subject : string) (r : regex) (c : cursor)
    (m : rmatch) :
  cursor_of subject c -> match_at ic b r c = Some m -> found_in ic subject r m.
Proof.
  intros Hc H. unfold match_at in H.
  destruct (run_sound r _ _ _ _ _ H) as (c' & g' & Hs & Hk).
  injection Hk as <-. exists c. simpl. auto.
Qed.

Lemma scan_sound (subject : string) (r : regex) (s : string) :
  forall (p : N) (pv : option ascii) (m : rmatch),
    cursor_of subject (Cursor p pv s) ->
    scan ic b r p pv s = Some m -> found_in ic subject r m.
Proof.
  induction s as [| x s IH]; intros p pv m Hc; cbn [scan].
  - destruct (match_at ic b r _) as [m' |] eqn:E; [| discriminate].
    intros H. injection H as <-. eapply match_at_sound; eassumption.
  - destruct (match_at ic b r _) as [m' |] eqn:E.
    + intros H. injection H as <-. eapply match_at_sound; eassumption.
    + apply IH.
      apply (advance_cursor_of subject (Cursor p pv (String x s)) _ x Hc).
      reflexivity.
Qed.

Lemma found_in_end (subject : string) (r : regex) (m : rmatch) :
  found_in ic subject r m -> cursor_of subject (m_end m).
Proof.
  intros (c & Hc & _ & Hs). eapply steps_cursor_of; eassumption.
Qed.

Lemma matches_from_sound (subject : string) (r : regex) :
  forall (f : nat) (c : cursor),
    cursor_of subject c ->
    Forall (found_in ic subject r) (matches_from ic b f r c).
Proof.
  induction f as [| f IH]; intros c Hc; cbn [matches_from];
    [constructor |].
  unfold scan_from.
  destruct (scan ic b r (pos c) (prev c) (rest c)) as [m |] eqn:E;
    [| constructor].
  assert (Hm : found_in ic subject r m).
  { eapply scan_sound; [| exact E]. now destruct c. }
  pose proof (found_in_end _ _ _ Hm) as He.
  destruct (m_start m <? pos (m_end m))%N.
  - constructor; [exact Hm | now apply IH].
  - destruct (advance (m_end m)) as [[x c'] |] eqn:Ea.
    + constructor; [exact Hm |]. apply IH.
      eapply advance_cursor_of; eassumption.
    + now repeat constructor.
Qed.
End Sound.

Lemma search_sound (ic : bool) (r : regex) (subject : string) (m : rmatch) :
  search ic r subject = Some m -> found_in ic subject r m.
Proof.
  unfold search, scan_from. apply scan_sound. apply at_start_cursor_of.
Qed.

Lemma finditer_sound (ic : bool) (r : regex) (subject : string) :
  Forall (found_in ic subject r) (finditer ic r subject).
Proof.
  unfold finditer. apply matches_from_sound. apply at_start_cursor_of.
Qed.

(** ** Captures *)

Lemma steps_captures (ic : bool) (r : regex) (c c' : cursor)
    (g g' : captures) :
  steps ic r c g c' g' ->
  exists added,
    g' = (added ++ g)%list /\
    Forall (fun e => In (fst e) (groups_of r)) added.
Proof.
  induction 1; cbn [groups_of];
    try (exists []; split; [reflexivity | constructor]).
  - destruct IHsteps1 as (a1 & -> & H1), IHsteps2 as (a2 & -> & H2).
    exists (a2 ++ a1)%list. split; [now rewrite app_assoc |].
    apply Forall_app. split; eapply Forall_impl; try eassumption;
      intros e He; apply in_or_app; auto.
  - destruct IHsteps as (a1 & -> & H1). exists a1. split; [reflexivity |].
    eapply Forall_impl; [| exact H1]. intros e He. apply in_or_app; auto.
  - destruct IHsteps as (a1 & -> & H1). exists a1. split; [reflexivity |].
    eapply Forall_impl; [| exact H1]. intros e He. apply in_or_app; auto.
  - destruct IHsteps1 as (a1 & -> & H1), IHsteps2 as (a2 & -> & H2).
    exists (a2 ++ a1)%list. split; [now rewrite app_assoc |].
    apply Forall_app. split; assumption.
  - destruct IHsteps as (a1 & -> & H1).
    exists ((n, (pos c, pos c')) :: a1). split; [reflexivity |].
    constructor; [now left |].
    eapply Forall_impl; [| exact H1]. intros e He. now right.
  - destruct IHsteps as (a1 & -> & H1). now exists a1.
Qed.

Lemma lookup_app_other (n : nat) (added g : captures) :
  Forall (fun e => fst e <> n) added ->
  lookup n (added ++ g)%list = lookup n g.
Proof.
  induction 1 as [| [i sp] added Hi Hadded IH]; simpl; [reflexivity |].
  simpl in Hi. destruct (Nat.eqb i n) eqn:E; [| exact IH].
  apply Nat.eqb_eq in E. now elim Hi.
Qed.

(** A pattern leaves the groups it does not contain as they are. *)
Lemma steps_lookup_other (ic : bool) (r : regex) (c c' : cursor)
    (g g' : captures) (n : nat) :
  steps ic r c g c' g' -> ~ In n (groups_of r) ->
  lookup n g' = lookup n g.
Proof.
  intros Hs Hn. destruct (steps_captures _ _ _ _ _ _ Hs) as (added & -> & Ha).
  apply lookup_app_other. eapply Forall_impl; [| exact Ha].
  intros e He E. apply Hn. now rewrite <- E.
Qed.

(** ** Reading a match back *)

Lemma steps_class_inv (ic : bool) (p : ascii -> bool) (c c' : cursor)
    (g g' : captures) :
  steps ic (Class p) c g c' g' ->
  g' = g /\ exists x, advance c = Some (x, c') /\ p x = true.
Proof. inversion 1; subst. eauto. Qed.

Lemma steps_seq_inv (ic : bool) (r1 r2 : regex) (c c2 : cursor)
    (g g2 : captures) :
  steps ic (Seq r1 r2) c g c2 g2 ->
  exists c1 g1, steps ic r1 c g c1 g1 /\ steps ic r2 c1 g1 c2 g2.
Proof. inversion 1; subst. eauto. Qed.

Lemma steps_group_inv (ic : bool) (n : nat) (r : regex) (c c' : cursor)
    (g g' : captures) :
  steps ic (Group n r) c g c' g' ->
  exists g0, g' = (n, (pos c, pos c')) :: g0 /\ steps ic r c g c' g0.
Proof. inversion 1; subst. eauto. Qed.

Lemma steps_wordb_inv (ic : bool) (c c' : cursor) (g g' : captures) :
  steps ic WordB c g c' g' -> c' = c /\ g' = g.
Proof. inversion 1; subst. auto. Qed.

(** ** Runs of digits *)

Lemma span_trans (c c1 c2 : cursor) (l1 l2 : string) :
  span c c1 l1 -> span c1 c2 l2 -> span c c2 (l1 ++ l2).
Proof.
  intros (Hr1 & Hp1) (Hr2 & Hp2). split.
  - rewrite Hr1, Hr2. symmetry. apply append_assoc.
  - rewrite length_append. lia.
Qed.

Lemma steps_star_class (ic : bool) (p : ascii -> bool) (c c' : cursor)
    (g g' : captures) :
  steps ic (Star (Class p)) c g c' g' ->
  g' = g /\ exists l, span c c' l /\ forall_str p l = true.
Proof.
  remember (Star (Class p)) as r eqn:Hr. intros H.
  induction H; try discriminate Hr.
  - split; [reflexivity |]. exists "". repeat split. simpl. lia.
  - injection Hr as ->.
    destruct (steps_class_inv _ _ _ _ _ _ H) as (-> & x & Hx & Hpx).
    destruct (IHsteps2 eq_refl) as (-> & l & Hl & Hp).
    split; [reflexivity |]. exists (String x l). split.
    + apply (span_trans c c1 c2 (String x "") l); [| exact Hl].
      now apply advance_span.
    + simpl. now rewrite Hpx, Hp.
Qed.

Lemma steps_digits (ic : bool) (c c' : cursor) (g g' : captures) :
  steps ic (Plus (Class is_digit)) c g c' g' ->
  g' = g /\ exists l, span c c' l /\ is_number l.
Proof.
  unfold Plus. intros H.
  destruct (steps_seq_inv _ _ _ _ _ _ _ H) as (c1 & g1 & H1 & H2).
  destruct (steps_class_inv _ _ _ _ _ _ H1) as (-> & x & Hx & Hpx).
  destruct (steps_star_class _ _ _ _ _ _ H2) as (-> & l & Hl & Hp).
  split; [reflexivity |]. exists (String x l). split.
  - apply (span_trans c c1 c' (String x "") l); [| exact Hl].
    now apply advance_span.
  - split; [discriminate |]. simpl. now rewrite Hpx, Hp.
Qed.

(** The first group of a pattern that starts with a group of digits,
    after an optional word boundary, is a number of the subject. *)
Lemma group1_is_number (ic : bool) (subject : string) (tail : regex)
    (m : rmatch) :
  ~ In 1%nat (groups_of tail) ->
  found_in ic subject (Seq (Group 1 (Plus (Class is_digit))) tail) m \/
  found_in ic subject
    (Seq WordB (Seq (Group 1 (Plus (Class is_digit))) tail)) m ->
  exists l, group subject m 1 = Some l /\ is_number l /\
            (String.length l <= String.length subject)%nat.
Proof.
  intros Hn H.
  assert (H' : exists c, cursor_of subject c /\
                 steps ic (Seq (Group 1 (Plus (Class is_digit))) tail)
                       c [] (m_end m) (m_groups m)).
  { destruct H as [(c & Hc & _ & Hs) | (c & Hc & _ & Hs)].
    - now exists c.
    - destruct (steps_seq_inv _ _ _ _ _ _ _ Hs) as (c1 & g1 & H1 & H2).
      destruct (steps_wordb_inv _ _ _ _ _ H1) as (-> & ->).
      now exists c. }
  destruct H' as (c & Hc & Hs).
  destruct (steps_seq_inv _ _ _ _ _ _ _ Hs) as (c1 & g1 & H1 & H2).
  destruct (steps_group_inv _ _ _ _ _ _ _ H1) as (g0 & -> & H0).
  destruct (steps_digits _ _ _ _ _ H0) as (-> & l & Hl & Hnum).
  exists l. unfold group.
  rewrite (steps_lookup_other _ _ _ _ _ _ 1%nat H2 Hn). cbn [lookup Nat.eqb].
  pose proof (span_slice subject c c1 l Hc Hl) as Hsl.
  rewrite Hsl. split; [reflexivity |]. split; [exact Hnum |].
  rewrite <- Hsl. apply slice_length_le.
Qed.

End MatchProps.

(* ================================================================== *)
(** * The exceptions of the parser *)

Module ParserTotality.
Import Py Re MedicineParser ExtraSpec MatchSpec MatchProps.

(** ** Words *)

Lemma string_of_list_ascii_nonempty (l : list ascii) :
  l <> [] -> string_of_list_ascii l <> "".
Proof. destruct l; [easy | discriminate]. Qed.

Lemma split_ws_nonempty (s : string) :
  forall cur, Forall (fun w => w <> "") (split_ws cur s).
Proof.
  assert (Hflush : forall cur : list ascii,
             Forall (fun w => w <> "")
               match cur with
               | [] => []
               | _ => [string_of_list_ascii (rev cur)]
               end).
  { intros [| x cur]; constructor; [| constructor].
    apply string_of_list_ascii_nonempty. simpl.
    intros E. apply app_eq_nil in E. destruct E as [_ E]. discriminate E. }
  induction s as [| c s IH]; intros cur; cbn [split_ws].
  - apply Hflush.
  - destruct (is_space c); [| apply IH].
    apply Forall_app. split; [apply Hflush | apply IH].
Qed.

Lemma candidate_word_returns (words : list string) :
  Forall (fun w => w <> "") words ->
  exists o, candidate_word words = Returned o.
Proof.
  induction 1 as [| word words Hw Hwords IH]; cbn [candidate_word].
  - now exists None.
  - destruct word as [| first word]; [now elim Hw |].
    destruct (is_upper first || _); [| exact IH].
    destruct (2 <? _)%nat; [| exact IH].
    eexists. reflexivity.
Qed.

Lemma extract_medicine_name_returns (text : string) :
  exists o, _extract_medicine_name text = Returned o.
Proof.
  unfold _extract_medicine_name.
  destruct (first_entry _ _) as [n |]; [now exists (Some n) |].
  apply candidate_word_returns. apply split_ws_nonempty.
Qed.

(** ** Dosage *)

Lemma extract_dosage_returns (text : string) :
  exists d, _extract_dosage text = Returned d.
Proof.
  unfold _extract_dosage.
  destruct (search true dosage_pattern text) as [m |] eqn:E;
    [| now exists None].
  apply search_sound in E. destruct E as (c & Hc & _ & Hs).
  unfold dosage_pattern in Hs.
  destruct (steps_seq_inv _ _ _ _ _ _ _ Hs) as (c1 & g1 & H1 & H2).
  destruct (steps_group_inv _ _ _ _ _ _ _ H1) as (g0 & -> & _).
  destruct (steps_seq_inv _ _ _ _ _ _ _ H2) as (c2 & g2 & H3 & H4).
  destruct (steps_group_inv _ _ _ _ _ _ _ H4) as (g3 & Hg & H5).
  assert (L1 : lookup 1 (m_groups m) = Some (pos c, pos c1)).
  { rewrite Hg. cbn [lookup Nat.eqb].
    rewrite (steps_lookup_other _ _ _ _ _ _ 1%nat H5)
      by (vm_compute; tauto).
    rewrite (steps_lookup_other _ _ _ _ _ _ 1%nat H3)
      by (vm_compute; tauto).
    reflexivity. }
  assert (L2 : lookup 2 (m_groups m) = Some (pos c2, pos (m_end m))).
  { rewrite Hg. reflexivity. }
  unfold group. rewrite L1, L2. eexists. reflexivity.
Qed.

(** ** Numbers *)

Lemma int_of_str_only_value_error (s : string) :
  raises_only_value_error (int_of_str s).
Proof.
  unfold raises_only_value_error, int_of_str. intros e.
  destruct s; [now intros [= <-] |].
  destruct (negb _); [now intros [= <-] |].
  destruct (_ <? _)%N; [now intros [= <-] | discriminate].
Qed.

Lemma int_of_str_number (l : string) :
  is_number l -> (String.length l <= 4300)%nat ->
  exists n, int_of_str l = Returned n.
Proof.
  intros [Hne Hd] Hlen. unfold int_of_str.
  destruct l as [| c l]; [now elim Hne |].
  rewrite Hd. cbn [negb].
  replace (int_max_str_digits <? N.of_nat (String.length (String c l)))%N
    with false; [eexists; reflexivity |].
  symmetry. apply N.ltb_ge. unfold int_max_str_digits. lia.
Qed.

Lemma quantity_pattern_group1 (text : string) (m : rmatch) :
  search true quantity_pattern text = Some m ->
  exists l, group text m 1 = Some l /\ is_number l /\
            (String.length l <= String.length text)%nat.
Proof.
  intros E. apply search_sound in E.
  eapply group1_is_number; [| left; exact E]. vm_compute. intuition congruence.
Qed.

Lemma simple_quantity_group1 (text : string) (m : rmatch) :
  search true simple_quantity text = Some m ->
  exists l, group text m 1 = Some l /\ is_number l /\
            (String.length l <= String.length text)%nat.
Proof.
  intros E. apply search_sound in E.
  eapply group1_is_number; [| right; exact E]. vm_compute. tauto.
Qed.

Lemma standalone_numbers (text : string) :
  Forall (fun l => is_number l /\
                   (String.length l <= String.length text)%nat)
         (findall1 false standalone_number text).
Proof.
  unfold findall1.
  pose proof (finditer_sound false standalone_number text) as HF.
  induction HF as [| m ms Hm Hms IH]; cbn [flat_map]; [constructor |].
  apply Forall_app. split; [| exact IH].
  destruct (group1_is_number false text WordB m) as (l & Hl & Hn & Hlen).
  - vm_compute. tauto.
  - right. exact Hm.
  - rewrite Hl. constructor; [split; assumption | constructor].
Qed.

Lemma int_group1_only_value_error (text : string) (m : rmatch) (l : string) :
  group text m 1 = Some l -> raises_only_value_error (int_group1 text m).
Proof.
  intros Hl. unfold int_group1. rewrite Hl. apply int_of_str_only_value_error.
Qed.

Lemma mapM_keyed_only_value_error (numbers : list string) :
  raises_only_value_error
    (mapM (fun x => k <- int_of_str x;; Returned (k, x)) numbers).
Proof.
  unfold raises_only_value_error.
  induction numbers as [| x numbers IH]; intros e; cbn [mapM];
    [discriminate |].
  destruct (int_of_str x) as [k | e'] eqn:Hx; cbn [bind].
  - destruct (mapM _ numbers) as [ks | e'']; cbn [bind]; [discriminate |].
    intros H. injection H as <-. now apply IH.
  - intros H. injection H as <-.
    now apply (int_of_str_only_value_error x).
Qed.

Lemma first_reasonable_only_value_error (numbers : list string) :
  raises_only_value_error (first_reasonable numbers).
Proof.
  unfold raises_only_value_error.
  induction numbers as [| x numbers IH]; intros e; cbn [first_reasonable];
    [discriminate |].
  destruct (int_of_str x) as [k | e'] eqn:Hx; cbn [bind].
  - destruct (_ && _); [discriminate | apply IH].
  - intros H. injection H as <-.
    now apply (int_of_str_only_value_error x).
Qed.

Lemma extract_quantity_only_value_error (text : string) :
  raises_only_value_error (_extract_quantity text).
Proof.
  unfold _extract_quantity.
  destruct (search true quantity_pattern text) as [m |] eqn:E1.
  { destruct (quantity_pattern_group1 _ _ E1) as (l & Hl & _).
    eapply int_group1_only_value_error; eassumption. }
  destruct (search true simple_quantity text) as [m |] eqn:E2.
  { destruct (simple_quantity_group1 _ _ E2) as (l & Hl & _).
    eapply int_group1_only_value_error; eassumption. }
  intros e.
  destruct (mapM _ _) as [keyed | e'] eqn:Hk; cbn [bind].
  - destruct (first_reasonable _) as [[num |] | e''] eqn:Hf; cbn [bind];
      try discriminate.
    intros H. injection H as <-.
    now apply (first_reasonable_only_value_error _ _ Hf).
  - intros H. injection H as <-.
    now apply (mapM_keyed_only_value_error _ _ Hk).
Qed.

Lemma mapM_keyed_returns (numbers : list string) :
  Forall (fun l => exists n, int_of_str l = Returned n) numbers ->
  exists keyed,
    mapM (fun x => k <- int_of_str x;; Returned (k, x)) numbers
    = Returned keyed.
Proof.
  induction 1 as [| x numbers (n & Hx) Hnum (keyed & IH)]; cbn [mapM].
  - eexists. reflexivity.
  - rewrite Hx. cbn [bind]. rewrite IH. cbn [bind]. eexists. reflexivity.
Qed.

Lemma first_reasonable_returns (numbers : list string) :
  Forall (fun l => exists n, int_of_str l = Returned n) numbers ->
  exists found, first_reasonable numbers = Returned found.
Proof.
  induction 1 as [| x numbers (n & Hx) Hnum IH]; cbn [first_reasonable].
  - eexists. reflexivity.
  - rewrite Hx. cbn [bind]. destruct (_ && _); [eexists; reflexivity |].
    exact IH.
Qed.

Lemma extract_quantity_returns (text : string) :
  (String.length text <= 4300)%nat ->
  exists q, _extract_quantity text = Returned q.
Proof.
  intros Hlen. unfold _extract_quantity.
  destruct (search true quantity_pattern text) as [m |] eqn:E1.
  { destruct (quantity_pattern_group1 _ _ E1) as (l & Hl & Hn & Hle).
    unfold int_group1. rewrite Hl. apply int_of_str_number; [exact Hn | lia]. }
  destruct (search true simple_quantity text) as [m |] eqn:E2.
  { destruct (simple_quantity_group1 _ _ E2) as (l & Hl & Hn & Hle).
    unfold int_group1. rewrite Hl. apply int_of_str_number; [exact Hn | lia]. }
  assert (Hnums : Forall (fun l => exists n, int_of_str l = Returned n)
                         (findall1 false standalone_number text)).
  { eapply Forall_impl; [| apply standalone_numbers].
    intros l [Hn Hle]. apply int_of_str_number; [exact Hn | lia]. }
  destruct (mapM_keyed_returns _ Hnums) as (keyed & Hk). rewrite Hk.
  cbn [bind].
  destruct (ParserExtra.keyed_numbers _ _ Hk) as [HF Hmap].
  assert (Hsorted : Forall (fun l => exists n, int_of_str l = Returned n)
                           (map snd (sorted_desc fst keyed))).
  { apply Forall_forall. intros l Hin. apply in_map_iff in Hin.
    destruct Hin as ([k x] & <- & Hin).
    apply (Permutation_in _ (ParserExtra.sorted_desc_perm fst keyed)) in Hin.
    rewrite Forall_forall in HF. specialize (HF _ Hin). now exists k. }
  destruct (first_reasonable_returns _ Hsorted) as (found & Hf).
  rewrite Hf. cbn [bind]. destruct found; eexists; reflexivity.
Qed.

(** ** Segments *)

Lemma lstrip_length (s : string) :
  (String.length (lstrip s) <= String.length s)%nat.
Proof.
  induction s as [| c s IH]; cbn [lstrip]; [lia |].
  destruct (is_space c); simpl; lia.
Qed.

Lemma rstrip_length (s : string) :
  (String.length (rstrip s) <= String.length s)%nat.
Proof.
  induction s as [| c s IH]; cbn [rstrip]; [lia |].
  destruct (rstrip s) as [| x t].
  - destruct (is_space c); simpl; lia.
  - simpl in *. lia.
Qed.

Lemma strip_length (s : string) :
  (String.length (strip s) <= String.length s)%nat.
Proof.
  unfold strip. pose proof (rstrip_length (lstrip s)).
  pose proof (lstrip_length s). lia.
Qed.

Lemma pieces_length (subject : string) (ms : list rmatch) :
  forall from,
    Forall (fun piece =>
              (String.length piece <= String.length subject)%nat)
           (pieces subject from ms).
Proof.
  induction ms as [| m ms IH]; intros from; cbn [pieces].
  - constructor; [apply slice_length_le | constructor].
  - constructor; [apply slice_length_le | apply IH].
Qed.

Lemma parse_segments_only_value_error (segments : list string) :
  raises_only_value_error (parse_segments segments).
Proof.
  unfold raises_only_value_error.
  induction segments as [| segment segments IH]; intros e;
    cbn [parse_segments]; [discriminate |].
  destruct (String.length (strip segment) <? 3)%nat; [apply IH |].
  destruct (extract_medicine_name_returns (strip segment)) as (o & ->).
  cbn [bind]. destruct o as [[| c n] |]; try apply IH.
  destruct (extract_dosage_returns (strip segment)) as (d & ->).
  cbn [bind].
  destruct (_extract_quantity (strip segment)) as [q | e'] eqn:Hq;
    cbn [bind].
  - destruct (parse_segments segments) as [meds | e'']; cbn [bind];
      [discriminate |].
    intros H. injection H as <-. now apply IH.
  - intros H. injection H as <-.
    now apply (extract_quantity_only_value_error _ _ Hq).
Qed.

Lemma parse_segments_returns (segments : list string) :
  Forall (fun segment => (String.length segment <= 4300)%nat) segments ->
  exists meds, parse_segments segments = Returned meds.
Proof.
  induction 1 as [| segment segments Hlen Hsegs IH]; cbn [parse_segments].
  - eexists. reflexivity.
  - destruct (String.length (strip segment) <? 3)%nat; [exact IH |].
    destruct (extract_medicine_name_returns (strip segment)) as (o & ->).
    cbn [bind]. destruct o as [[| c n] |]; try exact IH.
    destruct (extract_dosage_returns (strip segment)) as (d & ->).
    cbn [bind].
    destruct (extract_quantity_returns (strip segment)) as (q & ->).
    { pose proof (strip_length segment). lia. }
    cbn [bind]. destruct IH as (meds & ->). cbn [bind].
    eexists. reflexivity.
Qed.

(** X5: whatever the message, the only exception [parse_message] can
    raise is [ValueError] (from the conversion of a number): no word is
    indexed when empty, and every group that is read took part in its
    match. *)
Theorem parse_message_raises_only_value_error :
  forall (message : string) (e : exn),
    parse_message message = Raised e -> e = ValueError.
Proof.
  intros message e. unfold parse_message.
  destruct (is_greeting (lower message)); [discriminate |].
  destruct (parse_segments _) as [meds | e'] eqn:Hs; cbn [bind];
    [discriminate |].
  intros H. injection H as <-.
  now apply (parse_segments_only_value_error _ _ Hs).
Qed.

Lemma parse_message_raises_only_value_error_witness :
  exists e,
    parse_message ("Aspirin 500mg " ++ repeat "9" 4301 ++ " tablets")
      = Raised e /\
    e = ValueError.
Proof.
  destruct (parse_message ("Aspirin 500mg " ++ repeat "9" 4301 ++ " tablets"))
    as [r | e] eqn:H; [vm_compute in H; discriminate H |].
  exists e. split; [reflexivity |].
  exact (parse_message_raises_only_value_error _ e H).
Defined.

(** X6: on a message of at most 4300 characters [parse_message] raises
    nothing and returns a result. *)
Theorem parse_message_returns_on_short_messages :
  forall message : string,
    (String.length message <= 4300)%nat ->
    exists r, parse_message message = Returned r.
Proof.
  intros message Hlen. unfold parse_message.
  destruct (is_greeting (lower message)); [eexists; reflexivity |].
  destruct (parse_segments_returns
              (Re.split false separator_pattern message)) as (meds & ->).
  - unfold Re.split. eapply Forall_impl; [| apply pieces_length].
    cbv beta. intros piece Hp. lia.
  - cbn [bind]. eexists. reflexivity.
Qed.

Lemma parse_message_returns_on_short_messages_witness :
  exists r, parse_message "2 strips of Brufen 400 mg, also Vit C" = Returned r.
Proof.
  apply parse_message_returns_on_short_messages. simpl. lia.
Defined.

End ParserTotality.

(* ================================================================== *)
(** * Further properties of the forecaster *)

Module ForecastExtra.
Import Py F Datetime Forecast ForecastSpec ForecastExtraSpec.

(** ** A returned prediction, field by field *)

Lemma predict_some_record (s : Settings) (today : Z) (u m : string)
    (h : list Order) (p : Prediction) :
  predict_depletion s today u m h = Returned (Some p) ->
  exists last delta depl sugg sq,
    iloc_last (sort_values h) = Returned last /\
    timedelta_days
      (fdiv (of_Z (quantity last))
            (_calculate_consumption_rate (sort_values h))) = Returned delta /\
    date_add (order_date last) delta = Returned depl /\
    date_add depl (-7) = Returned sugg /\
    to_int (mean (quantities (tail 3 (sort_values h)))) = Returned sq /\
    p = {| user_id := u;
           medicine_id := m;
           medicine_name := get_medicine_name (sort_values h) last;
           average_consumption_rate :=
             round2 (_calculate_consumption_rate (sort_values h));
           last_order_date := order_date last;
           last_order_quantity := quantity last;
           predicted_depletion_date := depl;
           suggested_reorder_date := Z.max sugg today;
           suggested_quantity := sq;
           confidence :=
             _get_confidence_level s (_calculate_confidence (sort_values h));
           confidence_score := round2 (_calculate_confidence (sort_values h));
           historical_data := h |}.
Proof.
  unfold predict_depletion, predict_depletion_body.
  destruct (_ <? _); [discriminate |].
  destruct h as [| o l]; [discriminate |].
  destruct (fle _ _); [discriminate |].
  destruct (iloc_last _) as [last |] eqn:Hlast; [| discriminate].
  cbn [bind].
  destruct (timedelta_days _) as [delta |] eqn:Hdelta; [| discriminate].
  cbn [bind].
  destruct (date_add _ delta) as [depl |] eqn:Hdepl; [| discriminate].
  cbn [bind].
  destruct (date_add depl _) as [sugg |] eqn:Hsugg; [| discriminate].
  cbn [bind].
  destruct (to_int _) as [sq |] eqn:Hsq; [| discriminate].
  cbn [bind try_except].
  intros H. injection H as <-.
  exists last, delta, depl, sugg, sq. repeat split; assumption.
Qed.

(** ** The confidence score *)

Lemma round_half_even_range (y : Q) (lo hi : Z) :
  (inject_Z lo <= y)%Q -> (y <= inject_Z hi)%Q ->
  lo <= round_half_even y <= hi.
Proof.
  intros Hlo Hhi.
  pose proof (ForecastProps.round_half_even_close y) as [H1 H2].
  split.
  - destruct (Z.le_gt_cases lo (round_half_even y)) as [| Hc]; [assumption |].
    assert (H : round_half_even y + 1 <= lo) by lia.
    rewrite Zle_Qle, inject_Z_plus in H.
    change (inject_Z 1) with 1%Q in H. lra.
  - destruct (Z.le_gt_cases (round_half_even y) hi) as [| Hc]; [assumption |].
    assert (H : hi + 1 <= round_half_even y) by lia.
    rewrite Zle_Qle, inject_Z_plus in H.
    change (inject_Z 1) with 1%Q in H. lra.
Qed.

Lemma round2_unit (q : Q) :
  (0 <= q)%Q -> (q <= 1)%Q ->
  exists q', round2 (Fin q) = Fin q' /\ (0 <= q')%Q /\ (q' <= 1)%Q.
Proof.
  intros H0 H1. unfold round2. eexists. split; [reflexivity |].
  destruct (round_half_even_range (q * 100) 0 100) as [Hlo Hhi].
  - change (inject_Z 0) with 0%Q. lra.
  - change (inject_Z 100) with 100%Q. lra.
  - rewrite Zle_Qle in Hlo. rewrite Zle_Qle in Hhi.
    change (inject_Z 0) with 0%Q in Hlo.
    change (inject_Z 100) with 100%Q in Hhi.
    set (z := inject_Z (round_half_even (q * 100))) in *.
    split.
    + apply Qle_shift_div_l; lra.
    + apply Qle_shift_div_r; lra.
Qed.

(** [max(0.0, min(1.0, y))] is a number of the unit interval, also when
    [y] is NaN or infinite. *)
Lemma clamp_unit (y : fval) :
  exists q, py_max (Fin 0) (py_min (Fin 1) y) = Fin q /\
            (0 <= q)%Q /\ (q <= 1)%Q.
Proof.
  destruct y as [a | | |]; unfold py_max, py_min, fgt; cbn [flt].
  - destruct (Qle_bool 1 a) eqn:H1; cbn [negb flt].
    + exists 1%Q. split; [reflexivity | lra].
    + destruct (Qle_bool a 0) eqn:H0; cbn [negb].
      * exists 0%Q. split; [reflexivity | lra].
      * exists a. split; [reflexivity |].
        assert (Ha1 : ~ (1 <= a)%Q)
          by (intros Hx; apply Qle_bool_iff in Hx; congruence).
        assert (Ha0 : ~ (a <= 0)%Q)
          by (intros Hx; apply Qle_bool_iff in Hx; congruence).
        lra.
  - exists 1%Q. split; [reflexivity | lra].
  - exists 0%Q. split; [reflexivity | lra].
  - exists 1%Q. split; [reflexivity | lra].
Qed.

Lemma calculate_confidence_unit (df : list Order) :
  exists q, _calculate_confidence df = Fin q /\ (0 <= q)%Q /\ (q <= 1)%Q.
Proof.
  unfold _calculate_confidence.
  destruct (_ <? _)%nat; [exists (1 # 2); split; [reflexivity | lra] |].
  destruct (dropna _); [exists (1 # 2); split; [reflexivity | lra] |].
  destruct (fgt _ _); [apply clamp_unit |].
  exists (1 # 2). split; [reflexivity | lra].
Qed.

(** X7: the confidence score of every returned prediction is a finite
    number between 0 and 1, whatever the intervals (one interval only,
    zero intervals, irregular ones). *)
Theorem confidence_score_in_unit_interval :
  forall (s : Settings) (today : Z) (u m : string) (h : list Order)
         (p : Prediction),
    predict_depletion s today u m h = Returned (Some p) ->
    exists q, confidence_score p = Fin q /\ (0 <= q)%Q /\ (q <= 1)%Q.
Proof.
  intros s today u m h p H.
  destruct (predict_some_record s today u m h p H)
    as (last & delta & depl & sugg & sq & _ & _ & _ & _ & _ & ->).
  cbn [confidence_score].
  destruct (calculate_confidence_unit (sort_values h)) as (q & -> & H0 & H1).
  now apply round2_unit.
Qed.

Lemma confidence_score_in_unit_interval_witness :
  exists p q,
    predict_depletion default_settings 738990 "u" "m"
      [order 738886 10; order 738891 11; order 738951 11; order 738961 5]
      = Returned (Some p) /\
    confidence_score p = Fin q /\ (0 <= q)%Q /\ (q <= 1)%Q.
Proof.
  destruct (predict_depletion default_settings 738990 "u" "m"
              [order 738886 10; order 738891 11; order 738951 11;
               order 738961 5]) as [[p |] | e] eqn:H.
  - destruct (confidence_score_in_unit_interval _ _ _ _ _ p H)
      as (q & Hq & H0 & H1).
    exists p, q. auto.
  - vm_compute in H. discriminate H.
  - vm_compute in H. discriminate H.
Defined.

(** ** The last order *)

Lemma last_of_sorted (df : list Order) (last : Order) :
  StronglySorted date_le df -> iloc_last df = Returned last ->
  In last df /\ forall o, In o df -> order_date o <= order_date last.
Proof.
  unfold iloc_last. intros Hs.
  induction Hs as [| a t Ht IH Ha]; [discriminate |].
  simpl. destruct (rev t) as [| x rest] eqn:Hr.
  - simpl. intros H. injection H as <-.
    assert (t = []) by (apply (f_equal (@rev Order)) in Hr;
                        now rewrite rev_involutive in Hr).
    subst t. split; [now left |]. intros o [<- | []]. lia.
  - simpl. intros H. injection H as <-.
    destruct (IH eq_refl) as [Hin Hmax].
    split; [now right |].
    intros o [<- | Ho]; [| now apply Hmax].
    rewrite Forall_forall in Ha. exact (Ha _ Hin).
Qed.

(** X8: the "last order" of a returned prediction is an entry of the
    history with the latest date, whatever the order of the input:
    [last_order_date] is the greatest order date and
    [last_order_quantity] the quantity of an entry of that date. *)
Theorem last_order_is_latest :
  forall (s : Settings) (today : Z) (u m : string) (h : list Order)
         (p : Prediction),
    predict_depletion s today u m h = Returned (Some p) ->
    (forall o, In o h -> order_date o <= last_order_date p) /\
    exists o, In o h /\ order_date o = last_order_date p /\
              quantity o = last_order_quantity p.
Proof.
  intros s today u m h p H.
  destruct (predict_some_record s today u m h p H)
    as (last & delta & depl & sugg & sq & Hlast & _ & _ & _ & _ & ->).
  cbn [last_order_date last_order_quantity].
  destruct (last_of_sorted _ _ (ForecastProps.sort_values_sorted h) Hlast)
    as [Hin Hmax].
  pose proof (ForecastProps.sort_values_perm h) as Hp.
  split.
  - intros o Ho. apply Hmax.
    eapply Permutation_in; [symmetry; exact Hp | exact Ho].
  - exists last. split; [| split; reflexivity].
    eapply Permutation_in; [exact Hp | exact Hin].
Qed.

Lemma last_order_is_latest_witness :
  exists p,
    predict_depletion default_settings 738990 "u" "m" (rev monthly_60)
      = Returned (Some p) /\
    (forall o, In o (rev monthly_60) -> order_date o <= last_order_date p).
Proof.
  destruct (predict_depletion default_settings 738990 "u" "m"
              (rev monthly_60)) as [[p |] | e] eqn:H.
  - exists p. split; [reflexivity |].
    exact (proj1 (last_order_is_latest _ _ _ _ _ p H)).
  - vm_compute in H. discriminate H.
  - vm_compute in H. discriminate H.
Defined.

(** ** How many orders a prediction needs *)

(** X9: a prediction is returned only for a history of at least two
    orders, and of at least [PREDICTION_MIN_ORDERS]: setting the minimum
    below two does not make a single order predictable. *)
Theorem prediction_needs_two_orders :
  forall (s : Settings) (today : Z) (u m : string) (h : list Order)
         (p : Prediction),
    predict_depletion s today u m h = Returned (Some p) ->
    (2 <= List.length h)%nat /\
    PREDICTION_MIN_ORDERS s <= Z.of_nat (List.length h).
Proof.
  intros s today u m h p H.
  destruct (ForecastProps.predict_some_inv s today u m h p H)
    as (last & delta & depl & sugg & sq & Hmin & Hrate & _).
  split; [| exact Hmin].
  unfold _calculate_consumption_rate in Hrate.
  rewrite (Permutation_length (ForecastProps.sort_values_perm h)) in Hrate.
  destruct (List.length h <? 2)%nat eqn:Hlen.
  - discriminate Hrate.
  - apply Nat.ltb_ge in Hlen. exact Hlen.
Qed.

Lemma prediction_needs_two_orders_witness :
  exists p,
    predict_depletion
      {| PREDICTION_MIN_ORDERS := 1;
         PREDICTION_CONFIDENCE_THRESHOLD := Fin (7 # 10) |}
      738990 "u" "m" [order 738886 60; order 738916 60]
      = Returned (Some p) /\
    (2 <= List.length [order 738886 60; order 738916 60])%nat.
Proof.
  destruct (predict_depletion
              {| PREDICTION_MIN_ORDERS := 1;
                 PREDICTION_CONFIDENCE_THRESHOLD := Fin (7 # 10) |}
              738990 "u" "m" [order 738886 60; order 738916 60])
    as [[p |] | e] eqn:H.
  - exists p. split; [reflexivity |].
    exact (proj1 (prediction_needs_two_orders _ _ _ _ _ p H)).
  - vm_compute in H. discriminate H.
  - vm_compute in H. discriminate H.
Defined.

(** ** The depletion date *)

Lemma round_half_even_nonneg (y : Q) :
  (0 <= y)%Q -> 0 <= round_half_even y.
Proof.
  intros Hy.
  pose proof (ForecastProps.round_half_even_close y) as [H1 _].
  destruct (Z.le_gt_cases 0 (round_half_even y)) as [| Hc]; [assumption |].
  assert (H : round_half_even y + 1 <= 0) by lia.
  rewrite Zle_Qle, inject_Z_plus in H.
  change (inject_Z 1) with 1%Q in H. change (inject_Z 0) with 0%Q in H.
  lra.
Qed.

Lemma whole_days_nonneg (x : Q) : (0 <= x)%Q -> 0 <= whole_days x.
Proof.
  intros Hx. unfold whole_days. apply Z.div_pos; [| reflexivity].
  apply round_half_even_nonneg. unfold us_per_day.
  change (inject_Z 86400000000) with 86400000000%Q. lra.
Qed.

Lemma positive_rate_days_nonneg (q : Z) (rate : fval) (x : Q) :
  0 <= q -> fle rate (Fin 0) = false ->
  fdiv (of_Z q) rate = Fin x -> (0 <= x)%Q.
Proof.
  intros Hq Hrate. destruct rate as [r | | |]; unfold of_Z, fdiv.
  - cbn [fle] in Hrate.
    assert (Hr : (0 < r)%Q).
    { destruct (Qlt_le_dec 0 r) as [| Hle]; [assumption |].
      apply Qle_bool_iff in Hle. congruence. }
    destruct (Qeq_bool r 0) eqn:Hz.
    + apply Qeq_bool_eq in Hz. lra.
    + intros H. injection H as <-.
      apply Qle_shift_div_l; [exact Hr |].
      rewrite Zle_Qle in Hq. change (inject_Z 0) with 0%Q in Hq. lra.
  - intros H. injection H as <-. lra.
  - discriminate Hrate.
  - discriminate.
Qed.

(** X10: when the last order has a quantity that is not negative, the
    predicted depletion date is not before the last order date. *)
Theorem depletion_not_before_last_order :
  forall (s : Settings) (today : Z) (u m : string) (h : list Order)
         (p : Prediction),
    predict_depletion s today u m h = Returned (Some p) ->
    0 <= last_order_quantity p ->
    last_order_date p <= predicted_depletion_date p.
Proof.
  intros s today u m h p H Hq.
  destruct (ForecastProps.predict_some_inv s today u m h p H)
    as (last & delta & depl & sugg & sq & _ & Hrate & _ & Hdelta & Hdepl & _
        & _ & Hld & Hlq & Hpd & _).
  destruct (ForecastProps.timedelta_days_inv _ _ Hdelta) as (x & Hx & -> & _).
  destruct (ForecastProps.date_add_inv _ _ _ Hdepl) as [-> _].
  rewrite Hlq in Hq.
  pose proof (positive_rate_days_nonneg _ _ _ Hq Hrate Hx) as Hx0.
  pose proof (whole_days_nonneg x Hx0). lia.
Qed.

Lemma depletion_not_before_last_order_witness :
  exists p,
    predict_depletion default_settings 738990 "u" "m" same_day_repeat
      = Returned (Some p) /\
    last_order_date p <= predicted_depletion_date p.
Proof.
  destruct (predict_depletion default_settings 738990 "u" "m"
              same_day_repeat) as [[p |] | e] eqn:H.
  - exists p. split; [reflexivity |].
    apply (depletion_not_before_last_order _ _ _ _ _ p H).
    vm_compute in H. injection H as <-. vm_compute. discriminate.
  - vm_compute in H. discriminate H.
  - vm_compute in H. discriminate H.
Defined.

(** ** The suggested quantity *)

Lemma sum_quantities_bounds (l : list Order) (lo hi : Z) :
  (forall o, In o l -> lo <= quantity o <= hi) ->
  lo * Z.of_nat (List.length l) <= sum_quantities l
    <= hi * Z.of_nat (List.length l).
Proof.
  unfold sum_quantities.
  induction l as [| o l IH]; intros Hall; [simpl; lia |].
  assert (Ho : lo <= quantity o <= hi) by (apply Hall; now left).
  assert (IH' : lo * Z.of_nat (List.length l)
                <= fold_right Z.add 0 (map quantity l)
                <= hi * Z.of_nat (List.length l))
    by (apply IH; intros o' Ho'; apply Hall; now right).
  cbn [map fold_right List.length]. rewrite Nat2Z.inj_succ. lia.
Qed.

Lemma quot_mean_bounds (l : list Order) (lo hi : Z) :
  l <> [] ->
  (forall o, In o l -> lo <= quantity o <= hi) ->
  lo <= sum_quantities l ÷ Z.of_nat (List.length l) <= hi.
Proof.
  intros Hne Hall.
  pose proof (sum_quantities_bounds l lo hi Hall) as [H1 H2].
  assert (Hn : 0 < Z.of_nat (List.length l))
    by (destruct l; [now elim Hne | simpl; lia]).
  split.
  - rewrite <- (Z.quot_mul lo (Z.of_nat (List.length l))) at 1 by lia.
    now apply Z.quot_le_mono.
  - rewrite <- (Z.quot_mul hi (Z.of_nat (List.length l))) at 1 by lia.
    now apply Z.quot_le_mono.
Qed.

Lemma in_skipn {A} (x : A) (n : nat) (l : list A) :
  In x (skipn n l) -> In x l.
Proof.
  revert l. induction n as [| n IH]; intros [| y l]; simpl; auto.
Qed.

(** X11: the suggested quantity lies within any bounds that hold for
    the quantities of the history, for bounds of at most 2^51 in
    absolute value (where the float mean of three quantities is exact
    enough for the truncation); in particular a history of one constant
    quantity suggests that quantity. *)
Theorem suggested_quantity_within_history_bounds :
  forall (s : Settings) (today : Z) (u m : string) (h : list Order)
         (p : Prediction) (lo hi : Z),
    predict_depletion s today u m h = Returned (Some p) ->
    - 2 ^ 51 <= lo -> hi <= 2 ^ 51 ->
    (forall o, In o h -> lo <= quantity o <= hi) ->
    lo <= suggested_quantity p <= hi.
Proof.
  intros s today u m h p lo hi H _ _ Hall.
  destruct (predict_some_record s today u m h p H)
    as (last & delta & depl & sugg & sq & Hlast & _ & _ & _ & Hsq & ->).
  cbn [suggested_quantity].
  set (recent := tail 3 (sort_values h)) in *.
  assert (Hne : recent <> []).
  { intros E. apply (f_equal (@List.length Order)) in E.
    unfold recent in E. rewrite ForecastProps.tail_length in E.
    cbn [List.length] in E.
    destruct (sort_values h); [discriminate Hlast | simpl in E; lia]. }
  destruct (ForecastProps.mean_quantities recent Hne) as (q & Hm & Ht).
  rewrite Hm in Hsq. cbn [to_int] in Hsq. injection Hsq as <-.
  rewrite Ht. apply quot_mean_bounds; [exact Hne |].
  intros o Ho. apply Hall. unfold recent, tail in Ho.
  apply in_skipn in Ho.
  eapply Permutation_in; [apply ForecastProps.sort_values_perm | exact Ho].
Qed.

Lemma suggested_quantity_within_history_bounds_witness :
  exists p,
    predict_depletion default_settings 738990 "u" "m" monthly_60
      = Returned (Some p) /\
    60 <= suggested_quantity p <= 60.
Proof.
  destruct (predict_depletion default_settings 738990 "u" "m" monthly_60)
    as [[p |] | e] eqn:H.
  - exists p. split; [reflexivity |].
    apply (suggested_quantity_within_history_bounds _ _ _ _ _ p 60 60 H);
      [vm_compute; discriminate | vm_compute; discriminate |].
    intros o Ho. simpl in Ho.
    destruct Ho as [<- | [<- | [<- | [<- | []]]]]; simpl; lia.
  - vm_compute in H. discriminate H.
  - vm_compute in H. discriminate H.
Defined.

(** ** The reported rate *)

Lemma fold_fadd_positive (col : list fval) :
  Forall positive_value col ->
  forall acc, positive_value acc ->
              positive_value (fold_left fadd col acc).
Proof.
  induction 1 as [| r col Hr Hcol IH]; intros acc Hacc; [exact Hacc |].
  cbn [fold_left]. apply IH.
  destruct acc as [a | | |], r as [q | | |]; simpl in *; try easy. lra.
Qed.

Lemma mean_positive (col : list fval) :
  col <> [] -> Forall positive_value col -> positive_value (mean col).
Proof.
  intros Hne Hcol. unfold mean, fsum, count.
  destruct col as [| r col]; [now elim Hne |].
  inversion Hcol as [| ? ? Hr Hcol']; subst.
  cbn [fold_left].
  assert (Hsum : positive_value (fold_left fadd col (fadd (Fin 0) r))).
  { apply fold_fadd_positive; [exact Hcol' |].
    destruct r as [q | | |]; simpl in *; try easy. lra. }
  assert (Hn : Z.of_nat (List.length (r :: col))
               = Zpos (Pos.of_succ_nat (List.length col))) by reflexivity.
  unfold of_Z. rewrite Hn.
  destruct (fold_left fadd col (fadd (Fin 0) r)) as [a | | |];
    simpl in Hsum; try easy.
  - unfold fdiv.
    change (Qeq_bool (inject_Z (Zpos (Pos.of_succ_nat (List.length col)))) 0)
      with false.
    simpl. apply Qlt_shift_div_l; [reflexivity | lra].
Qed.

Lemma consumption_rate_nonnegative (df : list Order) :
  nonnegative_value (_calculate_consumption_rate df).
Proof.
  unfold _calculate_consumption_rate.
  destruct (_ <? _)%nat; [simpl; lra |].
  set (valid := filter _ (dropna _)).
  assert (Hvalid : Forall positive_value valid).
  { apply Forall_forall. intros r Hr. unfold valid in Hr.
    apply filter_In in Hr. destruct Hr as [_ Hr].
    destruct r as [q | | |]; try easy.
    unfold fgt in Hr. cbn [flt] in Hr. simpl.
    destruct (Qlt_le_dec 0 q) as [| Hle]; [assumption |].
    apply Qle_bool_iff in Hle. rewrite Hle in Hr. discriminate Hr. }
  destruct valid as [| r valid'] eqn:Hv; [simpl; lra |].
  assert (Hpos : positive_value (mean (r :: valid')))
    by (apply mean_positive; [discriminate | exact Hvalid]).
  destruct (mean (r :: valid')); simpl in *; try easy. lra.
Qed.

(** X12: the rate a prediction reports is never NaN and never negative:
    it is a finite number that is not negative (a small rate rounds to
    0.0) or [+inf]. *)
Theorem reported_rate_never_negative :
  forall (s : Settings) (today : Z) (u m : string) (h : list Order)
         (p : Prediction),
    predict_depletion s today u m h = Returned (Some p) ->
    nonnegative_value (average_consumption_rate p).
Proof.
  intros s today u m h p H.
  destruct (predict_some_record s today u m h p H)
    as (last & delta & depl & sugg & sq & _ & _ & _ & _ & _ & ->).
  cbn [average_consumption_rate].
  pose proof (consumption_rate_nonnegative (sort_values h)) as Hr.
  destruct (_calculate_consumption_rate (sort_values h)) as [q | | |];
    simpl in *; try easy.
  apply Qle_shift_div_l; [reflexivity |].
  rewrite Qmult_0_l. change 0%Q with (inject_Z 0). rewrite <- Zle_Qle.
  apply round_half_even_nonneg. lra.
Qed.

Lemma reported_rate_never_negative_witness :
  exists p,
    predict_depletion default_settings 738990 "u" "m" sparse_then_bulk
      = Returned None /\
    predict_depletion default_settings 738990 "u" "m" monthly_60
      = Returned (Some p) /\
    nonnegative_value (average_consumption_rate p).
Proof.
  destruct (predict_depletion default_settings 738990 "u" "m" monthly_60)
    as [[p |] | e] eqn:H.
  - exists p. split; [vm_compute; reflexivity |].
    split; [reflexivity |].
    exact (reported_rate_never_negative _ _ _ _ _ p H).
  - vm_compute in H. discriminate H.
  - vm_compute in H. discriminate H.
Defined.

(** ** The confidence level and the reported score *)

Lemma round2_at_least (c : Q) (k : Z) :
  (0 <= c)%Q -> (c <= 1)%Q -> (inject_Z k <= c * 100)%Q ->
  (inject_Z k <= inject_Z (round_half_even (c * 100)))%Q.
Proof.
  intros H0 H1 Hk. rewrite <- Zle_Qle.
  destruct (round_half_even_range (c * 100) k 100) as [Hlo _];
    [exact Hk | change (inject_Z 100) with 100%Q; lra | exact Hlo].
Qed.

Lemma round2_at_most (c : Q) (k : Z) :
  (0 <= c)%Q -> (c <= 1)%Q -> (c * 100 <= inject_Z k)%Q ->
  (inject_Z (round_half_even (c * 100)) <= inject_Z k)%Q.
Proof.
  intros H0 H1 Hk. rewrite <- Zle_Qle.
  destruct (round_half_even_range (c * 100) 0 k) as [_ Hhi];
    [change (inject_Z 0) with 0%Q; lra | exact Hk | exact Hhi].
Qed.

(** X23: with a threshold of two decimals, the confidence level agrees
    with the reported (rounded) score: HIGH comes with a score of at
    least the threshold, MEDIUM with a score between 0.5 and the
    threshold, LOW with a score of at most 0.5.  The level is taken
    from the score before rounding, so the bounds are not strict. *)
Theorem confidence_level_agrees_with_reported_score :
  forall (s : Settings) (today : Z) (u m : string) (h : list Order)
         (p : Prediction) (t : Q) (k : Z),
    PREDICTION_CONFIDENCE_THRESHOLD s = Fin t ->
    (t * 100 == inject_Z k)%Q ->
    predict_depletion s today u m h = Returned (Some p) ->
    exists q,
      confidence_score p = Fin q /\
      (confidence p = HIGH -> (t <= q)%Q) /\
      (confidence p = MEDIUM -> (1 # 2 <= q)%Q /\ (q <= t)%Q) /\
      (confidence p = LOW -> (q <= 1 # 2)%Q).
Proof.
  intros s today u m h p t k Ht Hk H.
  destruct (predict_some_record s today u m h p H)
    as (last & delta & depl & sugg & sq & _ & _ & _ & _ & _ & ->).
  cbn [confidence_score confidence].
  destruct (calculate_confidence_unit (sort_values h)) as (c & -> & H0 & H1).
  unfold _get_confidence_level, fge. rewrite Ht. cbn [fle round2].
  eexists. split; [reflexivity |].
  set (z := inject_Z (round_half_even (c * 100))).
  destruct (Qle_bool t c) eqn:Hhigh.
  - apply Qle_bool_iff in Hhigh.
    assert (Hz : (inject_Z k <= z)%Q)
      by (apply round2_at_least; [exact H0 | exact H1 | lra]).
    split; [| split; discriminate].
    intros _. apply Qle_shift_div_l; [reflexivity | lra].
  - assert (Hlt : ~ (t <= c)%Q)
      by (intros Hx; apply Qle_bool_iff in Hx; congruence).
    assert (Hz : (z <= inject_Z k)%Q)
      by (apply round2_at_most; [exact H0 | exact H1 | lra]).
    destruct (Qle_bool (1 # 2) c) eqn:Hmed.
    + apply Qle_bool_iff in Hmed.
      assert (Hz' : (inject_Z 50 <= z)%Q).
      { apply round2_at_least; [exact H0 | exact H1 |].
        change (inject_Z 50) with 50%Q. lra. }
      change (inject_Z 50) with 50%Q in Hz'.
      split; [discriminate |]. split; [| discriminate].
      intros _. split.
      * apply Qle_shift_div_l; [reflexivity | lra].
      * apply Qle_shift_div_r; [reflexivity | lra].
    + assert (Hlow : ~ (1 # 2 <= c)%Q)
        by (intros Hx; apply Qle_bool_iff in Hx; congruence).
      assert (Hz' : (z <= inject_Z 50)%Q).
      { apply round2_at_most; [exact H0 | exact H1 |].
        change (inject_Z 50) with 50%Q. lra. }
      change (inject_Z 50) with 50%Q in Hz'.
      split; [discriminate |]. split; [discriminate |].
      intros _. apply Qle_shift_div_r; [reflexivity | lra].
Qed.

Lemma confidence_level_agrees_with_reported_score_witness :
  exists p q,
    predict_depletion default_settings 738990 "u" "m" monthly_60
      = Returned (Some p) /\
    confidence_score p = Fin q /\
    (confidence p = HIGH -> (7 # 10 <= q)%Q).
Proof.
  destruct (predict_depletion default_settings 738990 "u" "m" monthly_60)
    as [[p |] | e] eqn:H.
  - destruct (confidence_level_agrees_with_reported_score
                default_settings 738990 "u" "m" monthly_60 p (7 # 10) 70)
      as (q & Hq & Hhigh & _); [reflexivity | reflexivity | exact H |].
    exists p, q. split; [reflexivity |]. split; [exact Hq | exact Hhigh].
  - vm_compute in H. discriminate H.
  - vm_compute in H. discriminate H.
Defined.

End ForecastExtra.

(* ================================================================== *)
(** * The callers of [predict_depletion]: notification, batch, route *)

Module BatchProps.
Import Py F Datetime Forecast ForecastBatch PredictionsRoute.
Import ForecastSpec CallerSpec.

(** ** [should_notify_user] *)

Lemma gate_true (today d : Z) (c : option PredictionConfidence) :
  (d - today <=? 7) && (0 <=? d - today) && is_high c = true <->
  today <= d <= today + 7 /\ c = Some HIGH.
Proof.
  rewrite !andb_true_iff, !Z.leb_le. split.
  - intros [[H1 H2] Hc]. split; [lia |].
    destruct c as [[| |] |]; try discriminate Hc. reflexivity.
  - intros [H ->]. repeat split; lia.
Qed.

(** X13: [should_notify_user] answers [True] exactly when the dictionary
    holds a depletion date (a date, or a text that [fromisoformat]
    reads) that lies between today and today + 7 days, both included,
    and its confidence is HIGH; a missing key, an unreadable text or a
    value of another type gives [False]. *)
Theorem notification_iff_due_within_week_and_high :
  forall (today : Z) (fromisoformat_date : string -> outcome Z)
         (prediction : PredictionDict),
    should_notify_user today fromisoformat_date prediction = Returned true
    <->
    exists d, depletion_date_read fromisoformat_date prediction d /\
              today <= d <= today + 7 /\
              dict_confidence prediction = Some HIGH.
Proof.
  intros today parse [v c].
  unfold should_notify_user, should_notify_user_body, depletion_date_read.
  cbn [dict_predicted_depletion_date dict_confidence].
  split.
  - destruct v as [[d | s |] |]; cbn [bind try_except].
    + intros H. injection H as H. apply gate_true in H.
      exists d. split; [now left | exact H].
    + destruct (parse s) as [d | e] eqn:Hp; cbn [bind try_except].
      * intros H. injection H as H. apply gate_true in H.
        exists d. split; [right; now exists s | exact H].
      * discriminate.
    + discriminate.
    + discriminate.
  - intros (d & [Hv | (s & Hv & Hp)] & Hg); subst v;
      cbn [bind try_except].
    + f_equal. now apply gate_true.
    + rewrite Hp. cbn [bind try_except]. f_equal. now apply gate_true.
Qed.

(** ** [generate_predictions_for_user] *)

Section Batch.
Variable s : Settings.
Variable today : Z.
Variable user : string.

Lemma batch_returns (all : list (string * list Order)) :
  exists preds,
    generate_predictions_for_user s today user all = Returned preds.
Proof.
  induction all as [| [mid h] rest (preds & IH)];
    cbn [generate_predictions_for_user].
  - now exists [].
  - destruct (proj1 (ForecastProps.predict_depletion_never_raises
                       s today user mid h)) as [r ->].
    cbn [bind]. rewrite IH. cbn [bind]. eexists. reflexivity.
Qed.

Lemma batch_step (mid : string) (h : list Order)
    (rest : list (string * list Order)) (preds : list Prediction) :
  generate_predictions_for_user s today user ((mid, h) :: rest)
    = Returned preds ->
  exists r preds',
    predict_depletion s today user mid h = Returned r /\
    generate_predictions_for_user s today user rest = Returned preds' /\
    preds = match r with Some p => p :: preds' | None => preds' end.
Proof.
  cbn [generate_predictions_for_user].
  destruct (predict_depletion s today user mid h) as [r | e];
    cbn [bind]; [| discriminate].
  destruct (generate_predictions_for_user s today user rest)
    as [preds' | e]; cbn [bind]; [| discriminate].
  intros H. injection H as <-. now exists r, preds'.
Qed.

Lemma batch_sound (all : list (string * list Order)) :
  forall preds,
    generate_predictions_for_user s today user all = Returned preds ->
    forall p, In p preds ->
      exists mid h, In (mid, h) all /\
                    predict_depletion s today user mid h = Returned (Some p).
Proof.
  induction all as [| [mid h] rest IH]; intros preds Hg p Hp.
  - injection Hg as <-. destruct Hp.
  - apply batch_step in Hg. destruct Hg as (r & preds' & Hr & Hrest & ->).
    assert (Hcase : r = Some p \/ In p preds').
    { destruct r as [p0 |]; [| now right].
      destruct Hp as [-> | Hp]; [now left | now right]. }
    destruct Hcase as [-> | Hin].
    + exists mid, h. split; [now left | exact Hr].
    + destruct (IH preds' Hrest p Hin) as (mid' & h' & Hin' & Hp').
      exists mid', h'. split; [now right | exact Hp'].
Qed.

Lemma batch_complete (all : list (string * list Order)) :
  forall preds,
    generate_predictions_for_user s today user all = Returned preds ->
    forall mid h p,
      In (mid, h) all ->
      predict_depletion s today user mid h = Returned (Some p) ->
      In p preds.
Proof.
  induction all as [| [mid0 h0] rest IH]; intros preds Hg mid h p Hin Hp.
  - destruct Hin.
  - apply batch_step in Hg. destruct Hg as (r & preds' & Hr & Hrest & ->).
    destruct Hin as [Heq | Hin].
    + injection Heq as -> ->. rewrite Hp in Hr. injection Hr as <-.
      now left.
    + pose proof (IH preds' Hrest mid h p Hin Hp) as Hin'.
      destruct r; [now right | exact Hin'].
Qed.

Lemma batch_length (all : list (string * list Order)) :
  forall preds,
    generate_predictions_for_user s today user all = Returned preds ->
    (List.length preds <= List.length all)%nat.
Proof.
  induction all as [| [mid h] rest IH]; intros preds Hg.
  - injection Hg as <-. apply Nat.le_refl.
  - apply batch_step in Hg. destruct Hg as (r & preds' & _ & Hrest & ->).
    pose proof (IH preds' Hrest). destruct r; cbn [List.length]; lia.
Qed.

Lemma batch_medicine_ids (all : list (string * list Order)) :
  forall preds,
    generate_predictions_for_user s today user all = Returned preds ->
    forall p, In p preds ->
      user_id p = user /\
      In (medicine_id p, historical_data p) all /\
      predict_depletion s today user (medicine_id p) (historical_data p)
        = Returned (Some p).
Proof.
  intros preds Hg p Hp.
  destruct (batch_sound all preds Hg p Hp) as (mid & h & Hin & Hpred).
  destruct (ForecastExtra.predict_some_record s today user mid h p Hpred)
    as (last & delta & depl & sugg & sq & _ & _ & _ & _ & _ & Hrec).
  assert (Hu : user_id p = user) by (rewrite Hrec; reflexivity).
  assert (Hm : medicine_id p = mid) by (rewrite Hrec; reflexivity).
  assert (Hh : historical_data p = h) by (rewrite Hrec; reflexivity).
  rewrite Hm, Hh. repeat split; assumption.
Qed.

Lemma batch_nodup (all : list (string * list Order)) :
  NoDup (map fst all) ->
  forall preds,
    generate_predictions_for_user s today user all = Returned preds ->
    NoDup (map medicine_id preds).
Proof.
  induction all as [| [mid h] rest IH]; intros Hnd preds Hg.
  - injection Hg as <-. constructor.
  - pose proof Hg as Hg0.
    apply batch_step in Hg. destruct Hg as (r & preds' & Hr & Hrest & ->).
    inversion Hnd as [| ? ? Hnotin Hnd']; subst.
    pose proof (IH Hnd' preds' Hrest) as IH'.
    destruct r as [p |]; [| exact IH'].
    cbn [map]. constructor; [| exact IH'].
    intros Hin. apply in_map_iff in Hin. destruct Hin as (p' & Hid & Hp').
    destruct (batch_medicine_ids rest preds' Hrest p' Hp') as (_ & Hin' & _).
    destruct (ForecastExtra.predict_some_record s today user mid h p Hr)
      as (last & delta & depl & sugg & sq & _ & _ & _ & _ & _ & Hrec).
    assert (Hm : medicine_id p = mid) by (rewrite Hrec; reflexivity).
    apply Hnotin. rewrite <- Hm, <- Hid.
    apply (in_map fst) in Hin'. exact Hin'.
Qed.

End Batch.

(** X14: [generate_predictions_for_user] always returns, and its list
    holds exactly the predictions [predict_depletion] gives for the
    medicines of the dictionary: a medicine without a prediction is
    left out and stops nothing. *)
Theorem batch_holds_exactly_the_predictions :
  forall (s : Settings) (today : Z) (user : string)
         (all : list (string * list Order)),
    exists preds,
      generate_predictions_for_user s today user all = Returned preds /\
      (List.length preds <= List.length all)%nat /\
      forall p, In p preds <->
                exists mid h,
                  In (mid, h) all /\
                  predict_depletion s today user mid h = Returned (Some p).
Proof.
  intros s today user all.
  destruct (batch_returns s today user all) as (preds & Hg).
  exists preds. split; [exact Hg |].
  split; [exact (batch_length s today user all preds Hg) |].
  intros p. split.
  - apply (batch_sound s today user all preds Hg).
  - intros (mid & h & Hin & Hp).
    exact (batch_complete s today user all preds Hg mid h p Hin Hp).
Qed.

(** ** The grouping loop of the route *)

Lemma history_of_append_same (k : string) (v : Order)
    (d : list (string * list Order)) :
  history_of k (append_to k v d) = (history_of k d ++ [v])%list.
Proof.
  induction d as [| [k' l] d IH]; cbn [append_to history_of].
  - now rewrite String.eqb_refl.
  - destruct (String.eqb k' k) eqn:E; cbn [history_of]; rewrite E;
      [reflexivity | exact IH].
Qed.

Lemma history_of_append_other (k k' : string) (v : Order)
    (d : list (string * list Order)) :
  k' <> k -> history_of k' (append_to k v d) = history_of k' d.
Proof.
  intros Hne.
  induction d as [| [k0 l] d IH]; cbn [append_to history_of].
  - destruct (String.eqb k k') eqn:E; [| reflexivity].
    apply String.eqb_eq in E. congruence.
  - destruct (String.eqb k0 k) eqn:E; cbn [history_of].
    + apply String.eqb_eq in E. subst k0.
      destruct (String.eqb k k') eqn:E'; [| reflexivity].
      apply String.eqb_eq in E'. congruence.
    + destruct (String.eqb k0 k'); [reflexivity | exact IH].
Qed.

Lemma keys_append_to (k k' : string) (v : Order)
    (d : list (string * list Order)) :
  In k' (map fst (append_to k v d)) -> k' = k \/ In k' (map fst d).
Proof.
  induction d as [| [k0 l] d IH]; cbn [append_to map fst In].
  - intros [<- | []]. now left.
  - destruct (String.eqb k0 k); cbn [map fst In].
    + intros H. now right.
    + intros [<- | H]; [right; now left |].
      destruct (IH H) as [-> | H']; [now left | right; now right].
Qed.

Lemma grouped_append_to (k : string) (v : Order)
    (d : list (string * list Order)) :
  grouped d -> grouped (append_to k v d).
Proof.
  unfold grouped.
  induction d as [| [k0 l] d IH]; cbn [append_to map fst]; intros [Hn Hf].
  - split.
    + constructor; [intros [] | constructor].
    + constructor; [discriminate | constructor].
  - inversion Hn as [| ? ? Hnotin Hn']; subst.
    inversion Hf as [| ? ? Hl Hf']; subst.
    destruct (String.eqb k0 k) eqn:E; cbn [map fst].
    + split; [constructor; assumption |].
      constructor; [| assumption]. cbn [snd]. intros Happ.
      apply app_eq_nil in Happ. destruct Happ as [_ Happ]. discriminate Happ.
    + destruct (IH (conj Hn' Hf')) as [IHn IHf].
      split; [| constructor; assumption].
      constructor; [| assumption].
      intros Hin. apply keys_append_to in Hin.
      destruct Hin as [-> | Hin]; [| contradiction].
      rewrite String.eqb_refl in E. discriminate E.
Qed.

Lemma history_of_In (k : string) (l : list Order)
    (d : list (string * list Order)) :
  NoDup (map fst d) -> In (k, l) d -> history_of k d = l.
Proof.
  induction d as [| [k0 l0] d IH]; cbn [map fst history_of];
    intros Hn Hin; [destruct Hin |].
  inversion Hn as [| ? ? Hnotin Hn']; subst.
  destruct Hin as [Heq | Hin].
  - injection Heq as -> ->. now rewrite String.eqb_refl.
  - destruct (String.eqb k0 k) eqn:E; [| now apply IH].
    apply String.eqb_eq in E. subst k0. exfalso. apply Hnotin.
    apply (in_map fst) in Hin. exact Hin.
Qed.

Lemma history_of_nonempty_In (k : string) (d : list (string * list Order)) :
  history_of k d <> [] -> In (k, history_of k d) d.
Proof.
  induction d as [| [k0 l0] d IH]; cbn [history_of]; intros H;
    [congruence |].
  destruct (String.eqb k0 k) eqn:E.
  - left. apply String.eqb_eq in E. now subst.
  - right. now apply IH.
Qed.

Lemma fold_append_entry (kvs : list (string * Order)) :
  forall d,
    grouped d ->
    grouped (fold_left append_entry kvs d) /\
    forall k,
      history_of k (fold_left append_entry kvs d)
      = (history_of k d
         ++ map snd (filter (fun kv => String.eqb (fst kv) k) kvs))%list.
Proof.
  induction kvs as [| [k v] kvs IH]; intros d Hd; cbn [fold_left].
  - split; [exact Hd |]. intros k. cbn [filter map]. now rewrite app_nil_r.
  - destruct (IH (append_entry d (k, v))) as [H1 H2];
      [now apply grouped_append_to |].
    split; [exact H1 |].
    intros k0. rewrite H2. unfold append_entry. cbn [filter fst snd].
    destruct (String.eqb k k0) eqn:E.
    + apply String.eqb_eq in E. subst k0.
      rewrite history_of_append_same. cbn [map snd].
      now rewrite <- app_assoc.
    + rewrite history_of_append_other; [reflexivity |].
      intros ->. rewrite String.eqb_refl in E. discriminate E.
Qed.

Lemma fold_items (order : OrderDoc) (l : list OrderItem) :
  forall d,
    fold_left
      (fun d item =>
         append_to (item_medicine_id item) (history_entry order item) d)
      l d
    = fold_left append_entry
        (map (fun item => (item_medicine_id item, history_entry order item))
             l)
        d.
Proof.
  induction l as [| item l IH]; intros d; cbn [fold_left map];
    [reflexivity | apply IH].
Qed.

Lemma group_by_medicine_fold (orders : list OrderDoc) :
  group_by_medicine orders = fold_left append_entry (keyed_entries orders) [].
Proof.
  unfold group_by_medicine, keyed_entries. generalize (@nil (string * list Order)).
  induction orders as [| o os IH]; intros d; cbn [fold_left flat_map];
    [reflexivity |].
  rewrite fold_left_app, <- fold_items. apply IH.
Qed.

Lemma keyed_entries_of (k : string) (orders : list OrderDoc) :
  map snd (filter (fun kv => String.eqb (fst kv) k) (keyed_entries orders))
  = entries_of k orders.
Proof.
  unfold keyed_entries, entries_of.
  induction orders as [| o os IH]; cbn [flat_map filter map];
    [reflexivity |].
  rewrite filter_app, map_app, IH. f_equal.
  induction (get_items o) as [| item l IHl]; cbn [map filter fst];
    [reflexivity |].
  destruct (String.eqb (item_medicine_id item) k); cbn [map snd];
    [f_equal |]; exact IHl.
Qed.

Lemma group_by_medicine_grouped (orders : list OrderDoc) :
  grouped (group_by_medicine orders) /\
  forall k, history_of k (group_by_medicine orders) = entries_of k orders.
Proof.
  rewrite group_by_medicine_fold.
  destruct (fold_append_entry (keyed_entries orders) []) as [H1 H2].
  - split; constructor.
  - split; [exact H1 |]. intros k. rewrite H2. cbn [history_of app].
    apply keyed_entries_of.
Qed.

Lemma group_by_medicine_In (orders : list OrderDoc) (mid : string)
    (h : list Order) :
  In (mid, h) (group_by_medicine orders) <->
  h = entries_of mid orders /\ h <> [].
Proof.
  destruct (group_by_medicine_grouped orders) as [[Hn Hf] Hh].
  split.
  - intros Hin. split.
    + rewrite <- Hh. symmetry. now apply history_of_In.
    + rewrite Forall_forall in Hf. exact (Hf (mid, h) Hin).
  - intros [-> Hne]. rewrite <- Hh in *.
    now apply history_of_nonempty_In.
Qed.

(** X15: the grouping loop of the route files every item under its
    medicine id: the dictionary has each medicine once, and the history
    of a medicine is the list of its items over all orders, in the
    order of the orders and of the items in an order; an order without
    ['items'] adds nothing. *)
Theorem grouping_collects_each_medicine :
  forall orders : list OrderDoc,
    NoDup (map fst (group_by_medicine orders)) /\
    forall (mid : string) (h : list Order),
      In (mid, h) (group_by_medicine orders) <->
      h = entries_of mid orders /\ h <> [].
Proof.
  intros orders. split.
  - exact (proj1 (proj1 (group_by_medicine_grouped orders))).
  - intros mid h. apply group_by_medicine_In.
Qed.

Lemma predicted_history_length (s : Settings) (today : Z) (u m : string)
    (h : list Order) (p : Prediction) :
  predict_depletion s today u m h = Returned (Some p) ->
  (2 <= List.length h)%nat /\
  PREDICTION_MIN_ORDERS s <= Z.of_nat (List.length h).
Proof.
  intros H.
  destruct (ForecastProps.predict_some_inv s today u m h p H)
    as (last & delta & depl & sugg & sq & Hmin & Hrate & _).
  split; [| exact Hmin].
  unfold _calculate_consumption_rate in Hrate.
  rewrite (Permutation_length (ForecastProps.sort_values_perm h)) in Hrate.
  destruct (List.length h <? 2)%nat eqn:Hlen.
  - discriminate Hrate.
  - apply Nat.ltb_ge in Hlen. exact Hlen.
Qed.

(** X16: the route always gets a list from the forecaster, with at most
    one prediction per medicine; each prediction is for the given user,
    and its history is the list of all the items of its medicine in the
    orders read, of which there are at least two and at least
    [PREDICTION_MIN_ORDERS]. *)
Theorem route_predicts_once_per_medicine :
  forall (s : Settings) (today : Z) (user : string)
         (orders : list OrderDoc),
    exists preds,
      generate_predictions s today user orders = Returned preds /\
      NoDup (map medicine_id preds) /\
      forall p, In p preds ->
        user_id p = user /\
        historical_data p = entries_of (medicine_id p) orders /\
        (2 <= List.length (entries_of (medicine_id p) orders))%nat /\
        PREDICTION_MIN_ORDERS s
          <= Z.of_nat (List.length (entries_of (medicine_id p) orders)).
Proof.
  intros s today user orders. unfold generate_predictions.
  destruct (batch_returns s today user (group_by_medicine orders))
    as (preds & Hg).
  exists preds. split; [exact Hg |]. split.
  - apply (batch_nodup s today user (group_by_medicine orders)); [| exact Hg].
    exact (proj1 (proj1 (group_by_medicine_grouped orders))).
  - intros p Hp.
    destruct (batch_medicine_ids s today user _ preds Hg p Hp)
      as (Hu & Hin & Hpred).
    apply group_by_medicine_In in Hin. destruct Hin as [Hh _].
    split; [exact Hu |]. split; [exact Hh |].
    rewrite <- Hh.
    exact (predicted_history_length s today user _ _ p Hpred).
Qed.

End BatchProps.

(* ================================================================== *)
(** * The caller of the parser: [OrderingAgent.process_message] *)

Module OrderingProps.
Import Py Re.

(** X17: [process_message] always returns.  It answers ["retry"] exactly
    when the parser raised, and then asks for clarification with no
    medicines; in every answer [requires_clarification] is true exactly
    when no medicine was parsed and the answer is not a greeting. *)
Theorem process_message_retries_iff_parser_raises :
  forall (Dict : Type) (message : string) (conversation_history : list Dict)
         (user_context : Dict) (language : string),
    exists r,
      OrderingAgent.process_message Dict message conversation_history
        user_context language = Returned r /\
      (OrderingAgent.next_action r = "retry" <->
       exists e, MedicineParser.parse_message message = Raised e) /\
      (OrderingAgent.requires_clarification r = true <->
       OrderingAgent.parsed_medicines r = [] /\
       OrderingAgent.next_action r <> "greet").
Proof.
  intros Dict message history context language.
  unfold OrderingAgent.process_message, OrderingAgent.process_message_body.
  destruct (MedicineParser.parse_message message) as [r | e] eqn:Hp;
    cbn [bind try_except].
  - eexists. split; [reflexivity |].
    cbn [OrderingAgent.next_action OrderingAgent.requires_clarification
         OrderingAgent.parsed_medicines].
    destruct (MedicineParser.is_greeting (lower message)) eqn:Hg.
    + destruct (ParserProps.greeting_result message Hg)
        as (r' & Hr' & Hm & Hc & Hn).
      rewrite Hp in Hr'. injection Hr' as <-. rewrite Hm, Hc, Hn.
      split; split.
      * discriminate.
      * intros (e & He). discriminate He.
      * discriminate.
      * intros [_ H]. now elim H.
    + destruct (ParserProps.parsed_result message r Hg Hp) as (_ & Hc & Hn).
      rewrite Hc, Hn.
      destruct (MedicineParser.medicines r); split; split;
        try discriminate; try (intros (e & He); discriminate He);
        try (intros [H _]; discriminate H); try (intros _; reflexivity).
      intros _. split; [reflexivity | discriminate].
  - exists OrderingAgent.retry_response. split; [reflexivity |].
    cbn. split; split.
    + intros _. now exists e.
    + reflexivity.
    + intros _. split; [reflexivity | discriminate].
    + reflexivity.
Qed.

(** X18: a message of at most 4300 characters is never answered with
    ["retry"]: the answer carries the parser's result, and its next
    action is to greet, to confirm or to ask for details. *)
Theorem short_message_is_not_retried :
  forall (Dict : Type) (message : string) (conversation_history : list Dict)
         (user_context : Dict) (language : string),
    (String.length message <= 4300)%nat ->
    exists r parsed,
      OrderingAgent.process_message Dict message conversation_history
        user_context language = Returned r /\
      MedicineParser.parse_message message = Returned parsed /\
      OrderingAgent.parsed_medicines r = MedicineParser.medicines parsed /\
      OrderingAgent.message r = MedicineParser.response parsed /\
      In (OrderingAgent.next_action r) ["greet"; "confirm"; "ask_details"].
Proof.
  intros Dict message history context language Hlen.
  assert (Hret : exists parsed,
             MedicineParser.parse_message message = Returned parsed).
  { unfold MedicineParser.parse_message.
    destruct (MedicineParser.is_greeting (lower message));
      [eexists; reflexivity |].
    destruct (ParserTotality.parse_segments_returns
                (Re.split false MedicineParser.separator_pattern message))
      as (meds & ->).
    - unfold Re.split.
      eapply Forall_impl; [| apply ParserTotality.pieces_length].
      cbv beta. intros piece Hpiece. lia.
    - cbn [bind]. eexists. reflexivity. }
  destruct Hret as (parsed & Hp).
  unfold OrderingAgent.process_message, OrderingAgent.process_message_body.
  rewrite Hp. cbn [bind try_except].
  eexists. exists parsed. split; [reflexivity |].
  split; [reflexivity |].
  cbn [OrderingAgent.next_action OrderingAgent.parsed_medicines
       OrderingAgent.message].
  split; [reflexivity |]. split; [reflexivity |].
  destruct (MedicineParser.is_greeting (lower message)) eqn:Hg.
  - destruct (ParserProps.greeting_result message Hg)
      as (r' & Hr' & _ & _ & Hn).
    rewrite Hp in Hr'. injection Hr' as <-. rewrite Hn. now left.
  - destruct (ParserProps.parsed_result message parsed Hg Hp) as (_ & _ & Hn).
    rewrite Hn. destruct (MedicineParser.medicines parsed).
    + right. right. now left.
    + right. now left.
Qed.

Lemma short_message_is_not_retried_witness :
  exists r,
    OrderingAgent.process_message unit "I need Paracetamol 500mg, 30 tablets"
      [] tt "en" = Returned r /\
    In (OrderingAgent.next_action r) ["greet"; "confirm"; "ask_details"].
Proof.
  destruct (short_message_is_not_retried unit
              "I need Paracetamol 500mg, 30 tablets" [] tt "en")
    as (r & parsed & Hr & _ & _ & _ & Hn).
  - simpl. lia.
  - exists r. split; [exact Hr | exact Hn].
Defined.

End OrderingProps.

(* ================================================================== *)
(** * [ProcurementAgent.check_inventory_need] *)

Module ProcurementProps.
Import Py ProcurementAgent CallerSpec.

Lemma py_max_int_max (a b : Z) : py_max_int a b = Z.max a b.
Proof.
  unfold py_max_int. destruct (a <? b) eqn:E.
  - apply Z.ltb_lt in E. lia.
  - apply Z.ltb_ge in E. lia.
Qed.

Lemma max_str_digits_large : 2 ^ 60 <= 10 ^ Z.of_N int_max_str_digits.
Proof. vm_compute. discriminate. Qed.

Lemma format_int_small (n : Z) :
  Z.abs n < 2 ^ 60 -> format_int n = Returned (str_of_int n).
Proof.
  intros Hn. unfold format_int.
  pose proof max_str_digits_large as Hbig.
  destruct (10 ^ Z.of_N int_max_str_digits <=? Z.abs n) eqn:E;
    [| reflexivity].
  apply Z.leb_le in E. exfalso.
  apply (Z.lt_irrefl (Z.abs n)).
  eapply Z.lt_le_trans; [exact Hn |].
  eapply Z.le_trans; [exact Hbig | exact E].
Qed.

Lemma round_to_53_bits_exact (n : Z) :
  exact_in_float n -> round_to_53_bits n = n.
Proof.
  unfold exact_in_float, round_to_53_bits. intros Hn.
  assert (Hlog : Z.log2 (Z.abs n) < 53).
  { destruct (Z.eq_dec (Z.abs n) 0) as [-> | Hne]; [reflexivity |].
    apply Z.log2_lt_pow2; [lia | exact Hn]. }
  destruct (Z.log2 (Z.abs n) - 52 <=? 0) eqn:E; [reflexivity |].
  apply Z.leb_gt in E. lia.
Qed.

Lemma true_div_2_exact (n : Z) :
  exact_in_float n -> true_div_2 n = Returned (inject_Z n / 2)%Q.
Proof.
  intros Hn. unfold true_div_2. rewrite (round_to_53_bits_exact n Hn).
  unfold exact_in_float in Hn.
  assert (Hpow : 2 ^ 53 <= 2 ^ 1025)
    by (apply Z.pow_le_mono_r; [reflexivity | discriminate]).
  destruct (2 ^ 1025 <=? Z.abs n) eqn:E; [| reflexivity].
  apply Z.leb_le in E. exfalso.
  apply (Z.lt_irrefl (Z.abs n)).
  eapply Z.lt_le_trans; [exact Hn |].
  eapply Z.le_trans; [exact Hpow | exact E].
Qed.

Lemma half_le (t e : Z) :
  Qle_bool (inject_Z t / 2) (inject_Z e) = true <-> t <= 2 * e.
Proof.
  rewrite Qle_bool_iff. unfold Qle.
  cbn [Qnum Qden inject_Z Qdiv Qmult Qinv]. lia.
Qed.

(** X19: [check_inventory_need] always returns.  It reports that no
    procurement is needed, with the effective stock, exactly when the
    stock less the pending orders is above the threshold; when it asks
    for procurement, the suggested quantity is the larger of the
    threshold and of what is missing to three thresholds, so stock plus
    order reach three times the threshold. *)
Theorem procurement_decision :
  forall (medicine_id : string) (current_stock reorder_threshold
          pending_orders : Z),
    exists r,
      check_inventory_need medicine_id current_stock reorder_threshold
        pending_orders = Returned r /\
      (r = NotNeeded medicine_id current_stock
             (current_stock - pending_orders) <->
       reorder_threshold < current_stock - pending_orders) /\
      (forall m c p e q u reason,
          r = Needed m c p e q u reason ->
          m = medicine_id /\ c = current_stock /\ p = pending_orders /\
          e = current_stock - pending_orders /\
          e <= reorder_threshold /\
          q = Z.max (3 * reorder_threshold - e) reorder_threshold /\
          3 * reorder_threshold <= e + q /\
          (u = high <-> e < 0)).
Proof.
  intros mid cur thr pend.
  unfold check_inventory_need, check_inventory_need_body.
  rewrite py_max_int_max.
  destruct (cur - pend <=? thr) eqn:Hneed.
  - apply Z.leb_le in Hneed.
    match goal with
    | |- exists r, try_except ?body _ = _ /\ _ =>
        destruct body as [r | ex] eqn:Hbody
    end; cbn [try_except].
    + exists r. split; [reflexivity |].
      destruct (cur - pend <? 0) eqn:Hneg; cbn [bind] in Hbody.
      * apply Z.ltb_lt in Hneg.
        destruct (format_int _); cbn [bind] in Hbody; [| discriminate].
        destruct (format_int _); cbn [bind] in Hbody; [| discriminate].
        destruct (format_int _); cbn [bind] in Hbody; [| discriminate].
        injection Hbody as <-. split.
        -- split; [discriminate | lia].
        -- intros m c p e q u reason H. injection H as <- <- <- <- <- <- _.
           repeat split; try lia.
      * apply Z.ltb_ge in Hneg.
        destruct (true_div_2 thr) as [half |]; cbn [bind] in Hbody;
          [| discriminate].
        destruct (format_int _); cbn [bind] in Hbody; [| discriminate].
        destruct (format_int _); cbn [bind] in Hbody; [| discriminate].
        destruct (format_int _); cbn [bind] in Hbody; [| discriminate].
        injection Hbody as <-. split.
        -- split; [discriminate | lia].
        -- intros m c p e q u reason H. injection H as <- <- <- <- <- <- _.
           repeat split; try lia.
           ++ destruct (Qle_bool half _); discriminate.
    + exists Failed. split; [reflexivity |]. split.
      * split; [discriminate | lia].
      * discriminate.
  - apply Z.leb_gt in Hneed. cbn [try_except].
    eexists. split; [reflexivity |]. split.
    + split; [intros _; exact Hneed | reflexivity].
    + discriminate.
Qed.

(** X20: for stock figures that a float holds exactly (below 2^53 in
    absolute value), a stock at or below the threshold always gets a
    procurement order, never the failure answer; the urgency is high
    for a negative effective stock, medium below half the threshold and
    low from half the threshold on; with a threshold that is not
    negative, stock plus order is exactly three times the threshold. *)
Theorem procurement_order_for_exact_figures :
  forall (medicine_id : string) (current_stock reorder_threshold
          pending_orders : Z),
    exact_in_float current_stock ->
    exact_in_float reorder_threshold ->
    exact_in_float pending_orders ->
    current_stock - pending_orders <= reorder_threshold ->
    exists q u reason,
      check_inventory_need medicine_id current_stock reorder_threshold
        pending_orders
      = Returned (Needed medicine_id current_stock pending_orders
                    (current_stock - pending_orders) q u reason) /\
      q = Z.max (3 * reorder_threshold
                 - (current_stock - pending_orders)) reorder_threshold /\
      (0 <= reorder_threshold ->
       current_stock - pending_orders + q = 3 * reorder_threshold) /\
      (u = high <-> current_stock - pending_orders < 0) /\
      (u = medium <->
       0 <= current_stock - pending_orders /\
       2 * (current_stock - pending_orders) < reorder_threshold) /\
      (u = low <->
       0 <= current_stock - pending_orders /\
       reorder_threshold <= 2 * (current_stock - pending_orders)).
Proof.
  intros mid cur thr pend Hcur Hthr Hpend Hneed.
  unfold check_inventory_need, check_inventory_need_body.
  rewrite py_max_int_max.
  apply Z.leb_le in Hneed. rewrite Hneed. apply Z.leb_le in Hneed.
  rewrite (true_div_2_exact thr Hthr).
  unfold exact_in_float in Hcur, Hthr, Hpend.
  assert (H53 : 2 ^ 53 = 9007199254740992) by reflexivity.
  assert (H60 : 2 ^ 60 = 1152921504606846976) by reflexivity.
  rewrite H53 in Hcur, Hthr, Hpend.
  rewrite !format_int_small by (rewrite H60; lia).
  destruct (cur - pend <? 0) eqn:Hneg; cbn [bind try_except].
  - apply Z.ltb_lt in Hneg.
    eexists _, _, _. split; [reflexivity |].
    split; [lia |]. split; [lia |].
    split; [split; [intros _; exact Hneg | reflexivity] |].
    split; split; try discriminate; lia.
  - apply Z.ltb_ge in Hneg.
    destruct (Qle_bool (inject_Z thr / 2) (inject_Z (cur - pend))) eqn:Hhalf.
    + apply half_le in Hhalf.
      eexists _, _, _. split; [reflexivity |].
      split; [lia |]. split; [lia |].
      split; [split; [discriminate | lia] |].
      split; split; try discriminate; try (intros _; reflexivity); lia.
    + assert (Hlt : ~ thr <= 2 * (cur - pend)).
      { intros H. apply half_le in H. congruence. }
      eexists _, _, _. split; [reflexivity |].
      split; [lia |]. split; [lia |].
      split; [split; [discriminate | lia] |].
      split; split; try discriminate; try (intros _; reflexivity); lia.
Qed.

Lemma procurement_order_for_exact_figures_witness :
  exists q u reason,
    check_inventory_need "med-1" 40 50 10
    = Returned (Needed "med-1" 40 10 30 q u reason) /\
    q = 120 /\ u = low.
Proof.
  destruct (procurement_order_for_exact_figures "med-1" 40 50 10)
    as (q & u & reason & Hr & Hq & _ & _ & _ & Hlow);
    try (unfold exact_in_float; simpl; lia); try lia.
  exists q, u, reason. split; [exact Hr |]. split.
  - rewrite Hq. reflexivity.
  - apply Hlow. simpl. lia.
Defined.

End ProcurementProps.

(* ================================================================== *)
(** * [SafetyAgent.validate_dosage] *)

Module SafetyProps.
Import Py SafetyAgent.

Lemma mem_In (x : string) (l : list string) : mem x l = true <-> In x l.
Proof.
  unfold mem. rewrite existsb_exists. split.
  - intros (y & Hy & E). apply String.eqb_eq in E. now subst.
  - intros H. exists x. split; [exact H | apply String.eqb_refl].
Qed.

Lemma first_match_In (requested_lower : string) (available : list string)
    (dosage : string) :
  first_match requested_lower available = Some dosage -> In dosage available.
Proof.
  induction available as [| d l IH]; cbn [first_match]; [discriminate |].
  destruct (_ || _).
  - intros H. injection H as <-. now left.
  - intros H. right. now apply IH.
Qed.

Lemma find_closest_dosage_available (requested : string)
    (available : list string) :
  available <> [] -> In (_find_closest_dosage requested available) available.
Proof.
  intros Hne. unfold _find_closest_dosage.
  destruct available as [| first rest]; [now elim Hne |].
  destruct (first_match (lower requested) (first :: rest)) as [d |] eqn:E.
  - exact (first_match_In _ _ _ E).
  - now left.
Qed.

(** X21: [validate_dosage] answers with a validation, never with the
    "unable to validate" answer.  It accepts a dosage exactly when the
    dosage is one of the standard dosages, compared as written
    (["500MG"] is not ["500mg"]).  Otherwise it rejects, lists the
    standard dosages and suggests one of them, hence not the request;
    when there is no standard dosage at all it suggests the request
    itself. *)
Theorem dosage_valid_iff_standard :
  forall (medicine_name requested_dosage : string)
         (standard_dosages : list string),
    (In requested_dosage standard_dosages /\
     validate_dosage medicine_name requested_dosage standard_dosages
       = Returned (ValidDosage medicine_name requested_dosage)) \/
    (~ In requested_dosage standard_dosages /\
     exists text suggested,
       validate_dosage medicine_name requested_dosage standard_dosages
         = Returned (InvalidDosage medicine_name requested_dosage text
                       suggested standard_dosages) /\
       (standard_dosages <> [] ->
        In suggested standard_dosages /\ suggested <> requested_dosage) /\
       (standard_dosages = [] -> suggested = requested_dosage)).
Proof.
  intros name req std. unfold validate_dosage.
  destruct (mem req std) eqn:Hmem; cbn [try_except].
  - apply mem_In in Hmem. left. split; [exact Hmem | reflexivity].
  - assert (Hnot : ~ In req std).
    { intros H. apply mem_In in H. congruence. }
    right. split; [exact Hnot |].
    eexists _, _. split; [reflexivity |]. split.
    + intros Hne.
      pose proof (find_closest_dosage_available req std Hne) as Hin.
      split; [exact Hin |]. intros E. apply Hnot. now rewrite <- E.
    + intros ->. reflexivity.
Qed.

Lemma uppercase_dosage_rejected :
  exists text,
    validate_dosage "Paracetamol" "500MG" ["250mg"; "500mg"]
    = Returned (InvalidDosage "Paracetamol" "500MG" text "500mg"
                  ["250mg"; "500mg"]).
Proof. eexists. vm_compute. reflexivity. Qed.

End SafetyProps.

(* ================================================================== *)
(** * The shape of a dosage *)

Module DosageProps.
Import Py Re MedicineParser MatchSpec DosageSpec MatchProps.

Lemma steps_lit_inv (ic : bool) (a : ascii) (c c' : cursor)
    (g g' : captures) :
  steps ic (Lit a) c g c' g' ->
  g' = g /\ exists x, advance c = Some (x, c') /\ same_char ic a x = true.
Proof. inversion 1; subst. eauto. Qed.

Lemma steps_alt_inv (ic : bool) (r1 r2 : regex) (c c' : cursor)
    (g g' : captures) :
  steps ic (Alt r1 r2) c g c' g' ->
  steps ic r1 c g c' g' \/ steps ic r2 c g c' g'.
Proof. inversion 1; subst; auto. Qed.

Lemma steps_eps_inv (ic : bool) (c c' : cursor) (g g' : captures) :
  steps ic Eps c g c' g' -> c' = c /\ g' = g.
Proof. inversion 1; subst. auto. Qed.

Lemma span_refl (c : cursor) : span c c "".
Proof. split; [reflexivity | simpl; lia]. Qed.

Lemma lower_append (a b : string) : lower (a ++ b) = lower a ++ lower b.
Proof.
  unfold lower. induction a as [| x a IH]; simpl; [reflexivity |].
  now rewrite IH.
Qed.

(** A character read by a literal, case ignored. *)
Lemma steps_lit_span (a : ascii) (c c' : cursor) (g g' : captures) :
  steps true (Lit a) c g c' g' ->
  g' = g /\
  exists x, span c c' (String x "") /\ lower_char x = lower_char a.
Proof.
  intros H. destruct (steps_lit_inv _ _ _ _ _ _ H) as (-> & x & Hx & Hsame).
  split; [reflexivity |]. exists x. split; [now apply advance_span |].
  unfold same_char in Hsame. apply Ascii.eqb_eq in Hsame. now symmetry.
Qed.

(** The text read by a literal word is the word, up to letter case. *)
Lemma steps_word (w : string) :
  forall (c c' : cursor) (g g' : captures),
    steps true (Word w) c g c' g' ->
    g' = g /\ exists l, span c c' l /\ lower l = lower w.
Proof.
  induction w as [| a w IH]; intros c c' g g' H.
  - destruct (steps_eps_inv _ _ _ _ _ H) as (-> & ->).
    split; [reflexivity |]. exists "". split; [apply span_refl | reflexivity].
  - destruct w as [| b w].
    + destruct (steps_lit_span _ _ _ _ _ H) as (-> & x & Hx & Hl).
      split; [reflexivity |]. exists (String x ""). split; [exact Hx |].
      unfold lower. simpl. now rewrite Hl.
    + change (Word (String a (String b w)))
        with (Seq (Lit a) (Word (String b w))) in H.
      destruct (steps_seq_inv _ _ _ _ _ _ _ H) as (c1 & g1 & H1 & H2).
      destruct (steps_lit_span _ _ _ _ _ H1) as (-> & x & Hx & Hl).
      destruct (IH _ _ _ _ H2) as (-> & l & Hspan & Hlow).
      split; [reflexivity |]. exists (String x l). split.
      * exact (span_trans c c1 c' (String x "") l Hx Hspan).
      * change (lower (String x l)) with (String (lower_char x) (lower l)).
        rewrite Hl, Hlow. reflexivity.
Qed.

Lemma steps_words (ws : list string) :
  forall (c c' : cursor) (g g' : captures),
    steps true (Words ws) c g c' g' ->
    g' = g /\ exists l, span c c' l /\ In (lower l) (map lower ws).
Proof.
  induction ws as [| w ws IH]; intros c c' g g' H.
  - inversion H.
  - destruct ws as [| w' ws].
    + destruct (steps_word w _ _ _ _ H) as (-> & l & Hl & Hlow).
      split; [reflexivity |]. exists l. split; [exact Hl |].
      left. now symmetry.
    + change (Words (w :: w' :: ws))
        with (Alt (Word w) (Words (w' :: ws))) in H.
      destruct (steps_alt_inv _ _ _ _ _ _ _ H) as [H1 | H2].
      * destruct (steps_word w _ _ _ _ H1) as (-> & l & Hl & Hlow).
        split; [reflexivity |]. exists l. split; [exact Hl |].
        left. now symmetry.
      * destruct (IH _ _ _ _ H2) as (-> & l & Hl & Hin).
        split; [reflexivity |]. exists l. split; [exact Hl |].
        right. exact Hin.
Qed.

Lemma steps_plural (w : string) (c c' : cursor) (g g' : captures) :
  steps true (plural w) c g c' g' ->
  g' = g /\
  exists l, span c c' l /\ (lower l = lower w \/ lower l = lower w ++ "s").
Proof.
  unfold plural, Opt. intros H.
  destruct (steps_seq_inv _ _ _ _ _ _ _ H) as (c1 & g1 & H1 & H2).
  destruct (steps_word w _ _ _ _ H1) as (-> & l & Hl & Hlow).
  destruct (steps_alt_inv _ _ _ _ _ _ _ H2) as [Hs | He].
  - destruct (steps_lit_span _ _ _ _ _ Hs) as (-> & x & Hx & Hxl).
    split; [reflexivity |]. exists (l ++ String x ""). split.
    + exact (span_trans c c1 c' l (String x "") Hl Hx).
    + right. rewrite lower_append, Hlow. unfold lower at 2. simpl.
      now rewrite Hxl.
  - destruct (steps_eps_inv _ _ _ _ _ He) as (-> & ->).
    split; [reflexivity |]. exists l. split; [exact Hl | now left].
Qed.

Lemma lower_char_point (x : ascii) : lower_char x = "."%char -> x = "."%char.
Proof.
  destruct x as [[] [] [] [] [] [] [] []]; vm_compute; congruence.
Qed.

(** The text read by [\d+(?:\.\d+)?]. *)
Lemma steps_decimal (c c' : cursor) (g g' : captures) :
  steps true (Seq digits (Opt (Seq (Lit ".") digits))) c g c' g' ->
  g' = g /\ exists l, span c c' l /\ is_decimal l.
Proof.
  unfold digits, Opt. intros H.
  destruct (steps_seq_inv _ _ _ _ _ _ _ H) as (c1 & g1 & H1 & H2).
  destruct (steps_digits _ _ _ _ _ H1) as (-> & a & Ha & Hnum).
  destruct (steps_alt_inv _ _ _ _ _ _ _ H2) as [Hp | He].
  - destruct (steps_seq_inv _ _ _ _ _ _ _ Hp) as (c2 & g2 & H3 & H4).
    destruct (steps_lit_span _ _ _ _ _ H3) as (-> & x & Hx & Hxl).
    apply lower_char_point in Hxl. subst x.
    destruct (steps_digits _ _ _ _ _ H4) as (-> & b & Hb & Hnumb).
    split; [reflexivity |]. exists (a ++ "." ++ b). split.
    + apply (span_trans c c1 c' a ("." ++ b) Ha).
      exact (span_trans c1 c2 c' "." b Hx Hb).
    + right. now exists a, b.
  - destruct (steps_eps_inv _ _ _ _ _ He) as (-> & ->).
    split; [reflexivity |]. exists a. split; [exact Ha | now left].
Qed.

Lemma extract_dosage_normalised (text d : string) :
  _extract_dosage text = Returned (Some d) -> normalised_dosage d.
Proof.
  unfold _extract_dosage.
  destruct (search true dosage_pattern text) as [m |] eqn:E;
    [| discriminate].
  apply search_sound in E. destruct E as (c & Hc & _ & Hs).
  unfold dosage_pattern in Hs.
  destruct (steps_seq_inv _ _ _ _ _ _ _ Hs) as (c1 & g1 & H1 & H2).
  destruct (steps_group_inv _ _ _ _ _ _ _ H1) as (g0 & -> & Hnum).
  destruct (steps_seq_inv _ _ _ _ _ _ _ H2) as (c2 & g2 & H3 & H4).
  destruct (steps_group_inv _ _ _ _ _ _ _ H4) as (g3 & Hg & H5).
  assert (L1 : lookup 1 (m_groups m) = Some (pos c, pos c1)).
  { rewrite Hg. cbn [lookup Nat.eqb].
    rewrite (steps_lookup_other _ _ _ _ _ _ 1%nat H5)
      by (vm_compute; tauto).
    rewrite (steps_lookup_other _ _ _ _ _ _ 1%nat H3)
      by (vm_compute; tauto).
    reflexivity. }
  assert (L2 : lookup 2 (m_groups m) = Some (pos c2, pos (m_end m))).
  { rewrite Hg. reflexivity. }
  unfold group. rewrite L1, L2.
  intros H. injection H as <-.
  destruct (steps_decimal _ _ _ _ Hnum) as (_ & amount & Hamount & Hdec).
  assert (Hc1 : cursor_of text c1)
    by (eapply steps_cursor_of; eassumption).
  assert (Hc2 : cursor_of text c2)
    by (eapply steps_cursor_of; eassumption).
  rewrite (span_slice text c c1 amount Hc Hamount).
  assert (Hunit : exists l, span c2 (m_end m) l /\ In (lower l) dosage_units).
  { destruct (steps_alt_inv _ _ _ _ _ _ _ H5) as [Hw | Hp].
    - destruct (steps_words _ _ _ _ _ Hw) as (_ & l & Hl & Hin).
      exists l. split; [exact Hl |].
      cbn in Hin. unfold dosage_units. cbn. tauto.
    - destruct (steps_plural _ _ _ _ _ Hp) as (_ & l & Hl & Hlow).
      exists l. split; [exact Hl |].
      unfold dosage_units. cbn in Hlow. cbn.
      destruct Hlow as [<- | <-]; tauto. }
  destruct Hunit as (l & Hl & Hin).
  rewrite (span_slice text c2 (m_end m) l Hc2 Hl).
  now exists amount, (lower l).
Qed.

(** X22: for a message of ASCII characters, the dosage of a parsed
    request, when there is one, is a numeral (digits, possibly a point
    and digits) followed at once by one of the units mg, g, ml, mcg, iu,
    unit, units in lower case: the spaces between number and unit are
    dropped and the unit is lower-cased, however the customer wrote
    them. *)
Theorem request_dosage_is_normalised :
  forall (message : string) (r : ParseResult) (m : MedicineRequest)
         (d : string),
    ascii_only message ->
    parse_message message = Returned r ->
    In m (medicines r) ->
    dosage m = Some d ->
    normalised_dosage d.
Proof.
  intros message r m d _ Hr Hin.
  assert (HF : Forall (fun m => forall d, dosage m = Some d ->
                                          normalised_dosage d)
                      (medicines r)).
  { apply (ParserExtra.parse_message_Forall _) with (message := message);
      [| exact Hr].
    intros segment c n d0 q Hd _ d1. cbn [dosage]. intros ->.
    exact (extract_dosage_normalised _ _ Hd). }
  rewrite Forall_forall in HF. exact (HF m Hin d).
Qed.

Lemma request_dosage_is_normalised_witness :
  ascii_only "Amlodipine 2.5 MG daily" /\ normalised_dosage "2.5mg".
Proof.
  split; [reflexivity |].
  destruct (parse_message "Amlodipine 2.5 MG daily") as [r |] eqn:Hr;
    [| vm_compute in Hr; discriminate Hr].
  destruct (medicines r) as [| m ms] eqn:Hm;
    [vm_compute in Hr; injection Hr as <-; discriminate Hm |].
  apply (request_dosage_is_normalised "Amlodipine 2.5 MG daily" r m);
    [reflexivity | exact Hr | rewrite Hm; now left |].
  vm_compute in Hr. injection Hr as <-. cbn in Hm. injection Hm as <- _.
  reflexivity.
Defined.

End DosageProps.
